(** * Chat-bot-app: the storage, validation and service layer

    A shallow embedding of the data layer of the application
    (utils/StorageManager, utils/dataValidation, services/ChatService,
    services/TaskService, services/ProfileService) and the properties its
    specification states about it.

    Conventions of the embedding:
    - a JavaScript value is a tree ([value]); the JSON documents kept in
      AsyncStorage are trees without dates ([json]);
    - [undefined] is the absence of a value: reading a property yields an
      [option value], and a property holding [undefined] is represented as
      a missing property (typeof, [=== undefined] and JSON.stringify do not
      tell them apart); the arguments of the profile operations, where a
      spread does tell them apart, have a type of their own ([argument]);
    - an exception is a [Throw] in the [result] monad; the persistent store
      is passed explicitly; the device store itself never faults;
    - [generateId()] and [new Date()] read the environment, so the
      identifier and the clock reading are arguments of the operations that
      call them;
    - the two operations that call each other without a base case take a
      fuel argument. *)

From Stdlib Require Import ZArith String Ascii List Bool Lia Floats DecimalString DecimalZ.
From stdpp Require Import base option list gmap strings.

Local Open Scope string_scope.
Local Open Scope list_scope.
Set Warnings "-register-all".

(** ** Exceptions and results *)

(** The errors of the source are [new Error(message)] values; the constructors
    name them by kind:
    - [NotFound "Chat" id] is [Error(`Chat with id ${id} not found`)], for
      an identifier that is a string, as its type says,
    - [InvalidProfile] is [Error('Invalid profile data')],
    - [InvalidFormat] is [Error('Invalid import data format')],
    - [TypeError] and [SyntaxError] are raised by the language itself (a
      property read on [null], a method call on a non-function, JSON.parse on a
      malformed text). *)
Inductive exn : Type :=
| NotFound (kind : string) (id : string)
| InvalidProfile
| InvalidFormat
| TypeError
| SyntaxError.

Inductive result (A : Type) : Type :=
| Ok (a : A)
| Throw (e : exn).
Arguments Ok {A} a.
Arguments Throw {A} e.

#[global] Instance result_ret : MRet result := fun A a => Ok a.
#[global] Instance result_bind : MBind result := fun A B k r =>
  match r with
  | Ok a => k a
  | Throw e => Throw e
  end.
#[global] Instance result_fmap : FMap result := fun A B f r =>
  match r with
  | Ok a => Ok (f a)
  | Throw e => Throw e
  end.

(** [Array.prototype.map] with a callback that may throw: the first exception
    aborts the traversal. *)
Fixpoint mapR {A B : Type} (f : A -> result B) (l : list A) : result (list B) :=
  match l with
  | [] => Ok []
  | x :: r => y ← f x; ys ← mapR f r; Ok (y :: ys)
  end.

(** ** Objects: ordered property lists *)

Section Props.
Context {A : Type}.

(** [o[k]]: the first binding of [k]. *)
Fixpoint assoc (k : string) (fs : list (string * A)) : option A :=
  match fs with
  | [] => None
  | (k', v) :: r => if String.eqb k k' then Some v else assoc k r
  end.

(** [o[k] = v]: overwrite in place, or append a new property. *)
Fixpoint put (k : string) (v : A) (fs : list (string * A)) : list (string * A) :=
  match fs with
  | [] => [(k, v)]
  | (k', v') :: r =>
      if String.eqb k k' then (k, v) :: r else (k', v') :: put k v r
  end.

(** The first binding of [k], if any, rewritten by [f]: what a guarded
    assignment [if (...o[k]...) o[k] = f(o[k])] amounts to. *)
Fixpoint alter_first (f : A -> A) (k : string) (fs : list (string * A)) : list (string * A) :=
  match fs with
  | [] => []
  | (k', v) :: r =>
      if String.eqb k k' then (k', f v) :: r else (k', v) :: alter_first f k r
  end.

(** [{...a, ...b}]: the properties of [b] assigned over those of [a]. *)
Definition spread (a b : list (string * A)) : list (string * A) :=
  fold_left (fun acc kv => put kv.1 kv.2 acc) b a.
End Props.

(** ** Arrays *)

(** [Array.prototype.findIndex]; [None] stands for [-1]. *)
Fixpoint findIndex {A : Type} (p : A -> bool) (l : list A) : option nat :=
  match l with
  | [] => None
  | x :: r => if p x then Some 0 else S <$> findIndex p r
  end.

(** ** Strings *)

(** White space and line terminators among the code units below 256, which
    is the alphabet of [string]: TAB, LF, VT, FF, CR, SP and NBSP. *)
Definition is_space (c : ascii) : bool :=
  let n := nat_of_ascii c in
  (n =? 9)%nat || (n =? 10)%nat || (n =? 11)%nat || (n =? 12)%nat || (n =? 13)%nat
  || (n =? 32)%nat || (n =? 160)%nat.

Fixpoint trimStart (s : string) : string :=
  match s with
  | EmptyString => EmptyString
  | String c r => if is_space c then trimStart r else s
  end.

Fixpoint trimEnd (s : string) : string :=
  match s with
  | EmptyString => EmptyString
  | String c r =>
      match trimEnd r with
      | EmptyString => if is_space c then EmptyString else String c EmptyString
      | r' => String c r'
      end
  end.

(** [String.prototype.trim] *)
Definition trim (s : string) : string := trimEnd (trimStart s).

Definition nonempty (s : string) : bool :=
  match s with
  | EmptyString => false
  | String _ _ => true
  end.

(** [String.prototype.toLowerCase] on the code units below 256. The
    upper-case letters there are A-Z and, in the Latin-1 block, U+00C0 to
    U+00DE without the multiplication sign U+00D7; each maps to the code
    unit 32 above it, and no other unit changes. *)
Definition lower_unit (c : ascii) : ascii :=
  let n := nat_of_ascii c in
  if ((65 <=? n)%nat && (n <=? 90)%nat)
     || ((192 <=? n)%nat && (n <=? 222)%nat && negb (n =? 215)%nat)
  then ascii_of_nat (n + 32) else c.

Fixpoint toLowerCase (s : string) : string :=
  match s with
  | EmptyString => EmptyString
  | String c r => String (lower_unit c) (toLowerCase r)
  end.

(** [s.includes(q)]: [q] occurs in [s] as a run of consecutive units. *)
Fixpoint includes (s q : string) : bool :=
  String.prefix q s ||
  match s with
  | EmptyString => false
  | String _ r => includes r q
  end.

(** ** Array indices

    The arguments of [Array.prototype.slice] are numbers; each is first
    truncated towards zero, NaN counting as 0 and the infinities staying
    what they are. *)
Inductive integer_or_infinity : Type :=
| NegInfinity
| Finite (n : Z)
| PosInfinity.

Definition ToIntegerOrInfinity (x : float) : integer_or_infinity :=
  match Prim2SF x with
  | S754_nan => Finite 0
  | S754_zero _ => Finite 0
  | S754_infinity s => if s then NegInfinity else PosInfinity
  | S754_finite s m e =>
      let n := Z.shiftl (Z.pos m) e in
      Finite (if s then (- n)%Z else n)
  end.

(** The position an argument of [slice] denotes in an array of [len]
    elements: a negative one counts from the end, and the result is
    clamped to the array. *)
Definition relative_index (len : nat) (x : float) : nat :=
  match ToIntegerOrInfinity x with
  | NegInfinity => 0
  | PosInfinity => len
  | Finite n =>
      if (n <? 0)%Z then Z.to_nat (Z.max (Z.of_nat len + n) 0)
      else Z.to_nat (Z.min n (Z.of_nat len))
  end.

(** [l.slice(start)] and [l.slice(start, end)] *)
Definition slice {A : Type} (l : list A) (start : float) (end_ : option float) : list A :=
  let len := length l in
  let k := relative_index len start in
  let final :=
    match end_ with
    | Some e => relative_index len e
    | None => len
    end in
  take (final - k) (drop k l).

(** [Array.prototype.filter] and [Array.prototype.some] with a callback
    that may throw. *)
Fixpoint filterR {A : Type} (p : A -> result bool) (l : list A) : result (list A) :=
  match l with
  | [] => Ok []
  | x :: r => b ← p x; ys ← filterR p r; Ok (if b : bool then x :: ys else ys)
  end.

Fixpoint someR {A : Type} (p : A -> result bool) (l : list A) : result bool :=
  match l with
  | [] => Ok false
  | x :: r => b ← p x; if b : bool then Ok true else someR p r
  end.

(** ** JSON documents *)

(** The numbers of a JSON text are those [JSON.stringify] prints: the
    finite ones, without the negative zero. It prints NaN and the
    infinities as [null], and the negative zero as [0]. (A literal beyond
    the range of binary64, which [JSON.parse] would read as an infinity,
    and the literal [-0] are left out: no write of the program produces
    them, and a text handed to [importData] that holds one is not among
    the texts considered.) *)
Definition nonfinite (x : float) : bool :=
  match Prim2SF x with
  | S754_nan | S754_infinity _ => true
  | _ => false
  end.

Definition prints_as_itself (x : float) : bool :=
  match Prim2SF x with
  | S754_zero negative => negb negative
  | S754_finite _ _ _ => true
  | S754_infinity _ | S754_nan => false
  end.

Record number : Type := {
  number_value : float;
  number_printed : prints_as_itself number_value = true
}.

Inductive json : Type :=
| JNull
| JBool (b : bool)
| JNum (x : number)
| JStr (s : string)
| JArr (items : list json)
| JObj (props : list (string * json)).

(** What [JSON.stringify] prints for a number. *)
Definition JSON_number (x : float) : json :=
  let y := match Prim2SF x with S754_zero _ => 0%float | _ => x end in
  match Sumbool.sumbool_of_bool (prints_as_itself y) with
  | left printed => JNum {| number_value := y; number_printed := printed |}
  | right _ => JNull
  end.

(** A text held by the device store or handed to [importData]: either the
    serialisation of a JSON document or a text [JSON.parse] rejects. *)
Inductive text : Type :=
| Text (j : json)
| Malformed.

Definition JSON_parse (t : text) : result json :=
  match t with
  | Text j => Ok j
  | Malformed => Throw SyntaxError
  end.

(** AsyncStorage: a finite map from keys to texts. *)
Abbreviation store := (gmap string text).

(** ** Optional properties

    An optional property of an object literal is left out, holds
    [undefined], or holds a value. *)
Inductive optional_property (A : Type) : Type :=
| Absent
| Undef
| Present (a : A).
Arguments Absent {A}.
Arguments Undef {A}.
Arguments Present {A} a.

(** ** Dates *)

(** [Date.prototype.toISOString] and the [Date(string)] constructor are built
    into the language. The development uses two facts about them:
    the constructor reads back what [toISOString] printed, and an ISO
    string is never empty. [Date_parse s = None] is the Invalid Date. *)
Class JSDate : Type := {
  time : Type;
  toISOString : time -> string;
  Date_parse : string -> option time;
  Date_parse_toISOString : forall t, Date_parse (toISOString t) = Some t;
  toISOString_nonempty : forall t, nonempty (toISOString t) = true
}.

Section Model.
Context `{JSDate}.

(** ** Run-time values *)

Inductive value : Type :=
| VNull
| VBool (b : bool)
| VNum (x : float)
| VStr (s : string)
| VDate (d : option time)
| VArr (items : list value)
| VObj (props : list (string * value)).

(** The result of [JSON.parse], as a run-time value. *)
Fixpoint of_json (j : json) : value :=
  match j with
  | JNull => VNull
  | JBool b => VBool b
  | JNum x => VNum (number_value x)
  | JStr s => VStr s
  | JArr l => VArr (map of_json l)
  | JObj fs => VObj (map (fun kv => (kv.1, of_json kv.2)) fs)
  end.

(** The document [JSON.stringify] prints: a date prints its [toJSON()],
    which is the ISO string, or [null] for the Invalid Date; NaN and the
    infinities print as [null], the negative zero as [0], every other
    number as itself. *)
Fixpoint toJSON (v : value) : json :=
  match v with
  | VNull => JNull
  | VBool b => JBool b
  | VNum x => JSON_number x
  | VStr s => JStr s
  | VDate (Some t) => JStr (toISOString t)
  | VDate None => JNull
  | VArr l => JArr (map toJSON l)
  | VObj fs => JObj (map (fun kv => (kv.1, toJSON kv.2)) fs)
  end.

Definition JSON_stringify (v : value) : text := Text (toJSON v).

(** [typeof] *)
Inductive jstype : Type := TUndefined | TObject | TBoolean | TNumber | TString.

Definition typeof (v : option value) : jstype :=
  match v with
  | None => TUndefined
  | Some VNull => TObject
  | Some (VBool _) => TBoolean
  | Some (VNum _) => TNumber
  | Some (VStr _) => TString
  | Some (VDate _) => TObject
  | Some (VArr _) => TObject
  | Some (VObj _) => TObject
  end.

Definition is_type (t : jstype) (v : option value) : bool :=
  match t, typeof v with
  | TUndefined, TUndefined => true
  | TObject, TObject => true
  | TBoolean, TBoolean => true
  | TNumber, TNumber => true
  | TString, TString => true
  | _, _ => false
  end.

Definition is_null (v : option value) : bool :=
  match v with
  | Some VNull => true
  | _ => false
  end.

Definition is_undefined (v : option value) : bool :=
  match v with
  | None => true
  | _ => false
  end.

(** [v instanceof Date] *)
Definition instanceof_Date (v : option value) : bool :=
  match v with
  | Some (VDate _) => true
  | _ => false
  end.

(** [Array.isArray(v)] *)
Definition isArray (v : option value) : bool :=
  match v with
  | Some (VArr _) => true
  | _ => false
  end.

(** Truthiness, as [!v], [v && _] and [v || _] see it. *)
Definition truthy (v : option value) : bool :=
  match v with
  | None => false
  | Some VNull => false
  | Some (VBool b) => b
  | Some (VNum x) => negb (PrimFloat.is_nan x) && negb (PrimFloat.is_zero x)
  | Some (VStr s) => nonempty s
  | Some (VDate _) => true
  | Some (VArr _) => true
  | Some (VObj _) => true
  end.

(** [a === b]. Objects, arrays and dates are equal only to themselves; the
    operands compared below are never the same allocation, so they compare
    unequal. *)
Definition strict_eq (a b : option value) : bool :=
  match a, b with
  | None, None => true
  | Some VNull, Some VNull => true
  | Some (VBool x), Some (VBool y) => Bool.eqb x y
  | Some (VNum x), Some (VNum y) => PrimFloat.eqb x y
  | Some (VStr x), Some (VStr y) => String.eqb x y
  | _, _ => false
  end.

(** [v.k] where [v] is known not to be [null]: only an object has the
    properties the code reads. *)
Definition field (v : value) (k : string) : option value :=
  match v with
  | VObj fs => assoc k fs
  | _ => None
  end.

(** [v.k] in general: reading a property of [null] throws. *)
Definition prop (v : value) (k : string) : result (option value) :=
  match v with
  | VNull => Throw TypeError
  | _ => Ok (field v k)
  end.

(** ** utils/dataValidation *)

Definition validateMessage (message : value) : bool :=
  is_type TObject (Some message) &&
  negb (is_null (Some message)) &&
  is_type TString (field message "id") &&
  is_type TString (field message "text") &&
  is_type TBoolean (field message "isUser") &&
  instanceof_Date (field message "timestamp") &&
  is_type TString (field message "chatId").

Definition validateChat (chat : value) : bool :=
  is_type TObject (Some chat) &&
  negb (is_null (Some chat)) &&
  is_type TString (field chat "id") &&
  is_type TString (field chat "title") &&
  is_type TString (field chat "lastMessage") &&
  instanceof_Date (field chat "lastMessageTime") &&
  isArray (field chat "messages") &&
  match field chat "messages" with
  | Some (VArr messages) => forallb validateMessage messages
  | _ => false
  end.

Definition validateTask (task : value) : bool :=
  is_type TObject (Some task) &&
  negb (is_null (Some task)) &&
  is_type TString (field task "id") &&
  is_type TString (field task "title") &&
  (is_undefined (field task "description") || is_type TString (field task "description")) &&
  is_type TBoolean (field task "completed") &&
  instanceof_Date (field task "createdAt") &&
  (is_undefined (field task "fromChatId") || is_type TString (field task "fromChatId")).

Definition is_theme (v : option value) : bool :=
  strict_eq v (Some (VStr "light")) || strict_eq v (Some (VStr "dark"))
  || strict_eq v (Some (VStr "auto")).

Definition validateUserProfile (profile : value) : bool :=
  is_type TObject (Some profile) &&
  negb (is_null (Some profile)) &&
  (is_undefined (field profile "name") || is_type TString (field profile "name")) &&
  (is_undefined (field profile "avatar") || is_type TString (field profile "avatar")) &&
  is_type TObject (field profile "preferences") &&
  negb (is_null (field profile "preferences")) &&
  match field profile "preferences" with
  | Some preferences =>
      is_theme (field preferences "theme") &&
      is_type TBoolean (field preferences "notifications") &&
      is_type TString (field preferences "aiModel")
  | None => false
  end.

(** [if (o.k && typeof o.k === 'string') o.k = new Date(o.k)] on the
    properties of an object. *)
Definition rehydrate_date (k : string) (fs : list (string * value)) : list (string * value) :=
  match assoc k fs with
  | Some (VStr s) =>
      if truthy (Some (VStr s)) then put k (VDate (Date_parse s)) fs else fs
  | _ => fs
  end.

(** The callback of the inner [item.messages.map]. *)
Definition rehydrate_message (msg : value) : result value :=
  match msg with
  | VNull => Throw TypeError
  | VObj fs => Ok (VObj (rehydrate_date "timestamp" fs))
  | _ => Ok msg
  end.

(** The callback of the outer [data.map]. A value that is not an object has
    none of the four properties, so it passes through unchanged; reading a
    property of [null] throws. *)
Definition rehydrate (item : value) : result value :=
  match item with
  | VNull => Throw TypeError
  | VObj fs =>
      let fs := rehydrate_date "timestamp" fs in
      let fs := rehydrate_date "lastMessageTime" fs in
      let fs := rehydrate_date "createdAt" fs in
      match assoc "messages" fs with
      | Some (VArr messages) =>
          messages' ← mapR rehydrate_message messages;
          Ok (VObj (put "messages" (VArr messages') fs))
      | _ => Ok (VObj fs)
      end
  | _ => Ok item
  end.

Definition sanitizeStorageData (data : value) (validator : value -> bool) : result (list value) :=
  match data with
  | VArr items => List.filter validator <$> mapR rehydrate items
  | _ => Ok []
  end.

Definition createDefaultUserProfile : value :=
  VObj [("preferences",
         VObj [("theme", VStr "auto");
               ("notifications", VBool true);
               ("aiModel", VStr "gpt-3.5-turbo")])].

(** ** utils/StorageManager *)

(** The persistent-store keys of [STORAGE_KEYS]. *)
Definition CHATS : string := "@chats".
Definition TASKS : string := "@tasks".
Definition USER_PROFILE : string := "@userProfile".
Definition APP_SETTINGS : string := "@appSettings".

(** [getItem]: a missing key yields [null]; so does a text that does not
    parse, through the catch clause. *)
Definition getItem (st : store) (key : string) : value :=
  match st !! key with
  | None => VNull
  | Some item =>
      match JSON_parse item with
      | Ok j => of_json j
      | Throw _ => VNull
      end
  end.

Definition setItem (st : store) (key : string) (v : value) : store :=
  <[key := JSON_stringify v]> st.

Definition removeItem (st : store) (key : string) : store :=
  delete key st.

(** ** services/ChatService *)

Definition getChats (st : store) : list value :=
  let chatsData := getItem st CHATS in
  if negb (truthy (Some chatsData)) then []
  else
    match sanitizeStorageData chatsData validateChat with
    | Ok chats => chats
    | Throw _ => []
    end.

(** [chats.find(chat => chat.id === id) || null]; [None] is the [null]. The
    element found has an [id] property, so it is an object and truthy. *)
Definition getChat (st : store) (id : string) : option value :=
  List.find (fun chat => strict_eq (field chat "id") (Some (VStr id))) (getChats st).

(** [title.trim() || 'New Chat'] *)
Definition chat_title (title : string) : string :=
  if nonempty (trim title) then trim title else "New Chat".

(** [createChat title]; [id] is what [generateId()] returned and [now] the
    reading of the clock. *)
Definition createChat (id : string) (now : time) (title : string) (st : store)
  : value * store :=
  let newChat :=
    VObj [("id", VStr id);
          ("title", VStr (chat_title title));
          ("lastMessage", VStr "");
          ("lastMessageTime", VDate (Some now));
          ("messages", VArr [])] in
  let chats := getChats st in
  (newChat, setItem st CHATS (VArr (newChat :: chats))).

(** [updateChat updatedChat]; the argument is an object, given by its
    properties. *)
Definition updateChat (updatedChat : list (string * value)) (st : store) : result store :=
  let chats := getChats st in
  match findIndex (fun chat => strict_eq (field chat "id") (assoc "id" updatedChat)) chats with
  | None =>
      Throw (NotFound "Chat"
               match assoc "id" updatedChat with Some (VStr s) => s | _ => "" end)
  | Some index => Ok (setItem st CHATS (VArr (<[index := VObj updatedChat]> chats)))
  end.

Definition deleteChat (id : string) (st : store) : store :=
  let chats := getChats st in
  let filteredChats :=
    List.filter (fun chat => negb (strict_eq (field chat "id") (Some (VStr id)))) chats in
  setItem st CHATS (VArr filteredChats).

(** [Omit<Message, 'id' | 'chatId'>]; the timestamp is a [Date], which may
    be the Invalid Date. *)
Record messageData : Type := {
  md_text : string;
  md_isUser : bool;
  md_timestamp : option time
}.

Definition newMessage (id chatId : string) (md : messageData) : value :=
  VObj [("id", VStr id);
        ("chatId", VStr chatId);
        ("text", VStr (md_text md));
        ("isUser", VBool (md_isUser md));
        ("timestamp", VDate (md_timestamp md))].

(** [addMessage chatId messageData]; [id] is what [generateId()] returned. *)
Definition addMessage (id : string) (chatId : string) (md : messageData) (st : store)
  : result (value * store) :=
  match getChat st chatId with
  | None => Throw (NotFound "Chat" chatId)
  | Some (VObj chat) =>
      match assoc "messages" chat with
      | Some (VArr messages) =>
          let chat := put "messages" (VArr (messages ++ [newMessage id chatId md])) chat in
          let chat := put "lastMessage" (VStr (md_text md)) chat in
          let chat := put "lastMessageTime" (VDate (md_timestamp md)) chat in
          st' ← updateChat chat st;
          Ok (newMessage id chatId md, st')
      | _ => Throw TypeError
      end
  | Some _ => Throw TypeError
  end.

Definition clearAllChats (st : store) : store := removeItem st CHATS.

(** ** services/TaskService *)

Definition getTasks (st : store) : list value :=
  let tasksData := getItem st TASKS in
  if negb (truthy (Some tasksData)) then []
  else
    match sanitizeStorageData tasksData validateTask with
    | Ok tasks => tasks
    | Throw _ => []
    end.

Definition getTask (st : store) (id : string) : option value :=
  List.find (fun task => strict_eq (field task "id") (Some (VStr id))) (getTasks st).

(** [Omit<Task, 'id' | 'createdAt'>] *)
Record taskData : Type := {
  td_title : string;
  td_description : option string;
  td_completed : bool;
  td_fromChatId : option string
}.

Definition optional (k : string) (v : option string) : list (string * value) :=
  match v with
  | Some s => [(k, VStr s)]
  | None => []
  end.

(** [{ id: generateId(), createdAt: new Date(), ...taskData }] *)
Definition createTask (id : string) (now : time) (td : taskData) (st : store)
  : value * store :=
  let newTask :=
    VObj (spread [("id", VStr id); ("createdAt", VDate (Some now))]
            ([("title", VStr (td_title td))]
             ++ optional "description" (td_description td)
             ++ [("completed", VBool (td_completed td))]
             ++ optional "fromChatId" (td_fromChatId td))) in
  let tasks := getTasks st in
  (newTask, setItem st TASKS (VArr (newTask :: tasks))).

Definition updateTask (updatedTask : list (string * value)) (st : store) : result store :=
  let tasks := getTasks st in
  match findIndex (fun task => strict_eq (field task "id") (assoc "id" updatedTask)) tasks with
  | None =>
      Throw (NotFound "Task"
               match assoc "id" updatedTask with Some (VStr s) => s | _ => "" end)
  | Some index => Ok (setItem st TASKS (VArr (<[index := VObj updatedTask]> tasks)))
  end.

Definition deleteTask (id : string) (st : store) : store :=
  let tasks := getTasks st in
  let filteredTasks :=
    List.filter (fun task => negb (strict_eq (field task "id") (Some (VStr id)))) tasks in
  setItem st TASKS (VArr filteredTasks).

Definition toggleTaskCompletion (id : string) (st : store) : result store :=
  match getTask st id with
  | None => Throw (NotFound "Task" id)
  | Some (VObj task) =>
      updateTask (put "completed" (VBool (negb (truthy (assoc "completed" task)))) task) st
  | Some _ => Throw TypeError
  end.

Definition clearAllTasks (st : store) : store := removeItem st TASKS.

(** ** The two record services, side by side

    ChatService and TaskService are written in parallel; [collection] names
    one of the two, so that a property of both is stated once. *)
Inductive collection : Type := Chats | Tasks.

Definition key (c : collection) : string :=
  match c with Chats => CHATS | Tasks => TASKS end.

Definition kind (c : collection) : string :=
  match c with Chats => "Chat" | Tasks => "Task" end.

Definition validator (c : collection) : value -> bool :=
  match c with Chats => validateChat | Tasks => validateTask end.

Definition records (c : collection) (st : store) : list value :=
  match c with Chats => getChats st | Tasks => getTasks st end.

Definition update_by_id (c : collection) (r : list (string * value)) (st : store) : result store :=
  match c with Chats => updateChat r st | Tasks => updateTask r st end.

Definition delete_by_id (c : collection) (id : string) (st : store) : store :=
  match c with Chats => deleteChat id st | Tasks => deleteTask id st end.

(** The identifiers of the records of a collection, as the code reads
    them. *)
Definition ids (l : list value) : list (option value) := map (fun x => field x "id") l.

(** ** One trip through the store

    Notions used to state and prove what a record looks like after it was
    written and read back. *)

(** [JSON.parse(JSON.stringify(v))] *)
Definition reparse (v : value) : value := of_json (toJSON v).

(** What [rehydrate_date] does to the property it is aimed at. *)
Definition revive (v : value) : value :=
  match v with
  | VStr s => if nonempty s then VDate (Date_parse s) else v
  | _ => v
  end.

Definition revive_message (msg : value) : value :=
  match msg with
  | VObj fs => VObj (alter_first revive "timestamp" fs)
  | _ => msg
  end.

Definition revive_messages (v : value) : value :=
  match v with
  | VArr messages => VArr (map revive_message messages)
  | _ => v
  end.

(** [rehydrate] when it does not throw... *)
Definition rehydrate_pure (item : value) : value :=
  match item with
  | VObj fs =>
      VObj (alter_first revive_messages "messages"
              (alter_first revive "createdAt"
                 (alter_first revive "lastMessageTime"
                    (alter_first revive "timestamp" fs))))
  | _ => item
  end.

(** ... and when it does: on [null], and on an object whose [messages]
    array holds a [null]. *)
Definition rehydrate_throws (item : value) : bool :=
  match item with
  | VNull => true
  | VObj fs =>
      match assoc "messages" fs with
      | Some (VArr messages) => existsb (fun msg => is_null (Some msg)) messages
      | _ => false
      end
  | _ => false
  end.

(** A value that prints as [null]: [null] itself, the Invalid Date, NaN
    and the infinities. *)
Definition prints_null (v : value) : bool :=
  match v with
  | VNull | VDate None => true
  | VNum x => nonfinite x
  | _ => false
  end.

(** The records [rehydrate] accepts once they went through the store. *)
Definition survives_reading (item : value) : bool :=
  negb (prints_null item) &&
  match item with
  | VObj fs =>
      match assoc "messages" fs with
      | Some (VArr messages) => forallb (fun msg => negb (prints_null msg)) messages
      | _ => true
      end
  | _ => true
  end.

(** A record written to the store and read back, when reading succeeds. *)
Definition reread (item : value) : value := rehydrate_pure (reparse item).

(** A value as the sanitizer hands it out: a parsed document, rehydrated. *)
Definition from_store (item : value) : Prop :=
  exists j : json, rehydrate (of_json j) = Ok item.

(** A property name the sanitizer does not look at. *)
Definition plain_key (k : string) : Prop :=
  k <> "timestamp" /\ k <> "lastMessageTime" /\ k <> "createdAt" /\ k <> "messages".

(** What the sanitizer does to the property [k] of a record. *)
Definition revive_at (k : string) (v : value) : value :=
  if String.eqb k "messages" then revive_messages v
  else if String.eqb k "timestamp" || String.eqb k "lastMessageTime"
          || String.eqb k "createdAt"
  then revive v
  else v.

(** ** Notions used to state the properties *)

(** A property that holds a date other than the Invalid Date. *)
Definition valid_date (v : option value) : bool :=
  match v with
  | Some (VDate (Some _)) => true
  | _ => false
  end.

Definition chat_dates_ok (chat : value) : bool :=
  valid_date (field chat "lastMessageTime") &&
  match field chat "messages" with
  | Some (VArr messages) => forallb (fun msg => valid_date (field msg "timestamp")) messages
  | _ => true
  end.

Definition task_dates_ok (task : value) : bool := valid_date (field task "createdAt").

(** A property that holds the Invalid Date. *)
Definition invalid_date (v : option value) : bool :=
  match v with
  | Some (VDate None) => true
  | _ => false
  end.

(** None of the dates that the sanitizer revives in a record is the
    Invalid Date. *)
Definition dates_valid (item : value) : bool :=
  match item with
  | VObj fs =>
      negb (invalid_date (assoc "timestamp" fs)) &&
      negb (invalid_date (assoc "lastMessageTime" fs)) &&
      negb (invalid_date (assoc "createdAt" fs)) &&
      match assoc "messages" fs with
      | Some (VArr messages) =>
          forallb (fun msg => negb (invalid_date (field msg "timestamp"))) messages
      | _ => true
      end
  | _ => true
  end.

(** No record of the collection carries an Invalid Date: every date string
    persisted with it is one the [Date] constructor reads. *)
Definition healthy (c : collection) (st : store) : Prop :=
  Forall (fun x => dates_valid x = true) (records c st).

Definition messages_dates_ok (messages : list value) : bool :=
  forallb (fun msg => valid_date (field msg "timestamp")) messages.

Definition message_count (chat : value) : nat :=
  match field chat "messages" with
  | Some (VArr messages) => length messages
  | _ => 0
  end.

(** A run of [addMessage] calls on one conversation, each with the
    identifier generated for its message; it stops at the first call that
    throws. *)
Fixpoint addMessages (chatId : string) (calls : list (string * messageData)) (st : store)
  : result store :=
  match calls with
  | [] => Ok st
  | (id, md) :: calls =>
      r ← addMessage id chatId md st;
      addMessages chatId calls r.2
  end.

(** The documents persisted under a collection key. *)
Definition stored_records (st : store) (k : string) : list json :=
  match st !! k with
  | Some (Text (JArr l)) => l
  | _ => []
  end.

Definition has_id (id : string) (j : json) : bool :=
  match j with
  | JObj fs =>
      match assoc "id" fs with
      | Some (JStr s) => String.eqb s id
      | _ => false
      end
  | _ => false
  end.

(** The conversation persisted with the identifier [id]: the first one,
    as every lookup of the service takes the first. *)
Definition stored_chat (st : store) (id : string) : option json :=
  List.find (has_id id) (stored_records st CHATS).

(** [getTaskStats]; the counts are integers, the rate is a binary64
    number computed with the operations of the source. *)
Record taskStats : Type := {
  total : Z;
  completed : Z;
  pending : Z;
  completionRate : float
}.

(** The number with the integer value [n] (exact below 2^53). *)
Definition Number (n : Z) : float :=
  if (n <? 0)%Z then PrimFloat.opp (PrimFloat.of_uint63 (Uint63.of_Z (- n)))
  else PrimFloat.of_uint63 (Uint63.of_Z n).

(** [Math.round]: the nearest integer, a tie going towards +infinity. The
    number is [sm * 2^e]; with a non-negative exponent it is an integer
    already, and otherwise the result is the floor of [sm * 2^e + 1/2],
    that is [(2 * sm + 2^-e)] shifted right by [1 - e] bits. *)
Definition Math_round (x : float) : float :=
  match Prim2SF x with
  | S754_finite s m e =>
      if (0 <=? e)%Z then x
      else
        let sm := if s then (- Z.pos m)%Z else Z.pos m in
        let n := Z.shiftr (2 * sm + Z.shiftl 1 (- e)) (1 - e) in
        if (n =? 0)%Z && s then PrimFloat.opp (Number 0) else Number n
  | _ => x
  end.

Definition getTaskStats (st : store) : taskStats :=
  let tasks := getTasks st in
  let total := Z.of_nat (length tasks) in
  let completed :=
    Z.of_nat (length (List.filter (fun task => truthy (field task "completed")) tasks)) in
  let pending := (total - completed)%Z in
  let completionRate :=
    if (0 <? total)%Z then (Number completed / Number total * 100)%float else 0%float in
  {| total := total;
     completed := completed;
     pending := pending;
     completionRate := (Math_round (completionRate * 100) / 100)%float |}.



(** The rate as [getTaskStats] computes it from the two counts. *)
Definition computed_rate (completed total : Z) : float :=
  (Math_round ((if (0 <? total)%Z then Number completed / Number total * 100 else 0) * 100)
   / 100)%float.


(** ** services/ProfileService *)

(** The name of the property that holds the element [i] of an array or the
    unit [i] of a string. *)
Definition index_name (i : nat) : string := NilZero.string_of_uint (Nat.to_uint i).

Definition indexed {A : Type} (l : list A) : list (string * A) :=
  imap (fun i x => (index_name i, x)) l.

(** The units of a string, each a string of its own. *)
Definition units (s : string) : list value :=
  map (fun c => VStr (String c EmptyString)) (list_ascii_of_string s).

(** The properties a spread copies: those of an object, the elements of
    an array and the units of a string under their indices; [null],
    [undefined], a date and the other primitives contribute none. (The
    language enumerates properties named by an index before the others;
    the lists keep them where they were put, and nothing below depends on
    the position of a property.) *)
Definition own_props (v : option value) : list (string * value) :=
  match v with
  | Some (VObj fs) => fs
  | Some (VArr items) => indexed items
  | Some (VStr s) => indexed (units s)
  | _ => []
  end.

(** *** The arguments of the profile operations

    Among the values of the collections a property that holds [undefined]
    is as good as missing. An object that a caller passes to
    [updateProfile] or [updatePreferences] is different: the spread copies
    a property that holds [undefined], and the copy hides the property it
    is assigned over. So the argument of these two operations is
    [undefined], a value, or an object whose properties hold arguments. *)
Inductive argument : Type :=
| Undefined
| Value (v : value)
| Object (props : list (string * argument)).

(** What a property read yields, as an argument. *)
Definition of_property (v : option value) : argument :=
  match v with
  | Some v => Value v
  | None => Undefined
  end.

(** The properties of an object once no spread looks at it any more, when
    its properties are read, tested with [typeof] and printed by
    [JSON.stringify]: one that holds [undefined] is dropped. *)
Fixpoint settled (a : argument) : option value :=
  match a with
  | Undefined => None
  | Value v => Some v
  | Object props =>
      Some (VObj (flat_map (fun kv =>
                              match settled kv.2 with
                              | Some v => [(kv.1, v)]
                              | None => []
                              end)
                           props))
  end.

Definition object (props : list (string * argument)) : value :=
  match settled (Object props) with
  | Some v => v
  | None => VObj []
  end.

(** [{...a}]: the properties a spread copies out of an argument. *)
Definition spread_props (a : argument) : list (string * argument) :=
  match a with
  | Undefined => []
  | Value v => map (fun kv => (kv.1, Value kv.2)) (own_props (Some v))
  | Object props => props
  end.

(** [a.k]: reading a property of [undefined] or [null] throws. *)
Definition argument_prop (a : argument) (k : string) : result argument :=
  match a with
  | Undefined => Throw TypeError
  | Value v => of_property <$> prop v k
  | Object props =>
      Ok match assoc k props with
         | Some x => x
         | None => Undefined
         end
  end.

Definition argument_truthy (a : argument) : bool :=
  match a with
  | Undefined => false
  | Value v => truthy (Some v)
  | Object _ => true
  end.

(** [x || {}] *)
Definition or_empty (a : argument) : argument :=
  if argument_truthy a then a else Object [].

(** The body of [updateProfile], given what its call of [this.getProfile()]
    does. An outcome is [None] when the call does not return. The read of
    [profileUpdates.preferences] throws on [null] and [undefined]; the
    catch clause throws again what it caught. *)
Definition updateProfile_body
    (getProfile : store -> option (value * store))
    (profileUpdates : argument) (st : store) : option (result unit * store) :=
  match getProfile st with
  | None => None
  | Some (currentProfile, st) =>
      match argument_prop profileUpdates "preferences" with
      | Throw e => Some (Throw e, st)
      | Ok preferences =>
          let updatedProfile :=
            object
              (put "preferences"
                 (Object
                    (spread (spread_props (of_property (field currentProfile "preferences")))
                            (spread_props (or_empty preferences))))
                 (spread (spread_props (Value currentProfile)) (spread_props profileUpdates))) in
          if negb (validateUserProfile updatedProfile) then Some (Throw InvalidProfile, st)
          else Some (Ok (), setItem st USER_PROFILE updatedProfile)
      end
  end.

(** [getProfile]. Its catch clause turns an exception of [updateProfile]
    into the default profile. *)
Fixpoint getProfile (fuel : nat) (st : store) : option (value * store) :=
  match fuel with
  | O => None
  | S fuel =>
      let profileData := getItem st USER_PROFILE in
      if negb (truthy (Some profileData)) || negb (validateUserProfile profileData) then
        let defaultProfile := createDefaultUserProfile in
        match updateProfile_body (getProfile fuel) (Value defaultProfile) st with
        | None => None
        | Some (Ok _, st) => Some (defaultProfile, st)
        | Some (Throw _, st) => Some (createDefaultUserProfile, st)
        end
      else Some (profileData, st)
  end.

Definition updateProfile (fuel : nat) (profileUpdates : argument) (st : store)
  : option (result unit * store) :=
  updateProfile_body (getProfile fuel) profileUpdates st.

(** [Promise.all] of four removals. *)
Definition clearData (st : store) : store :=
  removeItem (removeItem (clearAllTasks (clearAllChats st)) USER_PROFILE) APP_SETTINGS.

(** [exportData]; [now] is the reading of the clock. *)
Definition exportData (fuel : nat) (now : time) (st : store) : option (text * store) :=
  let chats := getChats st in
  let tasks := getTasks st in
  match getProfile fuel st with
  | None => None
  | Some (profile, st) =>
      let exportData :=
        VObj [("exportDate", VStr (toISOString now));
              ("version", VStr "1.0.0");
              ("data", VObj [("chats", VArr chats);
                             ("tasks", VArr tasks);
                             ("profile", profile)])] in
      Some (JSON_stringify exportData, st)
  end.

Definition importData (jsonData : text) (st : store) : result store :=
  importData ← of_json <$> JSON_parse jsonData;
  data ← prop importData "data";
  if negb (truthy data) then Throw InvalidFormat
  else
    let chats := data ≫= (fun d => field d "chats") in
    let tasks := data ≫= (fun d => field d "tasks") in
    let profile := data ≫= (fun d => field d "profile") in
    let st :=
      match chats with
      | Some (VArr l) => setItem st CHATS (VArr l)
      | _ => st
      end in
    let st :=
      match tasks with
      | Some (VArr l) => setItem st TASKS (VArr l)
      | _ => st
      end in
    let st :=
      match profile with
      | Some p => if truthy profile && validateUserProfile p then setItem st USER_PROFILE p else st
      | None => st
      end in
    Ok st.

(** ** The rest of the three services *)

(** [getMessages chatId limit offset]; an argument left out is [None]. The
    conversation comes from [getChat], so its [messages] is an array; the
    last branch stands for the catch clause, which returns the empty
    list. *)
Definition getMessages (st : store) (chatId : string) (limit offset : option float)
  : list value :=
  match getChat st chatId with
  | None => []
  | Some chat =>
      match field chat "messages" with
      | Some (VArr messages) =>
          let messages :=
            match offset with
            | Some o => slice messages o None
            | None => messages
            end in
          match limit with
          | Some n => slice messages 0%float (Some n)
          | None => messages
          end
      | _ => []
      end
  end.

(** [v.toLowerCase()]: only a string has the method. *)
Definition lowered (v : option value) : result string :=
  match v with
  | Some (VStr s) => Ok (toLowerCase s)
  | _ => Throw TypeError
  end.

(** The callback of the filter of [searchChats]. *)
Definition chat_matches (lowercaseQuery : string) (chat : value) : result bool :=
  title ← lowered (field chat "title");
  if includes title lowercaseQuery then Ok true
  else
    match field chat "messages" with
    | Some (VArr messages) =>
        someR (fun message =>
                 text ← lowered (field message "text");
                 Ok (includes text lowercaseQuery))
              messages
    | _ => Throw TypeError
    end.

Definition searchChats (query : string) (st : store) : list value :=
  let chats := getChats st in
  let lowercaseQuery := toLowerCase query in
  match filterR (chat_matches lowercaseQuery) chats with
  | Ok found => found
  | Throw _ => []
  end.

(** The callback of the filter of [searchTasks]. *)
Definition task_matches (lowercaseQuery : string) (task : value) : result bool :=
  title ← lowered (field task "title");
  if includes title lowercaseQuery then Ok true
  else if truthy (field task "description") then
    description ← lowered (field task "description");
    Ok (includes description lowercaseQuery)
  else Ok false.

Definition searchTasks (query : string) (st : store) : list value :=
  let tasks := getTasks st in
  let lowercaseQuery := toLowerCase query in
  match filterR (task_matches lowercaseQuery) tasks with
  | Ok found => found
  | Throw _ => []
  end.

(** What the two callbacks compute on a record that passed its validator,
    where no method call can fail. *)
Definition lowercase_of (v : option value) : string :=
  match v with
  | Some (VStr s) => toLowerCase s
  | _ => EmptyString
  end.

Definition chat_contains (lowercaseQuery : string) (chat : value) : bool :=
  includes (lowercase_of (field chat "title")) lowercaseQuery ||
  match field chat "messages" with
  | Some (VArr messages) =>
      existsb (fun message => includes (lowercase_of (field message "text")) lowercaseQuery)
        messages
  | _ => false
  end.

Definition task_contains (lowercaseQuery : string) (task : value) : bool :=
  includes (lowercase_of (field task "title")) lowercaseQuery ||
  (truthy (field task "description") &&
   includes (lowercase_of (field task "description")) lowercaseQuery).

Definition getTasksByStatus (completed : bool) (st : store) : list value :=
  List.filter (fun task => strict_eq (field task "completed") (Some (VBool completed)))
    (getTasks st).

Definition getTasksByChat (chatId : string) (st : store) : list value :=
  List.filter (fun task => strict_eq (field task "fromChatId") (Some (VStr chatId)))
    (getTasks st).

(** [updatePreferences]: it reads the profile, then hands the merged
    preferences to [updateProfile], which reads the profile again. *)
Definition updatePreferences (fuel : nat) (preferences : argument) (st : store)
  : option (result unit * store) :=
  match getProfile fuel st with
  | None => None
  | Some (currentProfile, st) =>
      updateProfile fuel
        (Object [("preferences",
                  Object (spread (spread_props (of_property (field currentProfile "preferences")))
                                 (spread_props preferences)))])
        st
  end.

Definition resetProfile (st : store) : store :=
  setItem st USER_PROFILE createDefaultUserProfile.

(** [Partial<UserProfile>] and [Partial<UserProfile['preferences']>], as
    their types give them, and the objects they stand for. The theme is
    kept as a string: the type admits three, a caller can pass any. *)
Record preferencesData : Type := {
  pd_theme : string;
  pd_notifications : bool;
  pd_aiModel : string
}.

Record profileUpdates : Type := {
  pu_name : optional_property string;
  pu_avatar : optional_property string;
  pu_preferences : optional_property preferencesData
}.

Record preferencesUpdates : Type := {
  pp_theme : optional_property string;
  pp_notifications : optional_property bool;
  pp_aiModel : optional_property string
}.

Definition preferences_object (p : preferencesData) : value :=
  VObj [("theme", VStr (pd_theme p));
        ("notifications", VBool (pd_notifications p));
        ("aiModel", VStr (pd_aiModel p))].

(** The property [k] of an object literal, if it has one. *)
Definition entry {A : Type} (k : string) (f : A -> value) (p : optional_property A)
  : list (string * argument) :=
  match p with
  | Absent => []
  | Undef => [(k, Undefined)]
  | Present a => [(k, Value (f a))]
  end.

Definition profileUpdates_object (u : profileUpdates) : argument :=
  Object (entry "name" VStr (pu_name u)
          ++ entry "avatar" VStr (pu_avatar u)
          ++ entry "preferences" preferences_object (pu_preferences u)).

Definition preferencesUpdates_object (u : preferencesUpdates) : argument :=
  Object (entry "theme" VStr (pp_theme u)
          ++ entry "notifications" VBool (pp_notifications u)
          ++ entry "aiModel" VStr (pp_aiModel u)).

(** The value of a property after an object with the optional property
    [p] was spread over an object in which it held [old]. *)
Definition assigned {A : Type} (f : A -> value) (p : optional_property A)
    (old : option value) : option value :=
  match p with
  | Absent => old
  | Undef => None
  | Present a => Some (f a)
  end.

(** [a ?? b] on an optional property: the update's value when it has one. *)
Definition or_else {A : Type} (a b : option A) : option A :=
  match a with
  | Some _ => a
  | None => b
  end.

Definition theme_name (s : string) : bool :=
  String.eqb s "light" || String.eqb s "dark" || String.eqb s "auto".

(** [profile.preferences.k] *)
Definition preference (profile : value) (k : string) : option value :=
  field profile "preferences" ≫= fun preferences => field preferences k.

(** The preference [k] that an update of the profile carries, if any:
    preferences that are left out or [undefined] carry none. *)
Definition given_preference (u : profileUpdates) (k : string) : option value :=
  match pu_preferences u with
  | Present p => field (preferences_object p) k
  | _ => None
  end.

Definition given_theme (u : profileUpdates) : option string :=
  match pu_preferences u with
  | Present p => Some (pd_theme p)
  | _ => None
  end.

(** The theme an update carries, if any, is one of the three. *)
Definition theme_ok (theme : option string) : bool :=
  match theme with
  | Some t => theme_name t
  | None => true
  end.

(** An update of the preferences that leaves a valid profile: its theme,
    if it has one, is one of the three, and none of the three preferences
    is given as [undefined]. *)
Definition preferences_ok (u : preferencesUpdates) : bool :=
  match pp_theme u with
  | Absent => true
  | Undef => false
  | Present t => theme_name t
  end &&
  match pp_notifications u with Undef => false | _ => true end &&
  match pp_aiModel u with Undef => false | _ => true end.

(** [null] and [undefined], of which no property can be read. *)
Definition nullish (a : argument) : bool :=
  match a with
  | Undefined | Value VNull => true
  | _ => false
  end.

(** The store holds a profile that passes [validateUserProfile]. *)
Definition profile_stored (st : store) : bool :=
  validateUserProfile (getItem st USER_PROFILE).

(** ** Five properties as the specification words them *)

(** A successful update keeps the length of the collection and every
    element but the one it replaces. *)
Definition update_is_local (c : collection) (r : list (string * value)) (st : store) : Prop :=
  forall i st',
    findIndex (fun x => strict_eq (field x "id") (assoc "id" r)) (records c st) = Some i ->
    update_by_id c r st = Ok st' ->
    length (records c st') = length (records c st) /\
    forall j, j <> i -> records c st' !! j = records c st !! j.

(** Deleting an identifier that no record carries leaves the collection
    as it was. *)
Definition delete_absent_is_noop (c : collection) (id : string) (st : store) : Prop :=
  Some (VStr id) ∉ ids (records c st) ->
  records c (delete_by_id c id st) = records c st.

(** Two consecutive successful toggles on the identifier of a task that is
    present restore its [completed] flag. *)
Definition toggle_is_involution (st : store) (id : string) : Prop :=
  forall task st1 st2,
    getTask st id = Some task ->
    toggleTaskCompletion id st = Ok st1 ->
    toggleTaskCompletion id st1 = Ok st2 ->
    exists task2,
      getTask st2 id = Some task2 /\ field task2 "completed" = field task "completed".

(** [exportData], then [clearData], then [importData] of the exported text
    restore the number of conversations, of tasks, and of messages of each
    conversation. *)
Definition roundtrip_restores_counts (now : time) (st : store) : Prop :=
  exists fuel exported st1 st',
    exportData fuel now st = Some (exported, st1) /\
    importData exported (clearData st1) = Ok st' /\
    length (getChats st') = length (getChats st) /\
    length (getTasks st') = length (getTasks st) /\
    map message_count (getChats st') = map message_count (getChats st).


End Model.

(** * contexts/ChatContext and contexts/TaskContext

    The two providers keep a copy of a collection in a reducer state and
    change it next to every call of the service. A dispatch applies the
    reducer to the state; an action of a provider is modelled on the pair
    of the store and the state. The reducers return a [result]: on a state
    of the declared type nothing throws, but a [null] element or a
    [messages] that is not iterable would. Identifiers are compared with
    [===] as strings are. *)

(** [const { [k]: _, ...rest } = o], the properties but [k]. *)
Definition unset {A : Type} (k : string) (fs : list (string * A)) : list (string * A) :=
  List.filter (fun kv => negb (String.eqb k kv.1)) fs.

(** [o.k = v] for a value that may be [undefined]. *)
Definition put_optional {A : Type} (k : string) (v : option A) (fs : list (string * A))
  : list (string * A) :=
  match v with
  | Some v => put k v fs
  | None => unset k fs
  end.

Module ChatContext.
Section Defs.
Context `{JSDate}.

(** [currentChat] is a conversation or [null]; [error] a string or
    [null]. *)
Record ChatState : Type := {
  chats : list value;
  currentChat : value;
  loading : bool;
  error : option string
}.

Inductive ChatAction : Type :=
| SET_LOADING (payload : bool)
| SET_ERROR (payload : option string)
| SET_CHATS (payload : list value)
| SET_CURRENT_CHAT (payload : value)
| ADD_CHAT (payload : value)
| UPDATE_CHAT (payload : value)
| DELETE_CHAT (payload : string)
| ADD_MESSAGE (chatId : string) (message : value).

Definition initialState : ChatState :=
  {| chats := []; currentChat := VNull; loading := false; error := None |}.

(** [v?.id] *)
Definition optional_id (v : value) : option value :=
  match v with
  | VNull => None
  | _ => field v "id"
  end.

(** [[...v]]: the elements of an array, the units of a string; nothing
    else among the values is iterable. *)
Definition iterate (v : option value) : result (list value) :=
  match v with
  | Some (VArr items) => Ok items
  | Some (VStr s) => Ok (map (fun c => VStr (String c EmptyString)) (list_ascii_of_string s))
  | _ => Throw TypeError
  end.

(** [{ ...chat, messages: [...chat.messages, message],
       lastMessage: message.text, lastMessageTime: message.timestamp }] *)
Definition with_message (chat message : value) : result value :=
  messages ← iterate (field chat "messages");
  text ← prop message "text";
  timestamp ← prop message "timestamp";
  Ok (VObj (put_optional "lastMessageTime" timestamp
              (put_optional "lastMessage" text
                 (put "messages" (VArr (messages ++ [message])) (own_props (Some chat)))))).

Definition chatReducer (state : ChatState) (action : ChatAction) : result ChatState :=
  match action with
  | SET_LOADING payload =>
      Ok {| chats := chats state; currentChat := currentChat state;
            loading := payload; error := error state |}
  | SET_ERROR payload =>
      Ok {| chats := chats state; currentChat := currentChat state;
            loading := false; error := payload |}
  | SET_CHATS payload =>
      Ok {| chats := payload; currentChat := currentChat state;
            loading := false; error := error state |}
  | SET_CURRENT_CHAT payload =>
      Ok {| chats := chats state; currentChat := payload;
            loading := loading state; error := error state |}
  | ADD_CHAT payload =>
      Ok {| chats := payload :: chats state; currentChat := payload;
            loading := loading state; error := error state |}
  | UPDATE_CHAT payload =>
      chats' ← mapR (fun chat =>
                       id ← prop chat "id";
                       id' ← prop payload "id";
                       Ok (if strict_eq id id' then payload else chat))
                    (chats state);
      id' ← prop payload "id";
      Ok {| chats := chats';
            currentChat :=
              if strict_eq (optional_id (currentChat state)) id' then payload
              else currentChat state;
            loading := loading state; error := error state |}
  | DELETE_CHAT payload =>
      chats' ← filterR (fun chat =>
                          id ← prop chat "id";
                          Ok (negb (strict_eq id (Some (VStr payload)))))
                       (chats state);
      Ok {| chats := chats';
            currentChat :=
              if strict_eq (optional_id (currentChat state)) (Some (VStr payload)) then VNull
              else currentChat state;
            loading := loading state; error := error state |}
  | ADD_MESSAGE chatId message =>
      chats' ← mapR (fun chat =>
                       id ← prop chat "id";
                       if strict_eq id (Some (VStr chatId)) then with_message chat message
                       else Ok chat)
                    (chats state);
      currentChat' ←
        (if strict_eq (optional_id (currentChat state)) (Some (VStr chatId))
         then with_message (currentChat state) message
         else Ok (currentChat state));
      Ok {| chats := chats'; currentChat := currentChat';
            loading := loading state; error := error state |}
  end.

(** The actions of the provider. The service calls of [loadChats],
    [createChat] and [deleteChat] cannot throw here, so their catch
    clauses are left out. *)
Definition loadChats (st : store) (state : ChatState) : result ChatState :=
  state ← chatReducer state (SET_LOADING true);
  chatReducer state (SET_CHATS (getChats st)).

Definition createChat (id : string) (now : time) (title : string)
    (st : store) (state : ChatState) : result (value * store * ChatState) :=
  state ← chatReducer state (SET_LOADING true);
  let created := createChat id now title st in
  state ← chatReducer state (ADD_CHAT created.1);
  Ok (created.1, created.2, state).

Definition selectChat (chatId : string) (st : store) (state : ChatState) : result ChatState :=
  chatReducer state
    (SET_CURRENT_CHAT match getChat st chatId with Some chat => chat | None => VNull end).

Definition updateChat (chat : list (string * value)) (st : store) (state : ChatState)
  : result (store * ChatState) :=
  match updateChat chat st with
  | Ok st' =>
      state ← chatReducer state (UPDATE_CHAT (VObj chat));
      Ok (st', state)
  | Throw _ =>
      state ← chatReducer state (SET_ERROR (Some "Failed to update chat"));
      Ok (st, state)
  end.

Definition deleteChat (chatId : string) (st : store) (state : ChatState)
  : result (store * ChatState) :=
  let st' := deleteChat chatId st in
  state ← chatReducer state (DELETE_CHAT chatId);
  Ok (st', state).

(** [addMessage] rethrows after it has recorded the failure: the outcome
    of the call comes with the store and the state it leaves. *)
Definition addMessage (id chatId : string) (md : messageData) (st : store) (state : ChatState)
  : result (store * ChatState * result value) :=
  match addMessage id chatId md st with
  | Ok (message, st') =>
      state ← chatReducer state (ADD_MESSAGE chatId message);
      Ok (st', state, Ok message)
  | Throw e =>
      state ← chatReducer state (SET_ERROR (Some "Failed to send message"));
      Ok (st, state, Throw e)
  end.

End Defs.
End ChatContext.

Module TaskContext.
Section Defs.
Context `{JSDate}.

(** ['all' | 'completed' | 'pending'] *)
Inductive task_filter : Type := All | Completed | Pending.

Record TaskState : Type := {
  tasks : list value;
  loading : bool;
  error : option string;
  filter : task_filter
}.

Inductive TaskAction : Type :=
| SET_LOADING (payload : bool)
| SET_ERROR (payload : option string)
| SET_TASKS (payload : list value)
| ADD_TASK (payload : value)
| UPDATE_TASK (payload : value)
| DELETE_TASK (payload : string)
| SET_FILTER (payload : task_filter).

Definition initialState : TaskState :=
  {| tasks := []; loading := false; error := None; filter := All |}.

Definition taskReducer (state : TaskState) (action : TaskAction) : result TaskState :=
  match action with
  | SET_LOADING payload =>
      Ok {| tasks := tasks state; loading := payload;
            error := error state; filter := filter state |}
  | SET_ERROR payload =>
      Ok {| tasks := tasks state; loading := false;
            error := payload; filter := filter state |}
  | SET_TASKS payload =>
      Ok {| tasks := payload; loading := false;
            error := error state; filter := filter state |}
  | ADD_TASK payload =>
      Ok {| tasks := payload :: tasks state; loading := loading state;
            error := error state; filter := filter state |}
  | UPDATE_TASK payload =>
      tasks' ← mapR (fun task =>
                       id ← prop task "id";
                       id' ← prop payload "id";
                       Ok (if strict_eq id id' then payload else task))
                    (tasks state);
      Ok {| tasks := tasks'; loading := loading state;
            error := error state; filter := filter state |}
  | DELETE_TASK payload =>
      tasks' ← filterR (fun task =>
                          id ← prop task "id";
                          Ok (negb (strict_eq id (Some (VStr payload)))))
                       (tasks state);
      Ok {| tasks := tasks'; loading := loading state;
            error := error state; filter := filter state |}
  | SET_FILTER payload =>
      Ok {| tasks := tasks state; loading := loading state;
            error := error state; filter := payload |}
  end.

(** The memoised [filteredTasks] of the provider. *)
Definition filteredTasks (state : TaskState) : result (list value) :=
  match filter state with
  | Completed =>
      filterR (fun task => completed ← prop task "completed"; Ok (truthy completed))
        (tasks state)
  | Pending =>
      filterR (fun task => completed ← prop task "completed"; Ok (negb (truthy completed)))
        (tasks state)
  | All => Ok (tasks state)
  end.

Definition loadTasks (st : store) (state : TaskState) : result TaskState :=
  state ← taskReducer state (SET_LOADING true);
  taskReducer state (SET_TASKS (getTasks st)).

Definition createTask (id : string) (now : time) (td : taskData)
    (st : store) (state : TaskState) : result (value * store * TaskState) :=
  state ← taskReducer state (SET_LOADING true);
  let created := createTask id now td st in
  state ← taskReducer state (ADD_TASK created.1);
  Ok (created.1, created.2, state).

Definition updateTask (task : list (string * value)) (st : store) (state : TaskState)
  : result (store * TaskState) :=
  match updateTask task st with
  | Ok st' =>
      state ← taskReducer state (UPDATE_TASK (VObj task));
      Ok (st', state)
  | Throw _ =>
      state ← taskReducer state (SET_ERROR (Some "Failed to update task"));
      Ok (st, state)
  end.

Definition deleteTask (taskId : string) (st : store) (state : TaskState)
  : result (store * TaskState) :=
  let st' := deleteTask taskId st in
  state ← taskReducer state (DELETE_TASK taskId);
  Ok (st', state).

Definition toggleTaskCompletion (taskId : string) (st : store) (state : TaskState)
  : result (store * TaskState) :=
  match toggleTaskCompletion taskId st with
  | Ok st' =>
      match getTask st' taskId with
      | Some updatedTask =>
          state ← taskReducer state (UPDATE_TASK updatedTask);
          Ok (st', state)
      | None => Ok (st', state)
      end
  | Throw _ =>
      state ← taskReducer state (SET_ERROR (Some "Failed to toggle task completion"));
      Ok (st, state)
  end.

End Defs.
End TaskContext.

(** What the providers are meant to maintain: the state holds the
    collection as the service reads it; no record carries an Invalid Date;
    no two records share an identifier; and the conversation selected, if
    any, passes the validator. *)
Definition chats_in_sync `{JSDate} (st : store) (state : ChatContext.ChatState) : Prop :=
  ChatContext.chats state = getChats st /\
  healthy Chats st /\
  NoDup (ids (getChats st)) /\
  (ChatContext.currentChat state = VNull
   \/ validateChat (ChatContext.currentChat state) = true).

Definition tasks_in_sync `{JSDate} (st : store) (state : TaskContext.TaskState) : Prop :=
  TaskContext.tasks state = getTasks st /\
  healthy Tasks st /\
  NoDup (ids (getTasks st)).

(** ** A date codec to compute with

    Times are integers printed in decimal. It satisfies the two laws of
    [JSDate], and anything that is not a decimal numeral is an Invalid
    Date. *)
Definition decimal_of_time (t : Z) : string := NilZero.string_of_int (Z.to_int t).
Definition time_of_decimal (s : string) : option Z := Z.of_int <$> NilZero.int_of_string s.

Lemma to_int_not_nil (t : Z) :
  Z.to_int t <> Decimal.Pos Decimal.Nil /\ Z.to_int t <> Decimal.Neg Decimal.Nil.
Proof.
  assert (Hn : Decimal.norm (Z.to_int t) = Z.to_int t).
  { rewrite <- (DecimalZ.to_of (Z.to_int t)). by rewrite DecimalZ.of_to. }
  split; intros E; rewrite E in Hn; discriminate Hn.
Qed.

Lemma time_of_decimal_of_time (t : Z) : time_of_decimal (decimal_of_time t) = Some t.
Proof.
  unfold time_of_decimal, decimal_of_time.
  destruct (to_int_not_nil t) as [Hp Hn].
  rewrite (NilZero.isi _ Hp Hn). simpl. by rewrite DecimalZ.of_to.
Qed.

Lemma decimal_of_time_nonempty (t : Z) : nonempty (decimal_of_time t) = true.
Proof.
  unfold decimal_of_time.
  destruct (to_int_not_nil t) as [Hp Hn].
  destruct (Z.to_int t) as [d|d]; simpl; [|done].
  destruct d; simpl; done.
Qed.

#[global] Instance decimal_dates : JSDate := {|
  time := Z;
  toISOString := decimal_of_time;
  Date_parse := time_of_decimal;
  Date_parse_toISOString := time_of_decimal_of_time;
  toISOString_nonempty := decimal_of_time_nonempty
|}.

(** * Properties *)

(** ** Property lists, arrays and results *)

Section PropsFacts.
Context {A : Type}.
Implicit Types (k : string) (v : A) (fs : list (string * A)).

Lemma assoc_put_eq k v fs : assoc k (put k v fs) = Some v.
Proof.
  induction fs as [|[k' v'] fs IH]; simpl.
  - by rewrite String.eqb_refl.
  - destruct (String.eqb k k') eqn:E; simpl; rewrite ?E, ?String.eqb_refl; done.
Qed.

Lemma assoc_put_ne k k' v fs : k <> k' -> assoc k' (put k v fs) = assoc k' fs.
Proof.
  intros Hne. induction fs as [|[k0 v0] fs IH]; simpl.
  - destruct (String.eqb_spec k' k); congruence.
  - destruct (String.eqb_spec k k0) as [->|]; simpl.
    + destruct (String.eqb_spec k' k0); congruence.
    + by rewrite IH.
Qed.

Lemma assoc_map {B : Type} (f : A -> B) k fs :
  assoc k (map (fun kv => (kv.1, f kv.2)) fs) = f <$> assoc k fs.
Proof.
  induction fs as [|[k' v'] fs IH]; simpl; [done|].
  by destruct (String.eqb k k').
Qed.

Lemma assoc_alter_eq (f : A -> A) k fs : assoc k (alter_first f k fs) = f <$> assoc k fs.
Proof.
  induction fs as [|[k' v'] fs IH]; simpl; [done|].
  destruct (String.eqb k k') eqn:E; simpl; by rewrite E.
Qed.

Lemma assoc_alter_ne (f : A -> A) k k' fs :
  k <> k' -> assoc k' (alter_first f k fs) = assoc k' fs.
Proof.
  intros Hne. induction fs as [|[k0 v0] fs IH]; simpl; [done|].
  destruct (String.eqb_spec k k0) as [->|]; simpl.
  - destruct (String.eqb_spec k' k0); congruence.
  - by rewrite IH.
Qed.

(** An assignment to a property that exists rewrites its first binding. *)
Lemma put_alter_first (f : A -> A) k v fs :
  assoc k fs = Some v -> put k (f v) fs = alter_first f k fs.
Proof.
  induction fs as [|[k' v'] fs IH]; simpl; [done|].
  destruct (String.eqb_spec k k') as [->|].
  - by intros [= ->].
  - intros Hk. by rewrite IH.
Qed.

Lemma alter_first_id (f : A -> A) k fs :
  (forall v, assoc k fs = Some v -> f v = v) -> alter_first f k fs = fs.
Proof.
  induction fs as [|[k' v'] fs IH]; simpl; [done|].
  destruct (String.eqb_spec k k') as [->|]; intros Hf.
  - by rewrite Hf.
  - by rewrite IH.
Qed.

Lemma alter_first_alter_first (f g : A -> A) k fs :
  alter_first f k (alter_first g k fs) = alter_first (fun v => f (g v)) k fs.
Proof.
  induction fs as [|[k' v'] fs IH]; simpl; [done|].
  destruct (String.eqb k k') eqn:E; simpl; rewrite E; [done|]. by rewrite IH.
Qed.

Lemma alter_first_comm (f g : A -> A) k k' fs :
  k <> k' ->
  alter_first f k (alter_first g k' fs) = alter_first g k' (alter_first f k fs).
Proof.
  intros Hne. induction fs as [|[k0 v0] fs IH]; simpl; [done|].
  destruct (String.eqb_spec k k0) as [->|]; destruct (String.eqb_spec k' k0) as [->|];
    simpl; rewrite ?String.eqb_refl; try congruence.
  - destruct (String.eqb_spec k' k0); [congruence|]. done.
  - destruct (String.eqb_spec k k0); [congruence|]. done.
  - destruct (String.eqb_spec k k0); [congruence|].
    destruct (String.eqb_spec k' k0); [congruence|].
    by rewrite IH.
Qed.

Lemma alter_first_ext (f g : A -> A) k fs :
  (forall v, assoc k fs = Some v -> f v = g v) -> alter_first f k fs = alter_first g k fs.
Proof.
  induction fs as [|[k' v'] fs IH]; simpl; [done|].
  destruct (String.eqb_spec k k') as [->|]; intros Hf.
  - by rewrite Hf.
  - by rewrite IH.
Qed.

(** Rewriting a property by [f] commutes with a view [h] of the values that
    [f] respects. *)
Lemma alter_first_respects {B : Type} (h : A -> B) (f : A -> A) k fs gs :
  (forall v w, h v = h w -> h (f v) = h (f w)) ->
  map (fun kv => (kv.1, h kv.2)) fs = map (fun kv => (kv.1, h kv.2)) gs ->
  map (fun kv => (kv.1, h kv.2)) (alter_first f k fs)
  = map (fun kv => (kv.1, h kv.2)) (alter_first f k gs).
Proof.
  intros Hf. revert gs.
  induction fs as [|[k1 v1] fs IH]; intros [|[k2 v2] gs]; simpl; try done.
  intros [= -> Hv Hrest].
  destruct (String.eqb k k2); simpl.
  - by rewrite (Hf _ _ Hv), Hrest.
  - by rewrite Hv, (IH gs Hrest).
Qed.

End PropsFacts.

(** A traversal whose callback cannot throw on the elements is a [map]. *)
Lemma mapR_pure {A B : Type} (f : A -> result B) (g : A -> B) (l : list A) :
  Forall (fun x => f x = Ok (g x)) l -> mapR f l = Ok (map g l).
Proof.
  induction 1 as [|x l Hx _ IH]; simpl; [done|].
  by rewrite Hx, IH.
Qed.

Lemma mapR_Ok_Forall2 {A B : Type} (f : A -> result B) (l : list A) (l' : list B) :
  mapR f l = Ok l' <-> Forall2 (fun x y => f x = Ok y) l l'.
Proof.
  revert l'. induction l as [|x l IH]; simpl; intros l'.
  - split; [intros [= <-]; constructor | by inversion 1].
  - split.
    + destruct (f x) as [y|] eqn:Hy; simpl; [|done].
      destruct (mapR f l) as [ys|] eqn:Hys; simpl; [|done].
      intros [= <-]. constructor; [done|]. by apply IH.
    + inversion 1 as [|? y ? ys Hy Hys]; subst.
      apply IH in Hys. by rewrite Hy, Hys.
Qed.

Lemma findIndex_Some {A : Type} (p : A -> bool) (l : list A) (i : nat) :
  findIndex p l = Some i ->
  exists x, l !! i = Some x /\ p x = true /\
            forall j y, j < i -> l !! j = Some y -> p y = false.
Proof.
  revert i. induction l as [|x l IH]; simpl; intros i; [done|].
  destruct (p x) eqn:Hp.
  - intros [= <-]. exists x. split_and!; [done..|]. intros j y Hj. lia.
  - destruct (findIndex p l) as [i'|]; simpl; [|done].
    intros [= <-]. destruct (IH i' eq_refl) as (y & Hy & Hpy & Hlt).
    exists y. split_and!; [done..|].
    intros [|j] z Hj; simpl; [by intros [= <-]|].
    intros Hz. apply (Hlt j z); [lia|done].
Qed.

Lemma findIndex_None {A : Type} (p : A -> bool) (l : list A) :
  findIndex p l = None <-> Forall (fun x => p x = false) l.
Proof.
  induction l as [|x l IH]; simpl.
  - split; [constructor|done].
  - destruct (p x) eqn:Hp.
    + split; [done|]. inversion 1; congruence.
    + destruct (findIndex p l) as [i|]; simpl.
      * split; [done|]. inversion 1 as [|? ? _ Hl]; subst. apply IH in Hl. done.
      * split; [|done]. intros _. constructor; [done|]. by apply IH.
Qed.

(** [find] returns the element at the index [findIndex] returns. *)
Lemma find_findIndex {A : Type} (p : A -> bool) (l : list A) :
  List.find p l = (findIndex p l) ≫= (fun i => l !! i).
Proof.
  induction l as [|x l IH]; simpl; [done|].
  destruct (p x); simpl; [done|].
  rewrite IH. by destruct (findIndex p l).
Qed.

Lemma filter_all {A : Type} (p : A -> bool) (l : list A) :
  Forall (fun x => p x = true) l -> List.filter p l = l.
Proof.
  induction 1 as [|x l Hx _ IH]; simpl; [done|]. by rewrite Hx, IH.
Qed.

Lemma Forall_forallb {A : Type} (p : A -> bool) (l : list A) :
  forallb p l = true -> Forall (fun x => p x = true) l.
Proof. rewrite forallb_forall, Forall_forall. intros Hl x Hx. by apply Hl, list_elem_of_In. Qed.

Lemma Forall_filter_true {A : Type} (p : A -> bool) (l : list A) :
  Forall (fun x => p x = true) (List.filter p l).
Proof.
  induction l as [|x l IH]; simpl; [constructor|].
  destruct (p x) eqn:Hp; [by constructor|done].
Qed.

Section Facts.
Context `{JSDate}.

Implicit Types (st : store) (v : value).

(** ** JSON documents and values *)

Lemma json_nested_ind (P : json -> Prop) :
  P JNull -> (forall b, P (JBool b)) -> (forall x, P (JNum x)) -> (forall s, P (JStr s)) ->
  (forall l, Forall P l -> P (JArr l)) ->
  (forall fs, Forall (fun kv => P kv.2) fs -> P (JObj fs)) ->
  forall j, P j.
Proof.
  intros Hnull Hbool Hnum Hstr Harr Hobj.
  fix IH 1. intros [| b | x | s | l | fs].
  - exact Hnull.
  - exact (Hbool b).
  - exact (Hnum x).
  - exact (Hstr s).
  - apply Harr. induction l as [|j l IHl]; constructor; [apply IH | apply IHl].
  - apply Hobj. induction fs as [|[k j] fs IHfs]; constructor; [apply IH | apply IHfs].
Qed.

(** A number of a document is determined by its value. *)
Lemma number_eq (a b : number) : number_value a = number_value b -> a = b.
Proof.
  destruct a as [x Hx], b as [y Hy]. simpl. intros ->. f_equal.
  apply Eqdep_dec.UIP_dec, Bool.bool_dec.
Qed.

Lemma number_finite (n : number) : nonfinite (number_value n) = false.
Proof.
  pose proof (number_printed n) as Hn. unfold prints_as_itself, nonfinite in *.
  by destruct (Prim2SF (number_value n)).
Qed.

Lemma JSON_number_value (n : number) : JSON_number (number_value n) = JNum n.
Proof.
  pose proof (number_printed n) as Hn.
  assert (E : match Prim2SF (number_value n) with
              | S754_zero _ => 0%float
              | _ => number_value n
              end = number_value n).
  { unfold prints_as_itself in Hn.
    destruct (Prim2SF (number_value n)) as [[]| | |] eqn:E; try done.
    rewrite <- (SF2Prim_Prim2SF (number_value n)), E. reflexivity. }
  unfold JSON_number. cbv zeta. rewrite E.
  destruct (Sumbool.sumbool_of_bool _) as [Hf|Hf]; [|congruence].
  f_equal. by apply number_eq.
Qed.

Lemma JSON_number_cases (x : float) :
  (nonfinite x = false /\ exists n, JSON_number x = JNum n)
  \/ (nonfinite x = true /\ JSON_number x = JNull).
Proof.
  unfold JSON_number, nonfinite. cbv zeta.
  destruct (Sumbool.sumbool_of_bool _) as [Hf|Hf].
  - left. split; [|by eexists].
    unfold prints_as_itself in Hf. destruct (Prim2SF x) eqn:E; try done.
    all: by rewrite E in Hf.
  - right. split; [|done].
    unfold prints_as_itself in Hf. destruct (Prim2SF x) eqn:E; try done.
    all: by rewrite ?E in Hf.
Qed.

(** The two cases of a number that is printed. *)
Ltac number_cases x :=
  let Hf := fresh "Hfinite" in
  let n := fresh "n" in
  let E := fresh "Hprint" in
  destruct (JSON_number_cases x) as [(Hf & n & E)|(Hf & E)];
  rewrite ?E in *; clear E.

Ltac numbers :=
  repeat match goal with
         | H : context [JSON_number ?x] |- _ => number_cases x
         | |- context [JSON_number ?x] => number_cases x
         end.

(** Printing the value that a document parses to gives the document back. *)
Lemma toJSON_of_json (j : json) : toJSON (of_json j) = j.
Proof.
  induction j as [| | x | | l IH | fs IH] using json_nested_ind; simpl; try done.
  - apply JSON_number_value.
  - f_equal. induction IH as [|j l Hj _ IHl]; simpl; [done|]. by rewrite Hj, IHl.
  - f_equal. induction IH as [|[k j] fs Hj _ IHfs]; simpl; [done|].
    simpl in Hj. by rewrite Hj, IHfs.
Qed.

Lemma strict_eq_string (a : option value) (s : string) :
  strict_eq a (Some (VStr s)) = true <-> a = Some (VStr s).
Proof.
  destruct a as [[]|]; simpl; split; try done.
  - by intros ->%String.eqb_eq.
  - intros [= ->]. apply String.eqb_refl.
Qed.

Lemma strict_eq_string_l (b : option value) (s : string) :
  strict_eq (Some (VStr s)) b = true <-> b = Some (VStr s).
Proof.
  destruct b as [[]|]; simpl; split; try done.
  - by intros ->%String.eqb_eq.
  - intros [= ->]. apply String.eqb_refl.
Qed.

Lemma is_type_string (a : option value) :
  is_type TString a = true <-> exists s, a = Some (VStr s).
Proof.
  destruct a as [[]|]; simpl; split; try done; try (by intros [? [=]]). by eexists.
Qed.

Lemma is_type_boolean (a : option value) :
  is_type TBoolean a = true <-> exists b, a = Some (VBool b).
Proof.
  destruct a as [[]|]; simpl; split; try done; try (by intros [? [=]]). by eexists.
Qed.

(** ** The callback of the sanitizer, in closed form *)

Lemma rehydrate_date_alter_first (k : string) (fs : list (string * value)) :
  rehydrate_date k fs = alter_first revive k fs.
Proof.
  unfold rehydrate_date.
  destruct (assoc k fs) as [v|] eqn:E.
  - destruct v; try (symmetry; apply alter_first_id; intros ? ?; simplify_eq; done).
    simpl. destruct (nonempty s) eqn:Hs.
    + rewrite <- (put_alter_first revive k (VStr s) fs E). simpl. by rewrite Hs.
    + symmetry; apply alter_first_id; intros ? ?; simplify_eq. simpl. by rewrite Hs.
  - symmetry. apply alter_first_id. intros v Hv. congruence.
Qed.

Lemma mapR_rehydrate_message (l : list value) :
  mapR rehydrate_message l =
  if existsb (fun msg => is_null (Some msg)) l then Throw TypeError
  else Ok (map revive_message l).
Proof.
  induction l as [|m l IH]; simpl; [done|].
  rewrite IH.
  destruct m; simpl; try (by destruct (existsb _ l)).
  destruct (existsb _ l); simpl; [done|].
  by rewrite rehydrate_date_alter_first.
Qed.

Lemma rehydrate_split (item : value) :
  rehydrate item =
  if rehydrate_throws item then Throw TypeError else Ok (rehydrate_pure item).
Proof.
  destruct item as [| | | | | |fs]; simpl; try done.
  rewrite !rehydrate_date_alter_first.
  set (fs3 := alter_first revive "createdAt" _).
  assert (Hm : assoc "messages" fs3 = assoc "messages" fs).
  { unfold fs3. by rewrite !assoc_alter_ne. }
  rewrite Hm.
  destruct (assoc "messages" fs) as [v|] eqn:E.
  - destruct v as [| | | | |ms|];
      try (f_equal; f_equal; symmetry; apply alter_first_id;
           intros ? ?; rewrite Hm in *; simplify_eq; done).
    rewrite mapR_rehydrate_message.
    destruct (existsb _ ms); simpl; [done|].
    f_equal. f_equal.
    apply (put_alter_first revive_messages "messages" (VArr ms)); congruence.
  - f_equal. f_equal. symmetry. apply alter_first_id. intros v Hv. congruence.
Qed.

Lemma rehydrate_throws_TypeError (item : value) (e : exn) :
  rehydrate item = Throw e -> e = TypeError.
Proof. rewrite rehydrate_split. destruct (rehydrate_throws item); congruence. Qed.

(** ** One trip through the store *)

Lemma toJSON_reparse (v : value) : toJSON (reparse v) = toJSON v.
Proof. apply toJSON_of_json. Qed.

Lemma reparse_of_json (j : json) : reparse (of_json j) = of_json j.
Proof. unfold reparse. by rewrite toJSON_of_json. Qed.

Lemma reparse_reparse (v : value) : reparse (reparse v) = reparse v.
Proof. apply reparse_of_json. Qed.

Lemma revive_revive (v : value) : revive (revive v) = revive v.
Proof.
  destruct v; simpl; try done.
  destruct (nonempty s) eqn:E; simpl; [done|]. by rewrite E.
Qed.

(** What [revive] prints depends only on what its argument prints: a
    date and its ISO string are revived to the same date. *)
Lemma revive_respects (v w : value) :
  toJSON v = toJSON w -> toJSON (revive v) = toJSON (revive w).
Proof.
  assert (Hfactor : exists jr, forall u, toJSON (revive u) = jr (toJSON u)).
  { exists (fun j =>
              match j with
              | JStr s =>
                  if nonempty s then
                    match Date_parse s with
                    | Some t => JStr (toISOString t)
                    | None => JNull
                    end
                  else JStr s
              | _ => j
              end).
    intros [| | x | s | [t|] | |]; simpl; try done.
    - by number_cases x.
    - destruct (nonempty s); simpl; [|done]. by destruct (Date_parse s).
    - by rewrite toISOString_nonempty, Date_parse_toISOString. }
  destruct Hfactor as [jr Hjr]. intros E. by rewrite !Hjr, E.
Qed.

Lemma revive_message_revive_message (m : value) :
  revive_message (revive_message m) = revive_message m.
Proof.
  destruct m; simpl; try done.
  rewrite alter_first_alter_first. f_equal.
  apply alter_first_ext. intros v _. apply revive_revive.
Qed.

Lemma toJSON_object_inv (v : value) (jf : list (string * json)) :
  toJSON v = JObj jf ->
  exists fs, v = VObj fs /\ map (fun kv => (kv.1, toJSON kv.2)) fs = jf.
Proof.
  destruct v as [| | x | | [?|] | |fs]; simpl; try done; [by number_cases x|].
  intros [= <-]. by exists fs.
Qed.

Lemma toJSON_array_inv (v : value) (jl : list json) :
  toJSON v = JArr jl -> exists l, v = VArr l /\ map toJSON l = jl.
Proof.
  destruct v as [| | x | | [?|] |l|]; simpl; try done; [by number_cases x|].
  intros [= <-]. by exists l.
Qed.

Lemma revive_message_respects (m m' : value) :
  toJSON m = toJSON m' -> toJSON (revive_message m) = toJSON (revive_message m').
Proof.
  intros E. destruct m as [| | | | | |fs].
  7:{ symmetry in E. apply toJSON_object_inv in E as (gs & -> & E). simpl. f_equal.
      apply alter_first_respects; [apply revive_respects | done]. }
  all: destruct m' as [| | | | [?|] | |gs]; simpl in *; try done.
  all: try by destruct d.
  all: by numbers.
Qed.

Lemma revive_messages_respects (v w : value) :
  toJSON v = toJSON w -> toJSON (revive_messages v) = toJSON (revive_messages w).
Proof.
  intros E. destruct v as [| | | | |l|].
  6:{ symmetry in E. apply toJSON_array_inv in E as (l' & -> & E). simpl. f_equal.
      revert l' E. induction l as [|m l IH]; intros [|m' l']; simpl; try done.
      intros [= Hm Hl]. f_equal; [by apply revive_message_respects | by apply IH]. }
  all: destruct w as [| | | | [?|] |l'|]; simpl in *; try done.
  all: try by destruct d.
  all: by numbers.
Qed.

Lemma revive_messages_revive_messages (v : value) :
  revive_messages (revive_messages v) = revive_messages v.
Proof.
  destruct v as [| | | | |l|]; simpl; try done. f_equal.
  rewrite map_map. apply map_ext. intros m. apply revive_message_revive_message.
Qed.

Lemma rehydrate_pure_respects (v w : value) :
  toJSON v = toJSON w -> toJSON (rehydrate_pure v) = toJSON (rehydrate_pure w).
Proof.
  intros E. destruct v as [| | | | | |fs].
  7:{ symmetry in E. apply toJSON_object_inv in E as (gs & -> & E). simpl. f_equal.
      apply alter_first_respects; [apply revive_messages_respects|].
      do 3 (apply alter_first_respects; [apply revive_respects|]). done. }
  all: destruct w as [| | | | [?|] | |gs]; simpl in *; try done.
  all: try by destruct d.
  all: by numbers.
Qed.

Lemma rehydrate_pure_rehydrate_pure (v : value) :
  rehydrate_pure (rehydrate_pure v) = rehydrate_pure v.
Proof.
  destruct v as [| | | | | |fs]; simpl; try done. f_equal.
  set (t := alter_first revive "timestamp").
  set (l := alter_first revive "lastMessageTime").
  set (c := alter_first revive "createdAt").
  set (m := alter_first revive_messages "messages").
  assert (Htm : forall x, t (m x) = m (t x)) by (intros; by apply alter_first_comm).
  assert (Hlm : forall x, l (m x) = m (l x)) by (intros; by apply alter_first_comm).
  assert (Hcm : forall x, c (m x) = m (c x)) by (intros; by apply alter_first_comm).
  assert (Htl : forall x, t (l x) = l (t x)) by (intros; by apply alter_first_comm).
  assert (Htc : forall x, t (c x) = c (t x)) by (intros; by apply alter_first_comm).
  assert (Hlc : forall x, l (c x) = c (l x)) by (intros; by apply alter_first_comm).
  assert (Htt : forall x, t (t x) = t x).
  { intros. unfold t. rewrite alter_first_alter_first.
    apply alter_first_ext. intros ? _. apply revive_revive. }
  assert (Hll : forall x, l (l x) = l x).
  { intros. unfold l. rewrite alter_first_alter_first.
    apply alter_first_ext. intros ? _. apply revive_revive. }
  assert (Hcc : forall x, c (c x) = c x).
  { intros. unfold c. rewrite alter_first_alter_first.
    apply alter_first_ext. intros ? _. apply revive_revive. }
  assert (Hmm : forall x, m (m x) = m x).
  { intros. unfold m. rewrite alter_first_alter_first.
    apply alter_first_ext. intros ? _. apply revive_messages_revive_messages. }
  rewrite Htm, Htc, Htl, Htt. rewrite Hlm, Hlc, Hll. rewrite Hcm, Hcc. by rewrite Hmm.
Qed.

Lemma reparse_prints_null (v : value) : is_null (Some (reparse v)) = prints_null v.
Proof.
  destruct v as [| | x | | [?|] | |]; try done.
  unfold reparse. simpl. number_cases x; simpl; by rewrite Hfinite.
Qed.

Lemma reparse_array (v : value) (l : list value) :
  reparse v = VArr l -> exists l', v = VArr l' /\ l = map reparse l'.
Proof.
  destruct v as [| | x | | [?|] |l'|]; simpl; try done.
  { unfold reparse. simpl. by number_cases x. }
  unfold reparse. simpl. intros [= <-]. exists l'. by rewrite map_map.
Qed.

Lemma reparse_object (fs : list (string * value)) :
  reparse (VObj fs) = VObj (map (fun kv => (kv.1, reparse kv.2)) fs).
Proof. unfold reparse. simpl. by rewrite map_map. Qed.

(** Reading back throws exactly on the records that do not survive. *)
Lemma rehydrate_throws_reparse (v : value) :
  rehydrate_throws (reparse v) = negb (survives_reading v).
Proof.
  destruct v as [| | x | | [?|] | |fs]; try done.
  { unfold survives_reading, reparse. simpl. number_cases x; simpl; by rewrite Hfinite. }
  rewrite reparse_object. unfold survives_reading. simpl.
  rewrite (assoc_map reparse).
  destruct (assoc "messages" fs) as [v|]; simpl; [|done].
  destruct (reparse v) as [| | | | |l|] eqn:E.
  6:{ apply reparse_array in E as (l' & -> & ->).
      induction l' as [|m l' IH]; simpl; [done|].
      rewrite IH. pose proof (reparse_prints_null m) as Hm. simpl in Hm. rewrite Hm.
      by destruct (prints_null m), (forallb _ l'). }
  all: destruct v as [| | | | [?|] | |]; simpl in *; done.
Qed.

Lemma rehydrate_reparse (v : value) :
  survives_reading v = true -> rehydrate (reparse v) = Ok (reread v).
Proof.
  intros Hs. rewrite rehydrate_split, rehydrate_throws_reparse, Hs. done.
Qed.

Lemma from_store_survives (e : value) : from_store e -> survives_reading e = true.
Proof.
  intros [j Hj]. rewrite rehydrate_split in Hj.
  destruct (rehydrate_throws (of_json j)) eqn:Ht; [done|]. injection Hj as <-.
  destruct j as [| | n | | |jf]; try done.
  { unfold survives_reading. simpl. by rewrite (number_finite n). }
  simpl in *. rewrite (assoc_map of_json) in Ht.
  unfold survives_reading. simpl.
  rewrite assoc_alter_eq, !assoc_alter_ne by done. rewrite (assoc_map of_json).
  destruct (assoc "messages" jf) as [jv|]; simpl in *; [|done].
  destruct jv as [| | | | jl |]; simpl in *; try done.
  induction jl as [|jm jl IH]; simpl in *; [done|].
  apply orb_false_iff in Ht as [Hm Hl]. rewrite (IH Hl), andb_true_r.
  destruct jm as [| | n | | |]; try done. simpl. by rewrite (number_finite n).
Qed.

(** A record read from the store, written and read back: reading succeeds,
    and the record read back prints as the one written. *)
Lemma from_store_reread (e : value) :
  from_store e ->
  rehydrate (reparse e) = Ok (reread e) /\ toJSON (reread e) = toJSON e /\
  from_store (reread e).
Proof.
  intros He. pose proof (from_store_survives e He) as Hs.
  split_and!.
  - by apply rehydrate_reparse.
  - destruct He as [j Hj]. rewrite rehydrate_split in Hj.
    destruct (rehydrate_throws (of_json j)); [done|]. injection Hj as <-.
    unfold reread.
    rewrite (rehydrate_pure_respects _ (rehydrate_pure (of_json j)))
      by apply toJSON_reparse.
    by rewrite rehydrate_pure_rehydrate_pure.
  - unfold from_store. exists (toJSON e). by apply rehydrate_reparse.
Qed.

(** After one trip the record is a fixed point of further trips. *)
Lemma reread_reread (e : value) : from_store e -> reread (reread e) = reread e.
Proof.
  intros He. destruct (from_store_reread e He) as (_ & Hj & _).
  unfold reread at 1. unfold reparse. by rewrite Hj.
Qed.

(** ** What the validators guarantee *)

Lemma validateChat_object (chat : value) :
  validateChat chat = true ->
  exists fs id messages,
    chat = VObj fs /\ assoc "id" fs = Some (VStr id) /\
    assoc "messages" fs = Some (VArr messages).
Proof.
  unfold validateChat. rewrite !andb_true_iff.
  intros (((((((_ & _) & Hid) & _) & _) & _) & _) & Hm).
  apply is_type_string in Hid as [id Hid].
  destruct chat as [| | | | | |fs]; simpl in *; try done.
  destruct (assoc "messages" fs) as [[| | | | |messages|]|] eqn:E; try done.
  by exists fs, id, messages.
Qed.

Lemma validateTask_object (task : value) :
  validateTask task = true ->
  exists fs id b,
    task = VObj fs /\ assoc "id" fs = Some (VStr id) /\
    assoc "completed" fs = Some (VBool b).
Proof.
  unfold validateTask. rewrite !andb_true_iff.
  intros (((((((_ & _) & Hid) & _) & _) & Hc) & _) & _).
  apply is_type_string in Hid as [id Hid].
  apply is_type_boolean in Hc as [b Hc].
  destruct task as [| | | | | |fs]; simpl in *; try done.
  by exists fs, id, b.
Qed.

Lemma sanitizeStorageData_valid (data : value) (validator : value -> bool) (l : list value) :
  sanitizeStorageData data validator = Ok l -> Forall (fun x => validator x = true) l.
Proof.
  unfold sanitizeStorageData. destruct data; try (intros [= <-]; constructor).
  destruct (mapR rehydrate items); simpl; [|done].
  intros [= <-]. apply Forall_filter_true.
Qed.

Lemma getChats_valid st : Forall (fun chat => validateChat chat = true) (getChats st).
Proof.
  unfold getChats. destruct (negb _); [constructor|].
  destruct (sanitizeStorageData _ _) eqn:E; [|constructor].
  by eapply sanitizeStorageData_valid.
Qed.

Lemma getTasks_valid st : Forall (fun task => validateTask task = true) (getTasks st).
Proof.
  unfold getTasks. destruct (negb _); [constructor|].
  destruct (sanitizeStorageData _ _) eqn:E; [|constructor].
  by eapply sanitizeStorageData_valid.
Qed.

(** In a collection whose identifiers are strings, [findIndex] by
    identifier finds a record exactly when the identifier is among them. *)
Lemma findIndex_id (l : list value) (key : option value) :
  Forall (fun x => exists s, field x "id" = Some (VStr s)) l ->
  match findIndex (fun x => strict_eq (field x "id") key) l with
  | Some i =>
      exists x, l !! i = Some x /\ field x "id" = key /\
                forall j y, j < i -> l !! j = Some y -> field y "id" <> key
  | None => key ∉ ids l
  end.
Proof.
  intros Hstr.
  destruct (findIndex _ l) as [i|] eqn:E.
  - apply findIndex_Some in E as (x & Hx & Hp & Hlt).
    assert (Hxs : exists s, field x "id" = Some (VStr s)).
    { eapply Forall_forall in Hstr; [done|]. by eapply list_elem_of_lookup_2. }
    destruct Hxs as [s Hs]. rewrite Hs in Hp. apply strict_eq_string_l in Hp.
    exists x. split_and!; [done|congruence|].
    intros j y Hj Hy Hk. specialize (Hlt j y Hj Hy).
    rewrite Hk, Hp in Hlt. simpl in Hlt. by rewrite String.eqb_refl in Hlt.
  - apply findIndex_None in E. unfold ids. intros Hin.
    apply list_elem_of_fmap in Hin as (x & -> & Hx).
    eapply Forall_forall in E; [|done]. eapply Forall_forall in Hstr; [|done].
    destruct Hstr as [s Hs]. rewrite Hs in E. simpl in E.
    by rewrite String.eqb_refl in E.
Qed.

Lemma chats_have_ids st :
  Forall (fun x => exists s, field x "id" = Some (VStr s)) (getChats st).
Proof.
  eapply Forall_impl; [apply getChats_valid|]. simpl.
  intros x (fs & id & ms & -> & Hid & _)%validateChat_object. by exists id.
Qed.

Lemma tasks_have_ids st :
  Forall (fun x => exists s, field x "id" = Some (VStr s)) (getTasks st).
Proof.
  eapply Forall_impl; [apply getTasks_valid|]. simpl.
  intros x (fs & id & b & -> & Hid & _)%validateTask_object. by exists id.
Qed.

(** ** Reading after writing *)

Lemma getItem_setItem_eq st (k : string) v : getItem (setItem st k v) k = reparse v.
Proof. unfold getItem, setItem. by rewrite lookup_insert_eq. Qed.

Lemma getItem_setItem_ne st (k k' : string) v :
  k <> k' -> getItem (setItem st k v) k' = getItem st k'.
Proof. intros Hk. unfold getItem, setItem. by rewrite lookup_insert_ne. Qed.

Lemma getItem_of_json st (k : string) : exists j, getItem st k = of_json j.
Proof.
  unfold getItem. destruct (st !! k) as [[j|]|]; simpl.
  - by exists j.
  - by exists JNull.
  - by exists JNull.
Qed.

Lemma records_unfold (c : collection) st :
  records c st =
  if negb (truthy (Some (getItem st (key c)))) then []
  else
    match sanitizeStorageData (getItem st (key c)) (validator c) with
    | Ok l => l
    | Throw _ => []
    end.
Proof. by destruct c. Qed.

Lemma records_valid (c : collection) st :
  Forall (fun x => validator c x = true) (records c st).
Proof. destruct c; [apply getChats_valid | apply getTasks_valid]. Qed.

Lemma records_have_ids (c : collection) st :
  Forall (fun x => exists s, field x "id" = Some (VStr s)) (records c st).
Proof. destruct c; [apply chats_have_ids | apply tasks_have_ids]. Qed.

(** Every record of a collection is a parsed document, rehydrated. *)
Lemma records_from_store (c : collection) st : Forall from_store (records c st).
Proof.
  rewrite records_unfold. destruct (negb _); [constructor|].
  destruct (getItem_of_json st (key c)) as [j ->].
  destruct j as [| | | | jl |]; simpl; try constructor.
  destruct (mapR rehydrate (map of_json jl)) as [l|] eqn:E; simpl; [|constructor].
  apply mapR_Ok_Forall2 in E.
  apply Forall_forall. intros y Hy.
  apply list_elem_of_In, filter_In in Hy as [Hy _]. apply list_elem_of_In in Hy.
  apply list_elem_of_lookup in Hy as [i Hi].
  destruct (Forall2_lookup_r _ _ _ _ _ E Hi) as (x & Hx & Hxy).
  apply list_lookup_fmap_Some in Hx as (jx & -> & _).
  by exists jx.
Qed.

(** The collection read after the array [l] was written under its key. *)
Lemma records_after_write (c : collection) st (l : list value) :
  Forall (fun x => survives_reading x = true) l ->
  records c (setItem st (key c) (VArr l)) = List.filter (validator c) (map reread l).
Proof.
  intros Hl. rewrite records_unfold, getItem_setItem_eq.
  assert (Ha : reparse (VArr l) = VArr (map reparse l)).
  { unfold reparse. simpl. by rewrite map_map. }
  rewrite Ha. simpl. clear Ha.
  assert (E : mapR rehydrate (map reparse l) = Ok (map reread l)).
  { induction Hl as [|x l Hx _ IH]; simpl; [done|].
    by rewrite (rehydrate_reparse x Hx), IH. }
  by rewrite E.
Qed.

(** ** The properties of a record read back *)

Lemma reread_object (fs : list (string * value)) :
  reread (VObj fs) =
  VObj (alter_first revive_messages "messages"
          (alter_first revive "createdAt"
             (alter_first revive "lastMessageTime"
                (alter_first revive "timestamp"
                   (map (fun kv => (kv.1, reparse kv.2)) fs))))).
Proof. unfold reread. by rewrite reparse_object. Qed.

Lemma field_reread_plain (fs : list (string * value)) (k : string) :
  plain_key k -> field (reread (VObj fs)) k = reparse <$> assoc k fs.
Proof.
  intros (? & ? & ? & ?). rewrite reread_object. simpl.
  rewrite !assoc_alter_ne by done. apply assoc_map.
Qed.

Lemma field_reread_createdAt (fs : list (string * value)) :
  field (reread (VObj fs)) "createdAt" = (fun v => revive (reparse v)) <$> assoc "createdAt" fs.
Proof.
  rewrite reread_object. simpl.
  rewrite assoc_alter_ne, assoc_alter_eq, !assoc_alter_ne by done.
  rewrite (assoc_map reparse). by destruct (assoc "createdAt" fs).
Qed.

Lemma field_reread_lastMessageTime (fs : list (string * value)) :
  field (reread (VObj fs)) "lastMessageTime"
  = (fun v => revive (reparse v)) <$> assoc "lastMessageTime" fs.
Proof.
  rewrite reread_object. simpl.
  rewrite !assoc_alter_ne, assoc_alter_eq, !assoc_alter_ne by done.
  rewrite (assoc_map reparse). by destruct (assoc "lastMessageTime" fs).
Qed.

Lemma field_reread_messages (fs : list (string * value)) :
  field (reread (VObj fs)) "messages"
  = (fun v => revive_messages (reparse v)) <$> assoc "messages" fs.
Proof.
  rewrite reread_object. simpl.
  rewrite assoc_alter_eq, !assoc_alter_ne by done.
  rewrite (assoc_map reparse). by destruct (assoc "messages" fs).
Qed.

Lemma revive_reparse_date (t : time) : revive (reparse (VDate (Some t))) = VDate (Some t).
Proof.
  unfold reparse. simpl. by rewrite toISOString_nonempty, Date_parse_toISOString.
Qed.

(** A string identifier is read back unchanged. *)
Lemma field_id_reread (e : value) (s : string) :
  field e "id" = Some (VStr s) -> field (reread e) "id" = Some (VStr s).
Proof.
  destruct e as [| | | | | |fs]; try done. intros Hid.
  rewrite field_reread_plain by (by repeat split). simpl in Hid. by rewrite Hid.
Qed.

(** Looking a record up by identifier in the collection read back, when
    the record at the index [findIndex] gives is still valid once read
    back. *)
Lemma find_after_reread (valid : value -> bool) (l : list value) (id : string)
    (i : nat) (x : value) :
  Forall (fun y => exists s, field y "id" = Some (VStr s)) l ->
  findIndex (fun y => strict_eq (field y "id") (Some (VStr id))) l = Some i ->
  l !! i = Some x ->
  valid (reread x) = true ->
  List.find (fun y => strict_eq (field y "id") (Some (VStr id)))
    (List.filter valid (map reread l)) = Some (reread x).
Proof.
  intros Hids. revert i. induction Hids as [|y l [s Hs] _ IH]; intros i; simpl; [done|].
  destruct (strict_eq (field y "id") (Some (VStr id))) eqn:Hy.
  - intros [= <-] [= <-] Hv. simpl. rewrite Hv. simpl.
    apply strict_eq_string in Hy. rewrite (field_id_reread y id Hy). simpl.
    by rewrite String.eqb_refl.
  - destruct (findIndex _ l) as [i'|] eqn:Hi; simpl; [|done].
    intros [= <-]. simpl. intros Hx Hv.
    destruct (valid (reread y)); simpl; [|by apply (IH i')].
    rewrite (field_id_reread y s Hs). rewrite Hs in Hy. simpl in *. rewrite Hy.
    by apply (IH i').
Qed.

Lemma findIndex_insert {A : Type} (p : A -> bool) (l : list A) (i : nat) (x : A) :
  findIndex p l = Some i -> p x = true -> findIndex p (<[i := x]> l) = Some i.
Proof.
  revert i. induction l as [|y l IH]; intros i; simpl; [done|].
  destruct (p y) eqn:Hy.
  - intros [= <-] Hx. simpl. by rewrite Hx.
  - destruct (findIndex p l) as [i'|] eqn:Hi; simpl; [|done].
    intros [= <-] Hx. simpl. rewrite Hy. by rewrite (IH i').
Qed.

End Facts.


Section Claims.
Context `{JSDate}.

Implicit Types (st : store) (v : value).

(** ** Replace-by-identifier: [updateChat] and [updateTask] *)

(** Both updates are one function of the collection read and the key
    written. *)
Lemma update_unfold (c : collection) (r : list (string * value)) st :
  update_by_id c r st =
  match findIndex (fun x => strict_eq (field x "id") (assoc "id" r)) (records c st) with
  | None => Throw (NotFound (kind c) match assoc "id" r with Some (VStr s) => s | _ => "" end)
  | Some i => Ok (setItem st (key c) (VArr (<[i := VObj r]> (records c st))))
  end.
Proof. by destruct c. Qed.

(** The documents found under a key after an array was written there. *)
Lemma stored_records_setItem st (k : string) (l : list value) :
  stored_records (setItem st k (VArr l)) k = map toJSON l.
Proof. unfold stored_records, setItem. by rewrite lookup_insert_eq. Qed.

(** C5. [updateChat] and [updateTask] fail exactly when the identifier of
    the record they are given is not among the identifiers of the
    collection, and the failure is the NotFound error. When the identifier
    is present the call succeeds, and the store it leaves holds, under the
    key of the collection, the text of the collection read with the first
    record that carries the identifier replaced by the given one: the
    document at that position is the given record as [JSON.stringify]
    prints it, the documents at the other positions are the other records
    as it prints them, and no other key of the store has changed. *)
Theorem update_fails_iff_id_absent (c : collection) (r : list (string * value)) st :
  ((exists e, update_by_id c r st = Throw e) <-> assoc "id" r ∉ ids (records c st)) /\
  (forall e, update_by_id c r st = Throw e -> exists id, e = NotFound (kind c) id) /\
  (assoc "id" r ∈ ids (records c st) ->
   exists i x st',
     records c st !! i = Some x /\ field x "id" = assoc "id" r /\
     (forall j y, j < i -> records c st !! j = Some y -> field y "id" <> assoc "id" r) /\
     update_by_id c r st = Ok st' /\
     st' !! key c = Some (JSON_stringify (VArr (<[i := VObj r]> (records c st)))) /\
     length (stored_records st' (key c)) = length (records c st) /\
     stored_records st' (key c) !! i = Some (toJSON (VObj r)) /\
     (forall j, j <> i ->
                stored_records st' (key c) !! j = toJSON <$> (records c st !! j)) /\
     (forall k, k <> key c -> st' !! k = st !! k)).
Proof.
  rewrite update_unfold.
  pose proof (findIndex_id (records c st) (assoc "id" r) (records_have_ids c st)) as Hfind.
  destruct (findIndex _ (records c st)) as [i|].
  - destruct Hfind as (x & Hx & Hid & Hfirst).
    assert (Hin : assoc "id" r ∈ ids (records c st)).
    { unfold ids. apply list_elem_of_fmap. exists x. split; [done|].
      by eapply list_elem_of_lookup_2. }
    split_and!.
    + split; [by intros [e [=]] | done].
    + by intros e [=].
    + intros _. exists i, x. eexists. split_and!; [done..|reflexivity| | | | |].
      * unfold setItem. by rewrite lookup_insert_eq.
      * by rewrite stored_records_setItem, length_map, length_insert.
      * rewrite stored_records_setItem, list_lookup_fmap.
        rewrite list_lookup_insert_eq by (by eapply lookup_lt_Some). done.
      * intros j Hj. rewrite stored_records_setItem, list_lookup_fmap.
        by rewrite list_lookup_insert_ne.
      * intros k Hk. unfold setItem. by rewrite lookup_insert_ne.
  - split_and!.
    + split; [done|]. intros _. by eexists.
    + intros e [= <-]. by eexists.
    + done.
Qed.

(** ** Filter-out-by-identifier: [deleteChat] and [deleteTask] *)

Lemma delete_unfold (c : collection) (id : string) st :
  delete_by_id c id st =
  setItem st (key c)
    (VArr (List.filter (fun x => negb (strict_eq (field x "id") (Some (VStr id))))
             (records c st))).
Proof. by destruct c. Qed.

(** The collection read after a deletion: what was kept, read back. *)
Lemma records_delete (c : collection) (id : string) st :
  records c (delete_by_id c id st) =
  List.filter (validator c)
    (map reread
       (List.filter (fun x => negb (strict_eq (field x "id") (Some (VStr id))))
          (records c st))).
Proof.
  rewrite delete_unfold. apply records_after_write.
  apply Forall_forall. intros x Hx.
  apply list_elem_of_In, filter_In in Hx as [Hx _]. apply list_elem_of_In in Hx.
  apply from_store_survives.
  eapply Forall_forall; [apply records_from_store | done].
Qed.

(** Deleting twice leaves the collection that deleting once leaves; and
    when no record carries the identifier, the array written is the
    collection that was read, nothing removed. *)
Lemma delete_twice (c : collection) (id : string) st :
  records c (delete_by_id c id (delete_by_id c id st)) = records c (delete_by_id c id st) /\
  (Some (VStr id) ∉ ids (records c st) ->
   delete_by_id c id st = setItem st (key c) (VArr (records c st))).
Proof.
  split.
  - rewrite (records_delete c id (delete_by_id c id st)).
    set (l1 := records c (delete_by_id c id st)).
    assert (Hl1 : Forall (fun y => negb (strict_eq (field y "id") (Some (VStr id))) = true
                                   /\ reread y = y /\ validator c y = true) l1).
    { unfold l1. rewrite records_delete.
      apply Forall_forall. intros y Hy.
      apply list_elem_of_In, filter_In in Hy as [Hy Hvalid].
      apply in_map_iff in Hy as (x & <- & Hx).
      apply filter_In in Hx as [Hx Hne]. apply list_elem_of_In in Hx.
      pose proof (records_have_ids c st) as Hids. rewrite Forall_forall in Hids.
      destruct (Hids x Hx) as [s Hs].
      pose proof (records_from_store c st) as Hfrom. rewrite Forall_forall in Hfrom.
      split_and!; [|by apply reread_reread, Hfrom|done].
      by rewrite (field_id_reread x s Hs), <- Hs. }
    clearbody l1. induction Hl1 as [|y l1 (Hkeep & Hfix & Hvalid) _ IH]; simpl; [done|].
    rewrite Hkeep. simpl. rewrite Hfix, Hvalid. by rewrite IH.
  - intros Hid. rewrite delete_unfold. do 2 f_equal.
    apply filter_all. apply Forall_forall. intros x Hx.
    destruct (strict_eq (field x "id") (Some (VStr id))) eqn:E; [|done].
    apply strict_eq_string in E. destruct Hid.
    unfold ids. apply list_elem_of_fmap. by exists x.
Qed.

(** ** [createChat] followed by [getChat] *)

(** The conversation [createChat] builds is read back as it was written. *)
Lemma reread_new_chat (id title : string) (now : time) st :
  let chat := (createChat id now title st).1 in
  survives_reading chat = true /\ reread chat = chat /\ validateChat chat = true.
Proof.
  simpl. split_and!; [done| |done].
  rewrite reread_object. simpl. unfold reparse. simpl.
  by rewrite toISOString_nonempty, Date_parse_toISOString.
Qed.

(** C4. For every title, [createChat] returns a conversation with the
    generated identifier, the trimmed title, or "New Chat" when the trimmed
    title is empty, and no message; it writes the collection with that
    conversation put in front; and [getChat] on the generated identifier
    then returns that conversation, which heads the collection read. *)
Theorem createChat_then_getChat (id title : string) (now : time) st :
  let chat := (createChat id now title st).1 in
  let st' := (createChat id now title st).2 in
  getChat st' id = Some chat /\
  field chat "id" = Some (VStr id) /\
  field chat "title" = Some (VStr (if nonempty (trim title) then trim title else "New Chat")) /\
  field chat "messages" = Some (VArr []) /\
  st' !! CHATS = Some (JSON_stringify (VArr (chat :: getChats st))) /\
  exists rest, getChats st' = chat :: rest.
Proof.
  intros chat st'.
  destruct (reread_new_chat id title now st) as (Hs & Hfix & Hvalid). fold chat in Hs, Hfix, Hvalid.
  assert (Hread : getChats st' = chat :: List.filter validateChat (map reread (getChats st))).
  { change (getChats st') with (records Chats (setItem st (key Chats) (VArr (chat :: getChats st)))).
    rewrite records_after_write.
    - simpl. by rewrite Hfix, Hvalid.
    - constructor; [done|].
      eapply Forall_impl; [apply (records_from_store Chats st)|].
      apply from_store_survives. }
  split_and!; try done.
  - unfold getChat. rewrite Hread. simpl. by rewrite String.eqb_refl.
  - unfold st'. simpl. unfold setItem. by rewrite lookup_insert_eq.
  - by eexists.
Qed.

(** ** [sanitizeStorageData] on an array that holds a [null] *)

Lemma mapR_rehydrate_null (before after : list value) :
  mapR rehydrate (before ++ VNull :: after) = Throw TypeError.
Proof.
  induction before as [|x before IH]; simpl; [done|].
  destruct (rehydrate x) as [y|e] eqn:E; simpl.
  - by rewrite IH.
  - by rewrite (rehydrate_throws_TypeError x e E).
Qed.

(** C2, at the input where the code departs from it. On an array that
    holds a [null] element the sanitizer raises a TypeError, whatever the
    validator and whatever the other elements are: the callback of [map]
    reads [item.timestamp] before the validator, which would reject [null],
    is consulted. *)
Theorem sanitizeStorageData_throws_on_null
    (validate : value -> bool) (before after : list value) :
  sanitizeStorageData (VArr (before ++ VNull :: after)) validate = Throw TypeError.
Proof. unfold sanitizeStorageData. by rewrite mapR_rehydrate_null. Qed.

(** X3. On an array none of whose elements makes the callback throw, the
    sanitizer returns the rehydrated elements that pass the validator, in
    their order. *)
Lemma sanitizeStorageData_filters (validate : value -> bool) (items : list value) :
  Forall (fun item => rehydrate_throws item = false) items ->
  sanitizeStorageData (VArr items) validate
  = Ok (List.filter validate (map rehydrate_pure items)).
Proof.
  intros Hitems. unfold sanitizeStorageData.
  rewrite (mapR_pure rehydrate rehydrate_pure); [done|].
  eapply Forall_impl; [done|]. intros x Hx. simpl in *. by rewrite rehydrate_split, Hx.
Qed.

(** X5. What the exception costs the services: one [null] in the persisted
    array of a collection, and the collection is read as empty, whatever
    the other elements are. *)
Theorem null_element_hides_collection (c : collection) st (before after : list json) :
  records c (<[key c := Text (JArr (before ++ JNull :: after))]> st) = [].
Proof.
  rewrite records_unfold. unfold getItem. rewrite lookup_insert_eq. simpl.
  rewrite map_app. simpl.
  unfold sanitizeStorageData. by rewrite mapR_rehydrate_null.
Qed.

(** ** [getProfile] and [updateProfile] *)

(** Without a valid profile in the store, [getProfile] calls
    [updateProfile], which calls [getProfile] on the same store: no amount
    of fuel lets the call return. *)
Lemma getProfile_diverges (fuel : nat) st :
  validateUserProfile (getItem st USER_PROFILE) = false -> getProfile fuel st = None.
Proof.
  intros Hinvalid. induction fuel as [|fuel IH]; simpl; [done|].
  rewrite Hinvalid, orb_true_r. simpl.
  unfold updateProfile_body. by rewrite IH.
Qed.

(** C9, at the input where the code departs from it. On the store of a
    first launch, where no profile is persisted, the call of [getProfile]
    does not return, whatever the fuel: it neither yields the default
    profile nor persists it. *)
Theorem getProfile_never_returns_on_first_call (fuel : nat) : getProfile fuel ∅ = None.
Proof. by apply getProfile_diverges. Qed.

(** With a valid profile in the store [getProfile] returns it and writes
    nothing. *)
Lemma getProfile_valid (fuel : nat) st :
  validateUserProfile (getItem st USER_PROFILE) = true ->
  getProfile (S fuel) st = Some (getItem st USER_PROFILE, st).
Proof.
  intros Hvalid. simpl.
  destruct (getItem st USER_PROFILE) eqn:E; try done.
  by rewrite Hvalid.
Qed.

(** X2. As long as the store holds no valid profile, none of the operations
    that start by reading the profile returns: [getProfile],
    [updateProfile] whatever the update, and [exportData]. *)
Theorem no_valid_profile_no_return (fuel : nat) (profileUpdates : argument) (now : time) st :
  validateUserProfile (getItem st USER_PROFILE) = false ->
  getProfile fuel st = None /\
  updateProfile fuel profileUpdates st = None /\
  exportData fuel now st = None.
Proof.
  intros Hinvalid.
  assert (Hget : getProfile fuel st = None).
  { induction fuel as [|fuel IH]; simpl; [done|].
    rewrite Hinvalid, orb_true_r. simpl.
    unfold updateProfile_body. by rewrite IH. }
  split_and!; [done| |].
  - unfold updateProfile, updateProfile_body. by rewrite Hget.
  - unfold exportData. by rewrite Hget.
Qed.

(** ** [addMessage] *)

(** What a successful [addMessage] did: it found the conversation, and
    wrote the collection with the conversation replaced by its update. *)
Lemma addMessage_Ok (id chatId : string) (md : messageData) st (r : value * store) :
  addMessage id chatId md st = Ok r ->
  exists chat messages i,
    getChat st chatId = Some (VObj chat) /\
    assoc "id" chat = Some (VStr chatId) /\
    assoc "messages" chat = Some (VArr messages) /\
    findIndex (fun x => strict_eq (field x "id") (Some (VStr chatId))) (getChats st) = Some i /\
    getChats st !! i = Some (VObj chat) /\
    r.1 = newMessage id chatId md /\
    r.2 = setItem st CHATS
            (VArr (<[i := VObj (put "lastMessageTime" (VDate (md_timestamp md))
                              (put "lastMessage" (VStr (md_text md))
                                 (put "messages"
                                    (VArr (messages ++ [newMessage id chatId md])) chat)))]>
                     (getChats st))).
Proof.
  unfold addMessage.
  destruct (getChat st chatId) as [[| | | | | |chat]|] eqn:Hget; try done.
  destruct (assoc "messages" chat) as [[| | | | |messages|]|] eqn:Hm; try done.
  unfold getChat in Hget. rewrite find_findIndex in Hget.
  destruct (findIndex _ (getChats st)) as [i|] eqn:Hi; [|done]. simpl in Hget.
  pose proof (findIndex_Some _ _ _ Hi) as (x & Hx & Hp & _).
  rewrite Hget in Hx. injection Hx as <-. apply strict_eq_string in Hp. simpl in Hp.
  unfold updateChat.
  rewrite !assoc_put_ne by done. rewrite Hp, Hi. simpl.
  intros [= <-]. exists chat, messages, i. by split_and!.
Qed.

Lemma has_id_toJSON (x : value) (s id : string) :
  field x "id" = Some (VStr s) ->
  has_id id (toJSON x) = strict_eq (field x "id") (Some (VStr id)).
Proof.
  destruct x as [| | | | | |fs]; try done. simpl. intros Hs.
  by rewrite (assoc_map toJSON), Hs.
Qed.

Lemma find_has_id (l : list value) (id : string) :
  Forall (fun x => exists s, field x "id" = Some (VStr s)) l ->
  List.find (has_id id) (map toJSON l)
  = toJSON <$> List.find (fun x => strict_eq (field x "id") (Some (VStr id))) l.
Proof.
  induction 1 as [|x l [s Hs] _ IH]; simpl; [done|].
  rewrite (has_id_toJSON x s id Hs).
  by destruct (strict_eq (field x "id") (Some (VStr id))).
Qed.

Lemma addMessages_snoc (chatId : string) (calls : list (string * messageData))
    (id : string) (md : messageData) st st' :
  addMessages chatId (calls ++ [(id, md)]) st = Ok st' ->
  exists st0 r,
    addMessages chatId calls st = Ok st0 /\
    addMessage id chatId md st0 = Ok r /\ st' = r.2.
Proof.
  revert st. induction calls as [|[id0 md0] calls IH]; intros st; simpl.
  - destruct (addMessage id chatId md st) as [r|] eqn:E; simpl; [|done].
    intros [= <-]. by exists st, r.
  - destruct (addMessage id0 chatId md0 st) as [r0|]; simpl; [|done].
    apply IH.
Qed.

(** C1. After every run of N >= 1 successful [addMessage] calls on a
    conversation, the conversation persisted under its identifier ends
    its message sequence with the message of the last call, and its
    [lastMessage] and [lastMessageTime] are the text and the timestamp of
    that message, as persisted. *)
Theorem addMessage_mirrors_last_message (chatId : string)
    (calls : list (string * messageData)) (id : string) (md : messageData) st st' :
  addMessages chatId (calls ++ [(id, md)]) st = Ok st' ->
  exists chat messages message,
    stored_chat st' chatId = Some (JObj chat) /\
    assoc "messages" chat = Some (JArr (messages ++ [JObj message])) /\
    assoc "id" message = Some (JStr id) /\
    assoc "text" message = Some (JStr (md_text md)) /\
    assoc "timestamp" message = Some (toJSON (VDate (md_timestamp md))) /\
    assoc "lastMessage" chat = assoc "text" message /\
    assoc "lastMessageTime" chat = assoc "timestamp" message.
Proof.
  intros Hrun.
  apply addMessages_snoc in Hrun as (st0 & r & _ & Hadd & ->).
  apply addMessage_Ok in Hadd
    as (chat & messages & i & _ & Hid & Hm & Hi & Hchat & _ & ->).
  set (chat' := put "lastMessageTime" _ _).
  assert (Hid' : assoc "id" chat' = Some (VStr chatId)).
  { unfold chat'. by rewrite !assoc_put_ne. }
  assert (Hfind : stored_chat (setItem st0 CHATS (VArr (<[i := VObj chat']> (getChats st0))))
                    chatId = Some (toJSON (VObj chat'))).
  { unfold stored_chat, stored_records, setItem. rewrite lookup_insert_eq. simpl.
    rewrite find_has_id.
    - rewrite find_findIndex.
      rewrite (findIndex_insert _ _ i (VObj chat') Hi).
      + simpl. rewrite list_lookup_insert_eq; [done|]. by eapply lookup_lt_Some.
      + simpl. rewrite Hid'. simpl. apply String.eqb_refl.
    - apply Forall_insert; [apply chats_have_ids|]. by exists chatId. }
  exists (map (fun kv => (kv.1, toJSON kv.2)) chat'), (map toJSON messages).
  eexists. split_and!.
  - exact Hfind.
  - rewrite (assoc_map toJSON). unfold chat'.
    rewrite !assoc_put_ne by done. rewrite assoc_put_eq. simpl.
    rewrite map_app. simpl. reflexivity.
  - done.
  - done.
  - done.
  - rewrite (assoc_map toJSON). unfold chat'.
    rewrite assoc_put_ne by done. by rewrite assoc_put_eq.
  - rewrite (assoc_map toJSON). unfold chat'. by rewrite assoc_put_eq.
Qed.

(** ** [toggleTaskCompletion] *)

Lemma is_type_string_reparse (a : option value) :
  is_type TString a = true -> is_type TString (reparse <$> a) = true.
Proof. by destruct a as [[]|]. Qed.

Lemma is_type_boolean_reparse (a : option value) :
  is_type TBoolean a = true -> is_type TBoolean (reparse <$> a) = true.
Proof. by destruct a as [[]|]. Qed.

Lemma optional_string_reparse (a : option value) :
  is_undefined a || is_type TString a = true ->
  is_undefined (reparse <$> a) || is_type TString (reparse <$> a) = true.
Proof. by destruct a as [[]|]. Qed.

Lemma validateTask_put_completed (fs : list (string * value)) (b : bool) :
  validateTask (VObj fs) = true -> validateTask (VObj (put "completed" (VBool b) fs)) = true.
Proof.
  unfold validateTask. simpl.
  rewrite assoc_put_eq, !assoc_put_ne by done.
  rewrite !andb_true_iff. intros Hv. destruct_and!. by split_and!.
Qed.

(** A valid task whose creation time is a valid date is valid again once
    written and read back. *)
Lemma validateTask_reread (fs : list (string * value)) (t : time) :
  validateTask (VObj fs) = true ->
  assoc "createdAt" fs = Some (VDate (Some t)) ->
  validateTask (reread (VObj fs)) = true.
Proof.
  unfold validateTask. intros Hv Hc.
  rewrite !andb_true_iff in Hv. destruct_and!.
  rewrite field_reread_createdAt, Hc, !field_reread_plain by (by repeat split).
  rewrite !andb_true_iff. split_and!.
  - by rewrite reread_object.
  - by rewrite reread_object.
  - by apply is_type_string_reparse.
  - by apply is_type_string_reparse.
  - by apply optional_string_reparse.
  - by apply is_type_boolean_reparse.
  - unfold fmap, option_fmap, option_map. by rewrite revive_reparse_date.
  - by apply optional_string_reparse.
Qed.

Lemma survives_reading_put (fs : list (string * value)) (k : string) (v : value) :
  k <> "messages" ->
  survives_reading (VObj (put k v fs)) = survives_reading (VObj fs).
Proof. intros Hk. unfold survives_reading. simpl. by rewrite assoc_put_ne. Qed.

(** One toggle of a task whose creation time is a valid date: it succeeds,
    and the task then found under the identifier has the flag flipped and
    the same creation time. *)
Lemma toggle_once (id : string) st (fs : list (string * value)) (b : bool) (t : time) :
  getTask st id = Some (VObj fs) ->
  assoc "completed" fs = Some (VBool b) ->
  assoc "createdAt" fs = Some (VDate (Some t)) ->
  exists st1 fs1,
    toggleTaskCompletion id st = Ok st1 /\
    getTask st1 id = Some (VObj fs1) /\
    assoc "completed" fs1 = Some (VBool (negb b)) /\
    assoc "createdAt" fs1 = Some (VDate (Some t)).
Proof.
  intros Hget Hb Hc.
  set (fs' := put "completed" (VBool (negb b)) fs).
  assert (Hfind : exists i,
             findIndex (fun x => strict_eq (field x "id") (Some (VStr id))) (getTasks st) = Some i
             /\ getTasks st !! i = Some (VObj fs) /\ assoc "id" fs = Some (VStr id)).
  { unfold getTask in Hget. rewrite find_findIndex in Hget.
    destruct (findIndex _ (getTasks st)) as [i|] eqn:Hi; [|done]. simpl in Hget.
    exists i. split_and!; [done..|].
    apply findIndex_Some in Hi as (x & Hx & Hp & _).
    rewrite Hget in Hx. injection Hx as <-. by apply strict_eq_string in Hp. }
  destruct Hfind as (i & Hi & Hx & Hid).
  assert (Hvalid : validateTask (VObj fs) = true).
  { pose proof (getTasks_valid st) as Hall. rewrite Forall_forall in Hall.
    apply Hall. by eapply list_elem_of_lookup_2. }
  assert (Hfrom : from_store (VObj fs)).
  { pose proof (records_from_store Tasks st) as Hall. rewrite Forall_forall in Hall.
    apply Hall. by eapply list_elem_of_lookup_2. }
  exists (setItem st TASKS (VArr (<[i := VObj fs']> (getTasks st)))).
  assert (Hobj : exists fs1, reread (VObj fs') = VObj fs1).
  { rewrite reread_object. by eexists. }
  destruct Hobj as [fs1 Hfs1]. exists fs1.
  split_and!.
  - unfold toggleTaskCompletion. rewrite Hget, Hb. simpl. fold fs'.
    unfold updateTask. unfold fs' at 1. rewrite assoc_put_ne by done.
    by rewrite Hid, Hi.
  - unfold getTask.
    change (getTasks (setItem st TASKS (VArr (<[i := VObj fs']> (getTasks st)))))
      with (records Tasks (setItem st (key Tasks) (VArr (<[i := VObj fs']> (getTasks st))))).
    rewrite records_after_write.
    + rewrite <- Hfs1. apply (find_after_reread validateTask _ id i).
      * apply Forall_insert; [apply tasks_have_ids|].
        exists id. unfold fs'. simpl. by rewrite assoc_put_ne.
      * apply findIndex_insert; [done|]. unfold fs'. simpl.
        rewrite assoc_put_ne by done. rewrite Hid. simpl. apply String.eqb_refl.
      * apply list_lookup_insert_eq. by eapply lookup_lt_Some.
      * apply (validateTask_reread _ t).
        -- by apply validateTask_put_completed.
        -- unfold fs'. by rewrite assoc_put_ne.
    + apply Forall_insert.
      * eapply Forall_impl; [apply (records_from_store Tasks st)|].
        apply from_store_survives.
      * unfold fs'. rewrite survives_reading_put by done. by apply from_store_survives.
  - change (field (VObj fs1) "completed" = Some (VBool (negb b))).
    rewrite <- Hfs1, field_reread_plain by (by repeat split).
    unfold fs'. by rewrite assoc_put_eq.
  - change (field (VObj fs1) "createdAt" = Some (VDate (Some t))).
    rewrite <- Hfs1, field_reread_createdAt.
    unfold fs'. rewrite assoc_put_ne by done. rewrite Hc.
    unfold fmap, option_fmap, option_map. by rewrite revive_reparse_date.
Qed.

(** For every task found under an identifier whose creation time is a
    valid date, two consecutive [toggleTaskCompletion] calls on the
    identifier succeed; the task found under the identifier has its flag
    flipped after the first and back at its original value after the
    second. *)
Lemma toggle_twice (id : string) st (task : value) (t : time) :
  getTask st id = Some task ->
  field task "createdAt" = Some (VDate (Some t)) ->
  exists (b : bool) st1 st2 task1 task2,
    field task "completed" = Some (VBool b) /\
    toggleTaskCompletion id st = Ok st1 /\
    getTask st1 id = Some task1 /\
    field task1 "completed" = Some (VBool (negb b)) /\
    toggleTaskCompletion id st1 = Ok st2 /\
    getTask st2 id = Some task2 /\
    field task2 "completed" = Some (VBool b).
Proof.
  intros Hget Hc.
  assert (Hvalid : validateTask task = true).
  { pose proof (getTasks_valid st) as Hall. rewrite Forall_forall in Hall.
    apply Hall. unfold getTask in Hget. apply find_some in Hget as [Hin _].
    by apply list_elem_of_In. }
  apply validateTask_object in Hvalid as (fs & s & b & -> & _ & Hb).
  simpl in Hc.
  destruct (toggle_once id st fs b t Hget Hb Hc) as (st1 & fs1 & Ht1 & Hg1 & Hb1 & Hc1).
  destruct (toggle_once id st1 fs1 (negb b) t Hg1 Hb1 Hc1) as (st2 & fs2 & Ht2 & Hg2 & Hb2 & _).
  rewrite negb_involutive in Hb2.
  by exists b, st1, st2, (VObj fs1), (VObj fs2).
Qed.

(** Where identifiers are distinct, a task that is found again after it
    was toggled has a creation time that is a valid date: with the Invalid
    Date, printed as [null], it would have been dropped by the read, and no
    other task carries its identifier. *)
Lemma toggled_task_found (id : string) st (fs : list (string * value)) (b : bool)
    st1 (task1 : value) :
  NoDup (ids (getTasks st)) ->
  getTask st id = Some (VObj fs) ->
  assoc "completed" fs = Some (VBool b) ->
  toggleTaskCompletion id st = Ok st1 ->
  getTask st1 id = Some task1 ->
  exists t, assoc "createdAt" fs = Some (VDate (Some t)).
Proof.
  intros Hnd Hget Hb Htoggle Hget1.
  set (fs' := put "completed" (VBool (negb b)) fs).
  assert (Hfind : exists i,
             findIndex (fun x => strict_eq (field x "id") (Some (VStr id))) (getTasks st) = Some i
             /\ getTasks st !! i = Some (VObj fs) /\ assoc "id" fs = Some (VStr id)).
  { unfold getTask in Hget. rewrite find_findIndex in Hget.
    destruct (findIndex _ (getTasks st)) as [i|] eqn:Hi; [|done]. simpl in Hget.
    exists i. split_and!; [done..|].
    apply findIndex_Some in Hi as (x & Hx & Hp & _).
    rewrite Hget in Hx. injection Hx as <-. by apply strict_eq_string in Hp. }
  destruct Hfind as (i & Hi & Hx & Hid).
  assert (Hvalid : validateTask (VObj fs) = true).
  { pose proof (getTasks_valid st) as Hall. rewrite Forall_forall in Hall.
    apply Hall. by eapply list_elem_of_lookup_2. }
  assert (Hst1 : st1 = setItem st (key Tasks) (VArr (<[i := VObj fs']> (getTasks st)))).
  { unfold toggleTaskCompletion in Htoggle. rewrite Hget, Hb in Htoggle. simpl in Htoggle.
    fold fs' in Htoggle. unfold updateTask in Htoggle. unfold fs' in Htoggle at 1.
    rewrite assoc_put_ne in Htoggle by done. rewrite Hid, Hi in Htoggle.
    by injection Htoggle as <-. }
  set (l' := <[i := VObj fs']> (getTasks st)) in *.
  assert (Hids' : ids l' = ids (getTasks st)).
  { unfold ids, l'. rewrite list_fmap_insert. apply list_insert_id.
    rewrite list_lookup_fmap, Hx. simpl. unfold fs'. by rewrite assoc_put_ne. }
  assert (Hhave : Forall (fun y => exists s, field y "id" = Some (VStr s)) l').
  { apply Forall_insert; [apply tasks_have_ids|].
    exists id. unfold fs'. simpl. by rewrite assoc_put_ne. }
  unfold getTask in Hget1. rewrite Hst1 in Hget1.
  change (getTasks ?s) with (records Tasks s) in Hget1.
  rewrite records_after_write in Hget1.
  2:{ apply Forall_insert.
      - eapply Forall_impl; [apply (records_from_store Tasks st)|].
        apply from_store_survives.
      - unfold fs'. rewrite survives_reading_put by done. apply from_store_survives.
        pose proof (records_from_store Tasks st) as Hall. rewrite Forall_forall in Hall.
        apply Hall. by eapply list_elem_of_lookup_2. }
  apply find_some in Hget1 as [Hin Hp].
  apply filter_In in Hin as [Hin Hv1].
  apply in_map_iff in Hin as (y & <- & Hy).
  apply list_elem_of_In, list_elem_of_lookup in Hy as [j Hj].
  assert (Hyid : field y "id" = Some (VStr id)).
  { rewrite Forall_forall in Hhave.
    destruct (Hhave y (list_elem_of_lookup_2 _ _ _ Hj)) as [s Hs].
    rewrite (field_id_reread y s Hs) in Hp. apply strict_eq_string in Hp.
    by rewrite Hs, Hp. }
  assert (Hji : j = i).
  { rewrite <- Hids' in Hnd. apply (NoDup_lookup (ids l') j i (Some (VStr id)) Hnd).
    - unfold ids. rewrite list_lookup_fmap, Hj. simpl. by rewrite Hyid.
    - unfold ids, l'. rewrite list_lookup_fmap.
      rewrite list_lookup_insert_eq by (by eapply lookup_lt_Some).
      simpl. unfold fs'. rewrite assoc_put_ne by done. by rewrite Hid. }
  subst j. unfold l' in Hj.
  rewrite list_lookup_insert_eq in Hj by (by eapply lookup_lt_Some).
  injection Hj as <-. cbn [validator] in Hv1.
  unfold validateTask in Hv1, Hvalid. rewrite !andb_true_iff in Hv1, Hvalid.
  destruct_and!.
  match goal with
  | Hd : instanceof_Date (field (reread (VObj fs')) "createdAt") = true |- _ =>
      rewrite field_reread_createdAt in Hd; unfold fs' in Hd;
      rewrite assoc_put_ne in Hd by done; rename Hd into Hdate
  end.
  match goal with
  | Hd : instanceof_Date (field (VObj fs) "createdAt") = true |- _ =>
      cbn [field] in Hd; rename Hd into Hdate0
  end.
  destruct (assoc "createdAt" fs) as [[| | | | [t|] | |]|]; try done.
  by exists t.
Qed.

(** C8. Toggling is an involution on the flag. Where no two tasks carry
    the same identifier, as the data model has it, two consecutive
    successful [toggleTaskCompletion] calls on the identifier of a task that
    is present leave, under that identifier, a task whose [completed] flag
    is the one the task had at the start. *)
Theorem toggle_twice_restores_completed (id : string) st :
  NoDup (ids (getTasks st)) -> toggle_is_involution st id.
Proof.
  intros Hnd task st1 st2 Hget Htoggle1 Htoggle2.
  assert (Hvalid : validateTask task = true).
  { pose proof (getTasks_valid st) as Hall. rewrite Forall_forall in Hall.
    apply Hall. unfold getTask in Hget. apply find_some in Hget as [Hin _].
    by apply list_elem_of_In. }
  apply validateTask_object in Hvalid as (fs & s & b & -> & _ & Hb).
  assert (Hfound : exists task1, getTask st1 id = Some task1).
  { unfold toggleTaskCompletion in Htoggle2.
    destruct (getTask st1 id) as [task1|]; [by eexists|done]. }
  destruct Hfound as [task1 Hget1].
  destruct (toggled_task_found id st fs b st1 task1 Hnd Hget Hb Htoggle1 Hget1) as [t Hc].
  destruct (toggle_twice id st (VObj fs) t Hget Hc)
    as (b' & st1' & st2' & t1 & t2 & Hb' & Ht1 & _ & _ & Ht2 & Hg2 & Hb2).
  cbn [field] in Hb'. rewrite Hb in Hb'. injection Hb' as <-.
  rewrite Htoggle1 in Ht1. injection Ht1 as <-.
  rewrite Htoggle2 in Ht2. injection Ht2 as <-.
  exists t2. split; [done|]. cbn [field]. by rewrite Hb2, Hb.
Qed.

(** ** [exportData], [clearData], [importData] *)

Lemma validateMessage_object (m : value) :
  validateMessage m = true -> exists fs, m = VObj fs.
Proof. destruct m; try done. by eexists. Qed.

(** A valid message whose timestamp is a valid date is valid again once
    written and read back. *)
Lemma validateMessage_reread (m : value) :
  validateMessage m = true ->
  valid_date (field m "timestamp") = true ->
  validateMessage (revive_message (reparse m)) = true.
Proof.
  intros Hv Ht. destruct (validateMessage_object m Hv) as [fs ->].
  rewrite reparse_object. unfold validateMessage in *. simpl in Ht.
  destruct (assoc "timestamp" fs) as [[| | | |[t|]| |]|] eqn:E; try done.
  rewrite !andb_true_iff in Hv. destruct_and!.
  rewrite !andb_true_iff. cbn [revive_message field].
  rewrite assoc_alter_eq, !assoc_alter_ne by done. rewrite !(assoc_map reparse), E.
  split_and!; try done.
  - by apply is_type_string_reparse.
  - by apply is_type_string_reparse.
  - by apply is_type_boolean_reparse.
  - unfold fmap, option_fmap, option_map. by rewrite revive_reparse_date.
  - by apply is_type_string_reparse.
Qed.

(** A valid conversation whose dates are valid is valid again once written
    and read back, with as many messages. *)
Lemma validateChat_reread (chat : value) :
  validateChat chat = true ->
  chat_dates_ok chat = true ->
  validateChat (reread chat) = true /\ message_count (reread chat) = message_count chat.
Proof.
  intros Hv Hd.
  destruct (validateChat_object chat Hv) as (fs & id & ms & -> & Hid & Hm).
  unfold chat_dates_ok in Hd. simpl in Hd. rewrite Hm in Hd.
  apply andb_true_iff in Hd as [Hl Hts].
  destruct (assoc "lastMessageTime" fs) as [[| | | |[t|]| |]|] eqn:El; try done.
  assert (Hms : field (reread (VObj fs)) "messages"
                = Some (VArr (map (fun m => revive_message (reparse m)) ms))).
  { rewrite field_reread_messages, Hm. simpl. unfold reparse at 1. simpl.
    by rewrite !map_map. }
  split.
  - unfold validateChat in *.
    rewrite !andb_true_iff in Hv. destruct_and!.
    rewrite Hms, field_reread_lastMessageTime, El, !field_reread_plain by (by repeat split).
    rewrite !andb_true_iff. split_and!; try done.
    + by apply is_type_string_reparse.
    + by apply is_type_string_reparse.
    + by apply is_type_string_reparse.
    + unfold fmap, option_fmap, option_map. by rewrite revive_reparse_date.
    + simpl in *. rewrite Hm in *.
      apply forallb_forall. intros y Hy. apply in_map_iff in Hy as (m & <- & Hin).
      apply validateMessage_reread.
      * match goal with Hall : forallb validateMessage ms = true |- _ =>
          by eapply forallb_forall in Hall end.
      * by eapply forallb_forall in Hts.
  - unfold message_count. rewrite Hms. simpl. rewrite Hm. by rewrite length_map.
Qed.

(** ** [addMessage], as [getChat] sees it *)

Lemma valid_date_reread_message (m : value) :
  validateMessage m = true ->
  valid_date (field m "timestamp") = true ->
  valid_date (field (revive_message (reparse m)) "timestamp") = true.
Proof.
  intros Hv Ht. destruct (validateMessage_object m Hv) as [fs ->].
  rewrite reparse_object. simpl in *.
  rewrite assoc_alter_eq, (assoc_map reparse).
  destruct (assoc "timestamp" fs) as [[| | | |[t|]| |]|]; try done.
  unfold fmap, option_fmap, option_map. by rewrite revive_reparse_date.
Qed.

Lemma validateChat_messages (chat : list (string * value)) (ms : list value) :
  validateChat (VObj chat) = true ->
  assoc "messages" chat = Some (VArr ms) ->
  forallb validateMessage ms = true.
Proof.
  unfold validateChat. simpl. intros Hv Hm. rewrite Hm in Hv.
  rewrite !andb_true_iff in Hv. by destruct_and!.
Qed.

(** The conversation [addMessage] writes is a valid conversation. *)
Lemma validateChat_with_message (chat : list (string * value)) (ms : list value)
    (msg : value) (text : string) (d : option time) :
  validateChat (VObj chat) = true ->
  assoc "messages" chat = Some (VArr ms) ->
  validateMessage msg = true ->
  validateChat (VObj (put "lastMessageTime" (VDate d)
                        (put "lastMessage" (VStr text)
                           (put "messages" (VArr (ms ++ [msg])) chat)))) = true.
Proof.
  intros Hv Hm Hmsg. pose proof (validateChat_messages chat ms Hv Hm) as Hms.
  unfold validateChat in *. simpl in *.
  repeat (rewrite assoc_put_eq || rewrite assoc_put_ne by done).
  rewrite !andb_true_iff in Hv. destruct_and!.
  rewrite !andb_true_iff. split_and!; try done.
  rewrite forallb_app, Hms. simpl. by rewrite Hmsg.
Qed.

(** One [addMessage] with a valid timestamp on a conversation whose
    messages carry valid timestamps: it succeeds, and [getChat] then
    returns the conversation with the message appended and mirrored. *)
Lemma addMessage_once (id chatId : string) (md : messageData) (t : time) st
    (chat : list (string * value)) (ms : list value) :
  getChat st chatId = Some (VObj chat) ->
  assoc "messages" chat = Some (VArr ms) ->
  messages_dates_ok ms = true ->
  md_timestamp md = Some t ->
  exists st' chat' ms',
    addMessage id chatId md st = Ok (newMessage id chatId md, st') /\
    getChat st' chatId = Some (VObj chat') /\
    assoc "lastMessage" chat' = Some (VStr (md_text md)) /\
    assoc "lastMessageTime" chat' = Some (VDate (Some t)) /\
    assoc "messages" chat' = Some (VArr (ms' ++ [newMessage id chatId md])) /\
    length ms' = length ms /\
    messages_dates_ok (ms' ++ [newMessage id chatId md]) = true.
Proof.
  intros Hget Hm Hdates Ht.
  set (msg := newMessage id chatId md).
  set (chat3 := put "lastMessageTime" (VDate (md_timestamp md))
                  (put "lastMessage" (VStr (md_text md))
                     (put "messages" (VArr (ms ++ [msg])) chat))).
  assert (Hfind : exists i,
             findIndex (fun x => strict_eq (field x "id") (Some (VStr chatId))) (getChats st)
             = Some i
             /\ getChats st !! i = Some (VObj chat) /\ assoc "id" chat = Some (VStr chatId)).
  { unfold getChat in Hget. rewrite find_findIndex in Hget.
    destruct (findIndex _ (getChats st)) as [i|] eqn:Hi; [|done]. simpl in Hget.
    exists i. split_and!; [done..|].
    apply findIndex_Some in Hi as (x & Hx & Hp & _).
    rewrite Hget in Hx. injection Hx as <-. by apply strict_eq_string in Hp. }
  destruct Hfind as (i & Hi & Hx & Hid).
  assert (Hvalid : validateChat (VObj chat) = true).
  { pose proof (getChats_valid st) as Hall. rewrite Forall_forall in Hall.
    apply Hall. by eapply list_elem_of_lookup_2. }
  assert (Hfrom : from_store (VObj chat)).
  { pose proof (records_from_store Chats st) as Hall. rewrite Forall_forall in Hall.
    apply Hall. by eapply list_elem_of_lookup_2. }
  pose proof (validateChat_messages chat ms Hvalid Hm) as Hms.
  assert (Hid3 : assoc "id" chat3 = Some (VStr chatId)).
  { unfold chat3. by rewrite !assoc_put_ne. }
  assert (Hm3 : assoc "messages" chat3 = Some (VArr (ms ++ [msg]))).
  { unfold chat3. rewrite !assoc_put_ne by done. by rewrite assoc_put_eq. }
  assert (Hvalid3 : validateChat (reread (VObj chat3)) = true
                    /\ message_count (reread (VObj chat3)) = message_count (VObj chat3)).
  { apply validateChat_reread.
    - by apply validateChat_with_message.
    - unfold chat_dates_ok. cbn [field]. rewrite Hm3.
      unfold chat3 at 1. rewrite assoc_put_eq, Ht.
      unfold messages_dates_ok in Hdates. rewrite forallb_app, Hdates. simpl.
      by rewrite Ht. }
  destruct Hvalid3 as [Hvalid3 _].
  assert (Hobj : exists chat', reread (VObj chat3) = VObj chat').
  { rewrite reread_object. by eexists. }
  destruct Hobj as [chat' Hchat'].
  exists (setItem st CHATS (VArr (<[i := VObj chat3]> (getChats st)))), chat',
         (map (fun m => revive_message (reparse m)) ms).
  split_and!.
  - unfold addMessage. rewrite Hget, Hm. fold msg chat3.
    unfold updateChat. by rewrite Hid3, Hi.
  - unfold getChat.
    change (getChats (setItem st CHATS (VArr (<[i := VObj chat3]> (getChats st)))))
      with (records Chats (setItem st (key Chats) (VArr (<[i := VObj chat3]> (getChats st))))).
    rewrite records_after_write.
    + rewrite <- Hchat'. apply (find_after_reread validateChat _ chatId i).
      * apply Forall_insert; [apply chats_have_ids|]. by exists chatId.
      * apply findIndex_insert; [done|]. simpl. rewrite Hid3. simpl. apply String.eqb_refl.
      * apply list_lookup_insert_eq. by eapply lookup_lt_Some.
      * done.
    + apply Forall_insert.
      * eapply Forall_impl; [apply (records_from_store Chats st)|].
        apply from_store_survives.
      * pose proof (from_store_survives _ Hfrom) as Hs.
        unfold survives_reading in *. simpl in *. rewrite Hm in Hs. rewrite Hm3.
        by rewrite forallb_app, Hs.
  - change (field (VObj chat') "lastMessage" = Some (VStr (md_text md))).
    rewrite <- Hchat', field_reread_plain by (by repeat split).
    unfold chat3. rewrite assoc_put_ne by done. by rewrite assoc_put_eq.
  - change (field (VObj chat') "lastMessageTime" = Some (VDate (Some t))).
    rewrite <- Hchat', field_reread_lastMessageTime.
    unfold chat3. rewrite assoc_put_eq, Ht.
    unfold fmap, option_fmap, option_map. by rewrite revive_reparse_date.
  - change (field (VObj chat') "messages"
            = Some (VArr (map (fun m => revive_message (reparse m)) ms ++ [msg]))).
    rewrite <- Hchat', field_reread_messages, Hm3.
    unfold fmap, option_fmap, option_map. unfold reparse at 1. simpl.
    rewrite !map_map, map_app. simpl.
    rewrite Ht. simpl. rewrite toISOString_nonempty, Date_parse_toISOString.
    unfold msg, newMessage. by rewrite Ht.
  - by rewrite length_map.
  - unfold messages_dates_ok in *. rewrite forallb_app. apply andb_true_iff. split.
    + apply forallb_forall. intros y Hy. apply in_map_iff in Hy as (m & <- & Hin).
      apply valid_date_reread_message.
      * by eapply forallb_forall in Hms.
      * by eapply forallb_forall in Hdates.
    + simpl. by rewrite Ht.
Qed.

Lemma getChat_object st (chatId : string) (chat : value) :
  getChat st chatId = Some chat ->
  exists fs ms, chat = VObj fs /\ assoc "messages" fs = Some (VArr ms).
Proof.
  unfold getChat. intros Hfind. apply find_some in Hfind as [Hin _].
  pose proof (getChats_valid st) as Hall. rewrite Forall_forall in Hall.
  apply list_elem_of_In, Hall, validateChat_object in Hin
    as (fs & _ & ms & -> & _ & Hm).
  by exists fs, ms.
Qed.

(** A run of [addMessage] calls with valid timestamps succeeds and grows
    the conversation by one message per call. *)
Lemma addMessages_run (chatId : string) (calls : list (string * messageData)) st
    (chat : list (string * value)) (ms : list value) :
  getChat st chatId = Some (VObj chat) ->
  assoc "messages" chat = Some (VArr ms) ->
  messages_dates_ok ms = true ->
  Forall (fun call => md_timestamp call.2 <> None) calls ->
  exists st' chat' ms',
    addMessages chatId calls st = Ok st' /\
    getChat st' chatId = Some (VObj chat') /\
    assoc "messages" chat' = Some (VArr ms') /\
    length ms' = length ms + length calls /\
    messages_dates_ok ms' = true.
Proof.
  intros Hget Hm Hd Hcalls. revert st chat ms Hget Hm Hd.
  induction Hcalls as [|[id md] calls Hmd _ IH]; intros st chat ms Hget Hm Hd.
  - exists st, chat, ms. simpl. split_and!; [done..|lia|done].
  - simpl in Hmd. destruct (md_timestamp md) as [t|] eqn:Ht; [|done].
    destruct (addMessage_once id chatId md t st chat ms Hget Hm Hd Ht)
      as (st1 & chat1 & ms1 & Hadd & Hget1 & _ & _ & Hm1 & Hlen1 & Hd1).
    destruct (IH st1 chat1 _ Hget1 Hm1 Hd1) as (st' & chat' & ms' & Hrun & ? & ? & Hlen & ?).
    exists st', chat', ms'. simpl. rewrite Hadd. simpl.
    split_and!; [done..| |done].
    rewrite Hlen, length_app, Hlen1. simpl. lia.
Qed.

Lemma addMessages_app (chatId : string) (calls calls' : list (string * messageData)) st st0 :
  addMessages chatId calls st = Ok st0 ->
  addMessages chatId (calls ++ calls') st = addMessages chatId calls' st0.
Proof.
  revert st. induction calls as [|[id md] calls IH]; intros st; simpl.
  - by intros [= <-].
  - destruct (addMessage id chatId md st) as [r|]; simpl; [|done]. apply IH.
Qed.

(** X1. On a conversation that [getChat] finds and whose messages carry
    valid timestamps, a run of [addMessage] calls with valid timestamps
    succeeds, and [getChat] then returns the conversation with the last
    call's message at the end of its messages, that message's text as
    [lastMessage], its timestamp as [lastMessageTime], and one more
    message per call. *)
Theorem addMessages_then_getChat (chatId : string) (calls : list (string * messageData))
    (id : string) (md : messageData) (t : time) st (chat : value) :
  getChat st chatId = Some chat ->
  (forall ms, field chat "messages" = Some (VArr ms) -> messages_dates_ok ms = true) ->
  Forall (fun call => md_timestamp call.2 <> None) calls ->
  md_timestamp md = Some t ->
  exists st' chat' ms,
    addMessages chatId (calls ++ [(id, md)]) st = Ok st' /\
    getChat st' chatId = Some chat' /\
    field chat' "messages" = Some (VArr (ms ++ [newMessage id chatId md])) /\
    field chat' "lastMessage" = Some (VStr (md_text md)) /\
    field chat' "lastMessageTime" = Some (VDate (Some t)) /\
    message_count chat' = message_count chat + length calls + 1.
Proof.
  intros Hget Hd Hcalls Ht.
  destruct (getChat_object st chatId chat Hget) as (fs & ms & -> & Hm).
  specialize (Hd ms Hm).
  destruct (addMessages_run chatId calls st fs ms Hget Hm Hd Hcalls)
    as (st0 & chat0 & ms0 & Hrun & Hget0 & Hm0 & Hlen0 & Hd0).
  destruct (addMessage_once id chatId md t st0 chat0 ms0 Hget0 Hm0 Hd0 Ht)
    as (st' & chat' & ms' & Hadd & Hget' & Hlm & Hlmt & Hm' & Hlen' & _).
  exists st', (VObj chat'), ms'.
  split_and!; try done.
  - rewrite (addMessages_app chatId calls _ st st0 Hrun). simpl. by rewrite Hadd.
  - unfold message_count. simpl. rewrite Hm', Hm, length_app, Hlen', Hlen0. simpl. lia.
Qed.

Lemma survives_reading_reparse (x : value) :
  survives_reading (reparse x) = survives_reading x.
Proof.
  pose proof (rehydrate_throws_reparse x) as H1.
  pose proof (rehydrate_throws_reparse (reparse x)) as H2.
  rewrite reparse_reparse, H1 in H2.
  by destruct (survives_reading x), (survives_reading (reparse x)).
Qed.

Lemma reread_reparse (x : value) : reread (reparse x) = reread x.
Proof. unfold reread. by rewrite reparse_reparse. Qed.

(** A collection is a function of what the store holds under its key. *)
Lemma records_ext (c : collection) st st' :
  st !! key c = st' !! key c -> records c st = records c st'.
Proof. intros E. rewrite !records_unfold. unfold getItem. by rewrite E. Qed.

Lemma records_absent (c : collection) st : st !! key c = None -> records c st = [].
Proof. intros E. rewrite records_unfold. unfold getItem. by rewrite E. Qed.

(** The collection read after the export of [l] was imported. *)
Lemma records_after_import (c : collection) st (l : list value) :
  Forall from_store l ->
  Forall (fun x => validator c (reread x) = true) l ->
  records c (setItem st (key c) (VArr (map reparse l))) = map reread l.
Proof.
  intros Hfrom Hvalid. rewrite records_after_write.
  - rewrite map_map. rewrite (map_ext _ reread) by apply reread_reparse.
    apply filter_all. apply Forall_forall. intros y Hy.
    apply list_elem_of_fmap in Hy as (x & -> & Hx).
    rewrite Forall_forall in Hvalid. by apply Hvalid.
  - apply Forall_forall. intros y Hy.
    apply list_elem_of_fmap in Hy as (x & -> & Hx).
    rewrite survives_reading_reparse. apply from_store_survives.
    rewrite Forall_forall in Hfrom. by apply Hfrom.
Qed.

(** C3, amended. On every store that holds a valid profile, and whose
    conversations and tasks carry valid dates, [exportData] returns a
    document; after [clearData], which empties both collections,
    [importData] of that document succeeds and restores the number of
    conversations, the number of tasks, and the number of messages of
    every conversation. *)
Theorem export_clear_import_restores_counts (fuel : nat) (now : time) st :
  validateUserProfile (getItem st USER_PROFILE) = true ->
  Forall (fun chat => chat_dates_ok chat = true) (getChats st) ->
  Forall (fun task => task_dates_ok task = true) (getTasks st) ->
  exists exported st',
    exportData (S fuel) now st = Some (exported, st) /\
    getChats (clearData st) = [] /\ getTasks (clearData st) = [] /\
    importData exported (clearData st) = Ok st' /\
    length (getChats st') = length (getChats st) /\
    length (getTasks st') = length (getTasks st) /\
    map message_count (getChats st') = map message_count (getChats st).
Proof.
  intros Hprofile Hchats Htasks.
  set (profile := getItem st USER_PROFILE) in *.
  assert (Hp : reparse profile = profile).
  { unfold profile. destruct (getItem_of_json st USER_PROFILE) as [j ->].
    apply reparse_of_json. }
  assert (Htruthy : truthy (Some profile) = true) by (by destruct profile).
  set (chats := getChats st). set (tasks := getTasks st).
  set (st0 := clearData st).
  set (st' := setItem (setItem (setItem st0 CHATS (VArr (map reparse chats)))
                         TASKS (VArr (map reparse tasks))) USER_PROFILE profile).
  assert (Hc' : getChats st' = map reread chats).
  { change (getChats st') with (records Chats st').
    rewrite (records_ext Chats st' (setItem st0 (key Chats) (VArr (map reparse chats)))).
    - apply records_after_import; [apply (records_from_store Chats st)|].
      apply Forall_forall. intros x Hx.
      apply validateChat_reread.
      + pose proof (getChats_valid st) as Hall. rewrite Forall_forall in Hall. by apply Hall.
      + rewrite Forall_forall in Hchats. by apply Hchats.
    - unfold st', setItem.
      rewrite (lookup_insert_ne _ USER_PROFILE (key Chats)) by done.
      by rewrite (lookup_insert_ne _ TASKS (key Chats)). }
  assert (Ht' : getTasks st' = map reread tasks).
  { change (getTasks st') with (records Tasks st').
    rewrite (records_ext Tasks st' (setItem (setItem st0 CHATS (VArr (map reparse chats)))
                                     (key Tasks) (VArr (map reparse tasks)))).
    - apply records_after_import; [apply (records_from_store Tasks st)|].
      apply Forall_forall. intros x Hx.
      pose proof (getTasks_valid st) as Hall. rewrite Forall_forall in Hall.
      specialize (Hall x Hx).
      rewrite Forall_forall in Htasks. specialize (Htasks x Hx).
      destruct (validateTask_object x Hall) as (fs & id & b & -> & _ & _).
      unfold task_dates_ok, valid_date in Htasks. simpl in Htasks.
      destruct (assoc "createdAt" fs) as [[| | | |[t|]| |]|] eqn:E; try done.
      exact (validateTask_reread fs t Hall E).
    - unfold st', setItem.
      by rewrite (lookup_insert_ne _ USER_PROFILE (key Tasks)). }
  eexists. exists st'. split_and!.
  - unfold exportData. rewrite (getProfile_valid fuel st Hprofile). reflexivity.
  - apply (records_absent Chats).
    unfold st0, clearData, clearAllTasks, clearAllChats, removeItem.
    rewrite !lookup_delete_ne by done. apply lookup_delete_eq.
  - apply (records_absent Tasks).
    unfold st0, clearData, clearAllTasks, clearAllChats, removeItem.
    rewrite !lookup_delete_ne by done. apply lookup_delete_eq.
  - unfold importData, JSON_stringify. simpl.
    fold chats tasks profile st0.
    change (of_json (toJSON profile)) with (reparse profile). rewrite Hp, Hprofile.
    change (match profile with
            | VNull => false
            | VBool b => b
            | VNum x => negb (PrimFloat.is_nan x) && negb (PrimFloat.is_zero x)
            | VStr s => nonempty s
            | _ => true
            end) with (truthy (Some profile)).
    rewrite Htruthy. simpl. by rewrite !map_map.
  - rewrite Hc'. by rewrite length_map.
  - rewrite Ht'. by rewrite length_map.
  - rewrite Hc', map_map. apply map_ext_in. intros x Hx.
    apply validateChat_reread.
    + pose proof (getChats_valid st) as Hall. rewrite Forall_forall in Hall.
      apply Hall. by apply list_elem_of_In.
    + rewrite Forall_forall in Hchats. apply Hchats. by apply list_elem_of_In.
Qed.

(** ** [getTaskStats] *)



Lemma getTaskStats_unfold st :
  getTaskStats st =
  let t := Z.of_nat (length (getTasks st)) in
  let c := Z.of_nat (length (List.filter (fun task => truthy (field task "completed"))
                               (getTasks st))) in
  {| total := t; completed := c; pending := (t - c)%Z; completionRate := computed_rate c t |}.
Proof. reflexivity. Qed.

(** The tasks counted as completed are those whose flag is [true]. *)
Lemma completed_filter st :
  List.filter (fun task => truthy (field task "completed")) (getTasks st)
  = List.filter (fun task => strict_eq (field task "completed") (Some (VBool true)))
      (getTasks st).
Proof.
  apply filter_ext_in. intros x Hx.
  pose proof (getTasks_valid st) as Hall. rewrite Forall_forall in Hall.
  apply list_elem_of_In, Hall in Hx.
  destruct (validateTask_object x Hx) as (fs & s & b & -> & _ & Hb).
  simpl. rewrite Hb. by destruct b.
Qed.


(** ** [createTask], then [getTaskStats] *)

Lemma reread_new_task (id : string) (now : time) (td : taskData) st :
  let task := (createTask id now td st).1 in
  survives_reading task = true /\ reread task = task /\ validateTask task = true.
Proof.
  destruct td as [title [description|] flag [fromChatId|]]; simpl;
    (split_and!; [done| |done]);
    rewrite reread_object; simpl; unfold reparse; simpl;
    by rewrite toISOString_nonempty, Date_parse_toISOString.
Qed.

(** When the tasks read are read back unchanged, [createTask] puts the
    new task in front of them. *)
Lemma createTask_then_getTasks (id : string) (now : time) (td : taskData) st :
  Forall (fun task => reread task = task) (getTasks st) ->
  getTasks (createTask id now td st).2 = (createTask id now td st).1 :: getTasks st.
Proof.
  intros Hfix.
  destruct (reread_new_task id now td st) as (Hs & Hre & Hvalid).
  set (task := (createTask id now td st).1) in *.
  change (getTasks (createTask id now td st).2)
    with (records Tasks (setItem st (key Tasks) (VArr (task :: getTasks st)))).
  rewrite records_after_write.
  - simpl. rewrite Hre. cbn [validator]. rewrite Hvalid. f_equal.
    assert (Hmap : map reread (getTasks st) = getTasks st).
    { clear -Hfix. induction Hfix as [|x l Hx _ IH]; simpl; [done|]. by rewrite Hx, IH. }
    rewrite Hmap. apply filter_all, getTasks_valid.
  - constructor; [done|].
    eapply Forall_impl; [apply (records_from_store Tasks st)|]. apply from_store_survives.
Qed.

(** X4. The scenario of the test suite. On a store with no task, three
    [createTask] calls with the flags false, true, true, whatever the
    identifiers, the clock readings and the other fields: [getTaskStats]
    then returns total 3, completed 2, pending 1, rate 66.67. *)
Theorem getTaskStats_after_three_createTask
    (id1 id2 id3 : string) (now1 now2 now3 : time) (td1 td2 td3 : taskData) st :
  getTasks st = [] ->
  td_completed td1 = false -> td_completed td2 = true -> td_completed td3 = true ->
  let st1 := (createTask id1 now1 td1 st).2 in
  let st2 := (createTask id2 now2 td2 st1).2 in
  let st3 := (createTask id3 now3 td3 st2).2 in
  getTaskStats st3
  = {| total := 3; completed := 2; pending := 1;
       completionRate := (Number 6667 / 100)%float |}.
Proof.
  intros Hempty H1 H2 H3 st1 st2 st3.
  assert (E1 : getTasks st1 = [(createTask id1 now1 td1 st).1]).
  { unfold st1. rewrite createTask_then_getTasks; rewrite Hempty; [done|constructor]. }
  assert (F1 : Forall (fun task => reread task = task) (getTasks st1)).
  { rewrite E1. constructor; [|constructor]. apply reread_new_task. }
  assert (E2 : getTasks st2 = (createTask id2 now2 td2 st1).1 :: getTasks st1).
  { unfold st2. by apply createTask_then_getTasks. }
  assert (F2 : Forall (fun task => reread task = task) (getTasks st2)).
  { rewrite E2. constructor; [|done]. apply reread_new_task. }
  assert (E3 : getTasks st3 = (createTask id3 now3 td3 st2).1 :: getTasks st2).
  { unfold st3. by apply createTask_then_getTasks. }
  rewrite getTaskStats_unfold, E3, E2, E1.
  assert (Hflag : forall id now td st0,
             truthy (field (createTask id now td st0).1 "completed") = td_completed td).
  { intros id now [title [d|] flag [f|]] st0; by destruct flag. }
  cbn [List.filter length]. rewrite !Hflag, H1, H2, H3.
  vm_compute. reflexivity.
Qed.

End Claims.

(** * Further properties of the services *)

Section SpreadFacts.
Context {A : Type}.

Implicit Types (k : string) (fs : list (string * A)).

Lemma assoc_app k fs gs :
  assoc k (fs ++ gs) = match assoc k fs with Some v => Some v | None => assoc k gs end.
Proof.
  induction fs as [|[k' v'] fs IH]; simpl; [done|].
  by destruct (String.eqb k k').
Qed.

Lemma assoc_None k fs : assoc k fs = None <-> k ∉ map fst fs.
Proof.
  induction fs as [|[k' v'] fs IH]; simpl.
  - split; [intros _; apply not_elem_of_nil | done].
  - rewrite not_elem_of_cons. destruct (String.eqb_spec k k') as [->|Hne].
    + split; [done|]. by intros [? _].
    + rewrite IH. split; [done|]. by intros [_ ?].
Qed.

Lemma assoc_rev k fs : NoDup (map fst fs) -> assoc k (rev fs) = assoc k fs.
Proof.
  induction fs as [|[k' v'] fs IH]; simpl; [done|].
  intros [Hk' Hfs]%NoDup_cons. rewrite assoc_app, (IH Hfs). simpl.
  destruct (String.eqb_spec k k') as [->|Hne].
  - apply assoc_None in Hk'. by rewrite Hk'.
  - by destruct (assoc k fs).
Qed.

Lemma keys_put k (v : A) fs :
  map fst (put k v fs)
  = match assoc k fs with Some _ => map fst fs | None => map fst fs ++ [k] end.
Proof.
  induction fs as [|[k' v'] fs IH]; simpl; [done|].
  destruct (String.eqb_spec k k') as [->|Hne]; simpl; [done|].
  rewrite IH. by destruct (assoc k fs).
Qed.

Lemma NoDup_put k (v : A) fs : NoDup (map fst fs) -> NoDup (map fst (put k v fs)).
Proof.
  intros Hfs. rewrite keys_put. destruct (assoc k fs) eqn:E; [done|].
  apply assoc_None in E. apply NoDup_app. split_and!; [done| |apply NoDup_singleton].
  intros x Hx ->%list_elem_of_singleton. done.
Qed.

Lemma map_put {B : Type} (g : A -> B) k (a : A) fs :
  map (fun kv => (kv.1, g kv.2)) (put k a fs) = put k (g a) (map (fun kv => (kv.1, g kv.2)) fs).
Proof.
  induction fs as [|[k' a'] fs IH]; simpl; [done|].
  destruct (String.eqb k k'); simpl; [done|]. by rewrite IH.
Qed.

(** An assignment followed by a guarded rewrite of a property. *)
Lemma alter_first_put (f : A -> A) k k' (a : A) fs :
  alter_first f k' (put k a fs)
  = put k (if String.eqb k' k then f a else a) (alter_first f k' fs).
Proof.
  induction fs as [|[k0 a0] fs IH]; simpl.
  - by destruct (String.eqb k' k).
  - destruct (String.eqb_spec k k0) as [->|Hne]; simpl.
    + destruct (String.eqb k' k0); simpl; by rewrite String.eqb_refl.
    + destruct (String.eqb_spec k' k0) as [->|Hne']; simpl.
      * destruct (String.eqb_spec k k0); [done|].
        by destruct (String.eqb_spec k0 k) as [->|].
      * destruct (String.eqb_spec k k0); [done|]. by rewrite IH.
Qed.

Lemma spread_snoc fs gs (kv : string * A) :
  spread fs (gs ++ [kv]) = put kv.1 kv.2 (spread fs gs).
Proof. unfold spread. by rewrite fold_left_app. Qed.

Lemma NoDup_spread fs gs : NoDup (map fst fs) -> NoDup (map fst (spread fs gs)).
Proof.
  intros Hfs. induction gs as [|kv gs IH] using rev_ind; [done|].
  rewrite spread_snoc. by apply NoDup_put.
Qed.

(** A spread reads as its second operand where that has the property,
    the last binding counting, and as the first elsewhere. *)
Lemma assoc_spread k fs gs :
  assoc k (spread fs gs)
  = match assoc k (rev gs) with Some v => Some v | None => assoc k fs end.
Proof.
  induction gs as [|[k' v'] gs IH] using rev_ind; [done|].
  rewrite spread_snoc, rev_app_distr. simpl.
  destruct (String.eqb_spec k k') as [->|Hne].
  - by rewrite assoc_put_eq.
  - by rewrite assoc_put_ne.
Qed.

End SpreadFacts.

Section Services.
Context `{JSDate}.

Implicit Types (st : store) (v : value).

(** ** Records that a trip through the store leaves unchanged *)

Lemma map_alter_first {A B : Type} (g : A -> B) (f : A -> A) (h : B -> B)
    (k : string) (fs : list (string * A)) :
  (forall a, assoc k fs = Some a -> g (f a) = h (g a)) ->
  map (fun kv => (kv.1, g kv.2)) (alter_first f k fs)
  = alter_first h k (map (fun kv => (kv.1, g kv.2)) fs).
Proof.
  induction fs as [|[k' a'] fs IH]; simpl; [done|].
  destruct (String.eqb k k') eqn:E; simpl; intros Hf.
  - by rewrite Hf.
  - by rewrite IH.
Qed.

Lemma assoc_of_json (k : string) (jf : list (string * json)) (v : value) :
  assoc k (map (fun kv => (kv.1, of_json kv.2)) jf) = Some v -> exists x, v = of_json x.
Proof.
  rewrite (assoc_map of_json). destruct (assoc k jf) as [x|]; simpl; [|done].
  intros [= <-]. by exists x.
Qed.

Lemma map_reparse_of_json (jf : list (string * json)) :
  map (fun kv => (kv.1, reparse kv.2)) (map (fun kv => (kv.1, of_json kv.2)) jf)
  = map (fun kv => (kv.1, of_json kv.2)) jf.
Proof.
  rewrite map_map. apply map_ext. intros [k x]. simpl. by rewrite reparse_of_json.
Qed.

(** A revived date that is valid is revived to itself after a trip. *)
Lemma revive_stable (x : json) :
  invalid_date (Some (revive (of_json x))) = false ->
  revive (reparse (revive (of_json x))) = revive (of_json x).
Proof.
  destruct x as [| | |s| |];
    try (intros _; change (revive (of_json ?y)) with (of_json y);
         by rewrite reparse_of_json).
  simpl. destruct (nonempty s) eqn:Hs; simpl.
  - destruct (Date_parse s) as [t|]; [|done]. intros _.
    unfold reparse. simpl. by rewrite toISOString_nonempty, Date_parse_toISOString.
  - intros _. unfold reparse. simpl. by rewrite Hs.
Qed.

Lemma revive_message_stable (x : json) :
  invalid_date (field (revive_message (of_json x)) "timestamp") = false ->
  revive_message (reparse (revive_message (of_json x))) = revive_message (of_json x).
Proof.
  destruct x as [| | | | |jf];
    try (intros _; change (revive_message (of_json ?y)) with (of_json y);
         by rewrite reparse_of_json).
  cbn [of_json revive_message field]. set (F := map _ jf). intros Hd.
  rewrite assoc_alter_eq in Hd.
  rewrite reparse_object.
  rewrite (map_alter_first reparse revive (fun w => reparse (revive w))).
  2:{ intros v (y & ->)%assoc_of_json. by rewrite reparse_of_json. }
  unfold F. rewrite map_reparse_of_json. fold F.
  cbn [revive_message]. rewrite alter_first_alter_first. f_equal.
  apply alter_first_ext. intros v Hv.
  destruct (assoc_of_json _ _ _ Hv) as [y ->].
  apply revive_stable. fold F in Hv. by rewrite Hv in Hd.
Qed.

Lemma revive_messages_stable (x : json) :
  match revive_messages (of_json x) with
  | VArr messages =>
      forallb (fun msg => negb (invalid_date (field msg "timestamp"))) messages
  | _ => true
  end = true ->
  revive_messages (reparse (revive_messages (of_json x))) = revive_messages (of_json x).
Proof.
  destruct x as [| | | |jl|];
    try (intros _; change (revive_messages (of_json ?y)) with (of_json y);
         by rewrite reparse_of_json).
  cbn [of_json revive_messages]. intros Hd.
  unfold reparse. cbn [toJSON of_json revive_messages]. f_equal.
  rewrite !map_map.
  induction jl as [|jm jl IH]; [done|].
  cbn [map forallb] in *.
  apply andb_true_iff in Hd as [Hm Hl]. rewrite (IH Hl). f_equal.
  apply negb_true_iff in Hm. by apply revive_message_stable.
Qed.

(** A record read from the store that carries no Invalid Date is read back
    as it is when it is written again. *)
Lemma reread_stable (e : value) :
  from_store e -> dates_valid e = true -> reread e = e.
Proof.
  intros [j Hj]. rewrite rehydrate_split in Hj.
  destruct (rehydrate_throws (of_json j)); [done|]. injection Hj as <-.
  destruct j as [| | | | |jf];
    try (intros _; change (rehydrate_pure (of_json ?y)) with (of_json y);
         unfold reread; by rewrite reparse_of_json).
  cbn [of_json rehydrate_pure]. set (F := map _ jf).
  unfold dates_valid. rewrite !andb_true_iff, !negb_true_iff.
  intros Hd.
  repeat first [rewrite assoc_alter_eq in Hd | rewrite assoc_alter_ne in Hd by done].
  destruct Hd as [[[Ht Hl] Hc] Hm].
  unfold reread. rewrite reparse_object.
  set (t := alter_first revive "timestamp").
  set (l := alter_first revive "lastMessageTime").
  set (c := alter_first revive "createdAt").
  set (m := alter_first revive_messages "messages").
  set (t' := alter_first (fun w => reparse (revive w)) "timestamp").
  set (l' := alter_first (fun w => reparse (revive w)) "lastMessageTime").
  set (c' := alter_first (fun w => reparse (revive w)) "createdAt").
  set (m' := alter_first (fun w => reparse (revive_messages w)) "messages").
  assert (Hmap : map (fun kv => (kv.1, reparse kv.2)) (m (c (l (t F)))) = m' (c' (l' (t' F)))).
  { unfold m, m'. rewrite (map_alter_first reparse revive_messages
                             (fun w => reparse (revive_messages w))).
    2:{ unfold c, l, t. rewrite !assoc_alter_ne by done.
        intros v (y & ->)%assoc_of_json. by rewrite reparse_of_json. }
    unfold c, c'. rewrite (map_alter_first reparse revive (fun w => reparse (revive w))).
    2:{ unfold l, t. rewrite !assoc_alter_ne by done.
        intros v (y & ->)%assoc_of_json. by rewrite reparse_of_json. }
    unfold l, l'. rewrite (map_alter_first reparse revive (fun w => reparse (revive w))).
    2:{ unfold t. rewrite !assoc_alter_ne by done.
        intros v (y & ->)%assoc_of_json. by rewrite reparse_of_json. }
    unfold t, t'. rewrite (map_alter_first reparse revive (fun w => reparse (revive w))).
    2:{ intros v (y & ->)%assoc_of_json. by rewrite reparse_of_json. }
    unfold F. by rewrite map_reparse_of_json. }
  rewrite Hmap. cbn [rehydrate_pure]. fold t l c m. f_equal.
  assert (Htm : forall x, t (m' x) = m' (t x)) by (intros; by apply alter_first_comm).
  assert (Htc : forall x, t (c' x) = c' (t x)) by (intros; by apply alter_first_comm).
  assert (Htl : forall x, t (l' x) = l' (t x)) by (intros; by apply alter_first_comm).
  assert (Hlm : forall x, l (m' x) = m' (l x)) by (intros; by apply alter_first_comm).
  assert (Hlc : forall x, l (c' x) = c' (l x)) by (intros; by apply alter_first_comm).
  assert (Hcm : forall x, c (m' x) = m' (c x)) by (intros; by apply alter_first_comm).
  rewrite Htm, Htc, Htl, Hlm, Hlc, Hcm.
  assert (Htt : t (t' F) = t F).
  { unfold t, t'. rewrite alter_first_alter_first. apply alter_first_ext.
    intros v Hv. destruct (assoc_of_json _ _ _ Hv) as [y ->].
    apply revive_stable. fold F in Hv. by rewrite Hv in Ht. }
  rewrite Htt.
  assert (Hll : l (l' (t F)) = l (t F)).
  { unfold l, l'. rewrite alter_first_alter_first. apply alter_first_ext.
    unfold t. rewrite assoc_alter_ne by done.
    intros v Hv. destruct (assoc_of_json _ _ _ Hv) as [y ->].
    apply revive_stable. fold F in Hv. by rewrite Hv in Hl. }
  rewrite Hll.
  assert (Hcc : c (c' (l (t F))) = c (l (t F))).
  { unfold c, c'. rewrite alter_first_alter_first. apply alter_first_ext.
    unfold l, t. rewrite !assoc_alter_ne by done.
    intros v Hv. destruct (assoc_of_json _ _ _ Hv) as [y ->].
    apply revive_stable. fold F in Hv. by rewrite Hv in Hc. }
  rewrite Hcc.
  unfold m, m'. rewrite alter_first_alter_first. apply alter_first_ext.
  unfold c, l, t. rewrite !assoc_alter_ne by done.
  intros v Hv. destruct (assoc_of_json _ _ _ Hv) as [y ->].
  apply revive_messages_stable. fold F in Hv. by rewrite Hv in Hm.
Qed.

Lemma records_stable (c : collection) st :
  healthy c st -> map reread (records c st) = records c st.
Proof.
  intros Hh. pose proof (records_from_store c st) as Hfrom.
  induction Hh as [|x l Hx _ IH]; [done|].
  apply Forall_cons in Hfrom as [Hfx Hfl]. simpl.
  by rewrite (reread_stable x Hfx Hx), (IH Hfl).
Qed.

(** Writing a list of records that a trip leaves unchanged and that pass
    the validator: the collection read is that list. *)
Lemma records_after_stable_write (c : collection) st (l : list value) :
  Forall (fun x => survives_reading x = true) l ->
  Forall (fun x => reread x = x) l ->
  Forall (fun x => validator c x = true) l ->
  records c (setItem st (key c) (VArr l)) = l.
Proof.
  intros Hs Hfix Hvalid. rewrite records_after_write by done.
  assert (Hmap : map reread l = l).
  { clear -Hfix. induction Hfix as [|x l Hx _ IH]; simpl; [done|]. by rewrite Hx, IH. }
  rewrite Hmap. by apply filter_all.
Qed.

Lemma records_stable_facts (c : collection) st :
  healthy c st ->
  Forall (fun x => survives_reading x = true) (records c st) /\
  Forall (fun x => reread x = x) (records c st) /\
  Forall (fun x => validator c x = true) (records c st).
Proof.
  intros Hh. split_and!.
  - eapply Forall_impl; [apply records_from_store|]. apply from_store_survives.
  - pose proof (records_from_store c st) as Hfrom.
    induction Hh as [|x l Hx _ IH]; [constructor|].
    apply Forall_cons in Hfrom as [Hfx Hfl].
    constructor; [by apply reread_stable | by apply IH].
  - apply records_valid.
Qed.

(** The collection read after a deletion, when no date is invalid. *)
Lemma records_after_delete (c : collection) (id : string) st :
  healthy c st ->
  records c (delete_by_id c id st)
  = List.filter (fun x => negb (strict_eq (field x "id") (Some (VStr id)))) (records c st) /\
  healthy c (delete_by_id c id st).
Proof.
  intros Hh. destruct (records_stable_facts c st Hh) as (Hs & Hfix & Hvalid).
  assert (E : records c (delete_by_id c id st)
              = List.filter (fun x => negb (strict_eq (field x "id") (Some (VStr id))))
                  (records c st)).
  { rewrite delete_unfold. apply records_after_stable_write.
    - clear -Hs. induction Hs as [|x l Hx _ IH]; simpl; [constructor|].
      destruct (negb _); [by constructor|done].
    - clear -Hfix. induction Hfix as [|x l Hx _ IH]; simpl; [constructor|].
      destruct (negb _); [by constructor|done].
    - clear -Hvalid. induction Hvalid as [|x l Hx _ IH]; simpl; [constructor|].
      destruct (negb _); [by constructor|done]. }
  split; [done|]. unfold healthy. rewrite E.
  clear -Hh. induction Hh as [|x l Hx _ IH]; simpl; [constructor|].
  destruct (negb _); [by constructor|done].
Qed.

(** X21. On a collection without Invalid Dates, [deleteChat] and
    [deleteTask] remove the records that carry the identifier and nothing
    else: the collection read afterwards is the one read before, filtered,
    in the same order; and it is again without Invalid Dates. *)
Theorem delete_removes_exactly (c : collection) (id : string) st :
  healthy c st ->
  records c (delete_by_id c id st)
  = List.filter (fun x => negb (strict_eq (field x "id") (Some (VStr id)))) (records c st) /\
  healthy c (delete_by_id c id st).
Proof. exact (records_after_delete c id st). Qed.

(** The collection read after a creation, when no date is invalid. *)
Lemma records_after_create (id : string) (now : time) st :
  (forall title,
     healthy Chats st ->
     getChats (createChat id now title st).2 = (createChat id now title st).1 :: getChats st /\
     healthy Chats (createChat id now title st).2) /\
  (forall td,
     healthy Tasks st ->
     getTasks (createTask id now td st).2 = (createTask id now td st).1 :: getTasks st /\
     healthy Tasks (createTask id now td st).2).
Proof.
  split.
  - intros title Hh. destruct (records_stable_facts Chats st Hh) as (Hs & Hfix & Hvalid).
    destruct (reread_new_chat id title now st) as (Hs1 & Hfix1 & Hvalid1).
    assert (E : getChats (createChat id now title st).2
                = (createChat id now title st).1 :: getChats st).
    { apply (records_after_stable_write Chats st); by constructor. }
    split; [done|]. unfold healthy. cbn [records]. rewrite E. by constructor.
  - intros td Hh. destruct (records_stable_facts Tasks st Hh) as (Hs & Hfix & Hvalid).
    destruct (reread_new_task id now td st) as (Hs1 & Hfix1 & Hvalid1).
    assert (E : getTasks (createTask id now td st).2
                = (createTask id now td st).1 :: getTasks st).
    { apply (records_after_stable_write Tasks st); by constructor. }
    split; [done|]. unfold healthy. cbn [records]. rewrite E. constructor; [|done].
    by destruct td as [title [d|] flag [f|]].
Qed.

(** X22. On a collection without Invalid Dates, [createChat] and
    [createTask] add the new record in front and change nothing else:
    the collection read afterwards is the new record followed by the
    collection read before; and it is again without Invalid Dates. *)
Theorem create_puts_in_front (id : string) (now : time) st :
  (forall title,
     healthy Chats st ->
     getChats (createChat id now title st).2 = (createChat id now title st).1 :: getChats st /\
     healthy Chats (createChat id now title st).2) /\
  (forall td,
     healthy Tasks st ->
     getTasks (createTask id now td st).2 = (createTask id now td st).1 :: getTasks st /\
     healthy Tasks (createTask id now td st).2).
Proof. exact (records_after_create id now st). Qed.

(** A record with one property assigned, after a trip: the record after
    its trip, with the property assigned what the trip makes of the
    value. *)
Lemma reread_put (k : string) v (fs : list (string * value)) :
  reread (VObj (put k v fs))
  = VObj (put k (revive_at k (reparse v)) (own_props (Some (reread (VObj fs))))).
Proof.
  rewrite !reread_object. cbn [own_props]. rewrite map_put, !alter_first_put.
  do 2 f_equal. unfold revive_at.
  destruct (String.eqb_spec k "messages") as [->|Hm]; [done|].
  destruct (String.eqb_spec "messages" k) as [<-|_]; [done|].
  destruct (String.eqb_spec k "timestamp") as [->|Ht]; [done|].
  destruct (String.eqb_spec "timestamp" k) as [<-|_]; [done|].
  destruct (String.eqb_spec k "lastMessageTime") as [->|Hl]; [done|].
  destruct (String.eqb_spec "lastMessageTime" k) as [<-|_]; [done|].
  destruct (String.eqb_spec k "createdAt") as [->|Hc]; [done|].
  by destruct (String.eqb_spec "createdAt" k) as [<-|_].
Qed.

Lemma records_after_insert (c : collection) st (l : list value) (i : nat) (y : value) :
  Forall (fun x => survives_reading x = true) l ->
  Forall (fun x => reread x = x) l ->
  Forall (fun x => validator c x = true) l ->
  survives_reading y = true ->
  records c (setItem st (key c) (VArr (<[i := y]> l)))
  = List.filter (validator c) (<[i := reread y]> l).
Proof.
  intros Hs Hfix Hvalid Hy. rewrite records_after_write by (by apply Forall_insert).
  rewrite list_fmap_insert.
  assert (Hmap : map reread l = l).
  { clear -Hfix. induction Hfix as [|x l Hx _ IH]; simpl; [done|]. by rewrite Hx, IH. }
  change (reread <$> l) with (map reread l). by rewrite Hmap.
Qed.

(** The collection read after an update, when no date is invalid. *)
Lemma records_after_update (c : collection) (r : list (string * value)) st (i : nat) :
  healthy c st ->
  findIndex (fun x => strict_eq (field x "id") (assoc "id" r)) (records c st) = Some i ->
  survives_reading (VObj r) = true ->
  exists st',
    update_by_id c r st = Ok st' /\
    (forall k, k <> key c -> st' !! k = st !! k) /\
    records c st'
    = if validator c (reread (VObj r)) then <[i := reread (VObj r)]> (records c st)
      else take i (records c st) ++ drop (S i) (records c st).
Proof.
  intros Hh Hi Hr. destruct (records_stable_facts c st Hh) as (Hs & Hfix & Hvalid).
  exists (setItem st (key c) (VArr (<[i := VObj r]> (records c st)))).
  split; [by rewrite update_unfold, Hi|].
  split; [intros k Hk; unfold setItem; by rewrite lookup_insert_ne|].
  rewrite records_after_insert by done.
  assert (Hlt : i < length (records c st)).
  { apply findIndex_Some in Hi as (x & Hx & _). by eapply lookup_lt_Some. }
  destruct (validator c (reread (VObj r))) eqn:Hv.
  - apply filter_all. by apply Forall_insert.
  - rewrite insert_take_drop by done.
    rewrite List.filter_app. simpl. rewrite Hv.
    rewrite !filter_all; [done| |].
    + by apply Forall_drop.
    + by apply Forall_take.
Qed.

(** X23. On a collection without Invalid Dates, an update with a record
    whose [messages], if it has an array of them, holds no element that
    prints as [null] (no [null], Invalid Date, NaN or infinity): if the
    record passes the validator once read back, it replaces the first
    record that carries the identifier, as read back and in place, and
    nothing else changes; if it does not pass it, the update is accepted
    all the same, and that record is then missing from the collection
    read. *)
Theorem update_then_records (c : collection) (r : list (string * value)) st (i : nat) :
  healthy c st ->
  findIndex (fun x => strict_eq (field x "id") (assoc "id" r)) (records c st) = Some i ->
  survives_reading (VObj r) = true ->
  exists st',
    update_by_id c r st = Ok st' /\
    records c st'
    = if validator c (reread (VObj r)) then <[i := reread (VObj r)]> (records c st)
      else take i (records c st) ++ drop (S i) (records c st).
Proof.
  intros Hh Hi Hr.
  destruct (records_after_update c r st i Hh Hi Hr) as (st' & Hupdate & _ & Hrecords).
  by exists st'.
Qed.

(** C10, amended. On a collection without Invalid Dates, for a record
    whose identifier is present, whose [messages], if it has an array of
    them, holds no element that prints as [null], and which passes the
    validator once read back: the update succeeds, and the collection read
    afterwards has the length of the collection read before, holds the
    record as read back at the position of the first record with that
    identifier, and at every other position the record that was there; no
    other key of the store changes. *)
Theorem update_replaces_exactly_one (c : collection) (r : list (string * value)) st (i : nat) :
  healthy c st ->
  findIndex (fun x => strict_eq (field x "id") (assoc "id" r)) (records c st) = Some i ->
  survives_reading (VObj r) = true ->
  validator c (reread (VObj r)) = true ->
  exists x st',
    records c st !! i = Some x /\ field x "id" = assoc "id" r /\
    update_by_id c r st = Ok st' /\
    records c st' = <[i := reread (VObj r)]> (records c st) /\
    length (records c st') = length (records c st) /\
    records c st' !! i = Some (reread (VObj r)) /\
    (forall j, j <> i -> records c st' !! j = records c st !! j) /\
    (forall k, k <> key c -> st' !! k = st !! k).
Proof.
  intros Hh Hi Hr Hv.
  destruct (records_after_update c r st i Hh Hi Hr) as (st' & Hupdate & Hframe & Hrecords).
  rewrite Hv in Hrecords.
  pose proof (findIndex_Some _ _ _ Hi) as (x & Hx & Hid & _).
  exists x, st'. rewrite Hrecords. split_and!; try done.
  - pose proof (records_have_ids c st) as Hids. rewrite Forall_forall in Hids.
    destruct (Hids x (list_elem_of_lookup_2 _ _ _ Hx)) as [s Hs].
    rewrite Hs in Hid |- *. by apply strict_eq_string_l in Hid.
  - by rewrite length_insert.
  - apply list_lookup_insert_eq. by eapply lookup_lt_Some.
  - intros j Hj. by apply list_lookup_insert_ne.
Qed.

(** C6, amended. A deletion raises no error of its own: it filters and
    writes, under the key of its collection only. Deleting twice leaves
    the collection that deleting once leaves. And on a collection without
    Invalid Dates, deleting an identifier that no record carries leaves
    the collection as it was. *)
Theorem delete_idempotent (c : collection) (id : string) st :
  records c (delete_by_id c id (delete_by_id c id st)) = records c (delete_by_id c id st) /\
  (healthy c st ->
   Some (VStr id) ∉ ids (records c st) ->
   records c (delete_by_id c id st) = records c st) /\
  (forall k, k <> key c -> delete_by_id c id st !! k = st !! k).
Proof.
  split_and!.
  - apply delete_twice.
  - intros Hh Hid. destruct (records_after_delete c id st Hh) as [-> _].
    apply filter_all. apply Forall_forall. intros x Hx.
    destruct (strict_eq (field x "id") (Some (VStr id))) eqn:E; [|done].
    apply strict_eq_string in E. destruct Hid.
    unfold ids. apply list_elem_of_fmap. by exists x.
  - intros k Hk. rewrite delete_unfold. unfold setItem. by rewrite lookup_insert_ne.
Qed.

(** ** Lookups by identifier *)

Lemma find_by_id (l : list value) (id : string) (x : value) :
  List.find (fun y => strict_eq (field y "id") (Some (VStr id))) l = Some x ->
  exists i,
    findIndex (fun y => strict_eq (field y "id") (Some (VStr id))) l = Some i /\
    l !! i = Some x /\ field x "id" = Some (VStr id).
Proof.
  rewrite find_findIndex. destruct (findIndex _ l) as [i|] eqn:Hi; simpl; [|done].
  intros Hx. exists i. split_and!; [done..|].
  apply findIndex_Some in Hi as (y & Hy & Hp & _).
  rewrite Hx in Hy. injection Hy as <-. by apply strict_eq_string in Hp.
Qed.

Lemma find_none_Forall {A : Type} (p : A -> bool) (l : list A) :
  Forall (fun x => p x = false) l -> List.find p l = None.
Proof. induction 1 as [|x l Hx _ IH]; simpl; [done|]. by rewrite Hx. Qed.

Lemma setItem_other st (k k' : string) v : k <> k' -> setItem st k v !! k' = st !! k'.
Proof. intros Hk. unfold setItem. by rewrite lookup_insert_ne. Qed.

(** The two outcomes of [addMessage]. *)
Lemma addMessage_cases (id chatId : string) (md : messageData) st :
  match getChat st chatId with
  | None => addMessage id chatId md st = Throw (NotFound "Chat" chatId)
  | Some _ =>
      exists st',
        addMessage id chatId md st = Ok (newMessage id chatId md, st') /\
        forall k, k <> CHATS -> st' !! k = st !! k
  end.
Proof.
  destruct (getChat st chatId) as [chat|] eqn:Hget.
  - destruct (getChat_object st chatId chat Hget) as (fs & ms & -> & Hm).
    unfold getChat in Hget.
    destruct (find_by_id _ _ _ Hget) as (i & Hi & _ & Hid). simpl in Hid.
    eexists. split.
    + unfold addMessage, getChat. rewrite Hget, Hm. unfold updateChat.
      rewrite !assoc_put_ne by done. rewrite Hid, Hi. simpl. reflexivity.
    + intros k Hk. by apply setItem_other.
  - unfold addMessage. by rewrite Hget.
Qed.

(** X6. [addMessage] throws exactly when [getChat] finds no conversation
    under the identifier, and then with the not-found error of the
    service. When a conversation is found the call succeeds, returns the
    message built from its arguments, and writes under the conversations
    key only. *)
Theorem addMessage_throws_iff_chat_absent (id chatId : string) (md : messageData) st :
  match getChat st chatId with
  | None => addMessage id chatId md st = Throw (NotFound "Chat" chatId)
  | Some _ =>
      exists st',
        addMessage id chatId md st = Ok (newMessage id chatId md, st') /\
        forall k, k <> CHATS -> st' !! k = st !! k
  end.
Proof. exact (addMessage_cases id chatId md st). Qed.

(** The two outcomes of [toggleTaskCompletion]. *)
Lemma toggleTaskCompletion_cases (id : string) st :
  match getTask st id with
  | None => toggleTaskCompletion id st = Throw (NotFound "Task" id)
  | Some _ =>
      exists st',
        toggleTaskCompletion id st = Ok st' /\
        forall k, k <> TASKS -> st' !! k = st !! k
  end.
Proof.
  destruct (getTask st id) as [task|] eqn:Hget.
  - assert (Hvalid : validateTask task = true).
    { unfold getTask in Hget. apply find_some in Hget as [Hin _].
      pose proof (getTasks_valid st) as Hall. rewrite Forall_forall in Hall.
      by apply Hall, list_elem_of_In. }
    destruct (validateTask_object task Hvalid) as (fs & s & b & -> & _ & Hb).
    unfold getTask in Hget.
    destruct (find_by_id _ _ _ Hget) as (i & Hi & _ & Hid). simpl in Hid.
    eexists. split.
    + unfold toggleTaskCompletion, getTask. rewrite Hget. unfold updateTask.
      rewrite assoc_put_ne by done. rewrite Hid, Hi. reflexivity.
    + intros k Hk. by apply setItem_other.
  - unfold toggleTaskCompletion. by rewrite Hget.
Qed.

(** X7. [toggleTaskCompletion] throws exactly when [getTask] finds no task
    under the identifier, with the not-found error; otherwise it succeeds
    and writes under the tasks key only. *)
Theorem toggleTaskCompletion_throws_iff_task_absent (id : string) st :
  match getTask st id with
  | None => toggleTaskCompletion id st = Throw (NotFound "Task" id)
  | Some _ =>
      exists st',
        toggleTaskCompletion id st = Ok st' /\
        forall k, k <> TASKS -> st' !! k = st !! k
  end.
Proof. exact (toggleTaskCompletion_cases id st). Qed.

(** A deletion leaves no record under the identifier. *)
Lemma lookup_after_delete (id : string) st :
  getChat (deleteChat id st) id = None /\ getTask (deleteTask id st) id = None.
Proof.
  assert (Hgone : forall c,
             List.find (fun y => strict_eq (field y "id") (Some (VStr id)))
               (records c (delete_by_id c id st)) = None).
  { intros c. rewrite records_delete. apply find_none_Forall.
    apply Forall_forall. intros y Hy.
    apply list_elem_of_In, filter_In in Hy as [Hy _].
    apply in_map_iff in Hy as (x & <- & Hx).
    apply filter_In in Hx as [Hx Hne]. apply list_elem_of_In in Hx.
    pose proof (records_have_ids c st) as Hids. rewrite Forall_forall in Hids.
    destruct (Hids x Hx) as [s Hs].
    rewrite (field_id_reread x s Hs). rewrite Hs in Hne.
    by apply negb_true_iff in Hne. }
  split; [apply (Hgone Chats) | apply (Hgone Tasks)].
Qed.

(** X8. After [deleteChat] no conversation is found under the identifier,
    and after [deleteTask] no task, whatever the store held. *)
Theorem delete_then_lookup_finds_nothing (id : string) st :
  getChat (deleteChat id st) id = None /\ getTask (deleteTask id st) id = None.
Proof. exact (lookup_after_delete id st). Qed.

(** X9. For every task description, [createTask] returns a task with the
    generated identifier, the clock reading as creation date and the
    given fields, an optional field left out staying undefined; it puts the
    task in front of the collection, and [getTask] on the generated
    identifier then returns that task. *)
Theorem createTask_then_getTask (id : string) (now : time) (td : taskData) st :
  let task := (createTask id now td st).1 in
  let st' := (createTask id now td st).2 in
  getTask st' id = Some task /\
  field task "id" = Some (VStr id) /\
  field task "createdAt" = Some (VDate (Some now)) /\
  field task "title" = Some (VStr (td_title td)) /\
  field task "description" = VStr <$> td_description td /\
  field task "completed" = Some (VBool (td_completed td)) /\
  field task "fromChatId" = VStr <$> td_fromChatId td /\
  exists rest, getTasks st' = task :: rest.
Proof.
  intros task st'.
  destruct (reread_new_task id now td st) as (Hs & Hfix & Hvalid).
  fold task in Hs, Hfix, Hvalid.
  assert (Hread : getTasks st' = task :: List.filter validateTask (map reread (getTasks st))).
  { change (getTasks st') with (records Tasks (setItem st (key Tasks) (VArr (task :: getTasks st)))).
    rewrite records_after_write.
    - simpl. by rewrite Hfix, Hvalid.
    - constructor; [done|].
      eapply Forall_impl; [apply (records_from_store Tasks st)|].
      apply from_store_survives. }
  assert (Hfields : field task "id" = Some (VStr id) /\
                    field task "createdAt" = Some (VDate (Some now)) /\
                    field task "title" = Some (VStr (td_title td)) /\
                    field task "description" = VStr <$> td_description td /\
                    field task "completed" = Some (VBool (td_completed td)) /\
                    field task "fromChatId" = VStr <$> td_fromChatId td).
  { unfold task. by destruct td as [title [d|] flag [f|]]. }
  destruct Hfields as (Hid & Hc & Ht & Hd & Hf & Hfrom).
  split_and!; try done.
  - unfold getTask. rewrite Hread. cbn [List.find]. rewrite Hid. simpl.
    by rewrite String.eqb_refl.
  - by eexists.
Qed.

Lemma records_after_stable_insert (c : collection) st (i : nat) (y : value) :
  healthy c st ->
  survives_reading y = true -> reread y = y -> validator c y = true ->
  dates_valid y = true ->
  records c (setItem st (key c) (VArr (<[i := y]> (records c st))))
  = <[i := y]> (records c st) /\
  healthy c (setItem st (key c) (VArr (<[i := y]> (records c st)))).
Proof.
  intros Hh Hs Hfix Hvalid Hd.
  destruct (records_stable_facts c st Hh) as (Hsl & Hfixl & Hvalidl).
  assert (E : records c (setItem st (key c) (VArr (<[i := y]> (records c st))))
              = <[i := y]> (records c st)).
  { rewrite records_after_insert by done. rewrite Hfix.
    apply filter_all. by apply Forall_insert. }
  split; [done|]. unfold healthy. rewrite E. by apply Forall_insert.
Qed.

Lemma revive_messages_reparse (l : list value) :
  revive_messages (reparse (VArr l)) = VArr (map (fun m => revive_message (reparse m)) l).
Proof. unfold reparse. simpl. by rewrite !map_map. Qed.

(** The conversations read after [addMessage], when no date is invalid. *)
Lemma addMessage_in_place (id chatId : string) (md : messageData) (t : time) st
    (chat : list (string * value)) (ms : list value) :
  healthy Chats st ->
  getChat st chatId = Some (VObj chat) ->
  assoc "messages" chat = Some (VArr ms) ->
  md_timestamp md = Some t ->
  exists i st',
    addMessage id chatId md st = Ok (newMessage id chatId md, st') /\
    findIndex (fun x => strict_eq (field x "id") (Some (VStr chatId))) (getChats st) = Some i /\
    getChats st'
    = <[i := VObj (put "lastMessageTime" (VDate (Some t))
                     (put "lastMessage" (VStr (md_text md))
                        (put "messages" (VArr (ms ++ [newMessage id chatId md])) chat)))]>
        (getChats st) /\
    healthy Chats st'.
Proof.
  intros Hh Hget Hm Ht.
  set (msg := newMessage id chatId md).
  set (chat3 := put "lastMessageTime" (VDate (Some t))
                  (put "lastMessage" (VStr (md_text md))
                     (put "messages" (VArr (ms ++ [msg])) chat))).
  unfold getChat in Hget. destruct (find_by_id _ _ _ Hget) as (i & Hi & Hx & Hid).
  simpl in Hid.
  destruct (records_stable_facts Chats st Hh) as (Hsl & Hfixl & Hvalidl).
  cbn [records validator] in *.
  assert (Hin : VObj chat ∈ getChats st) by (by eapply list_elem_of_lookup_2).
  assert (Hs : survives_reading (VObj chat) = true).
  { rewrite Forall_forall in Hsl. by apply Hsl. }
  assert (Hfix : reread (VObj chat) = VObj chat).
  { rewrite Forall_forall in Hfixl. by apply Hfixl. }
  assert (Hvalid : validateChat (VObj chat) = true).
  { rewrite Forall_forall in Hvalidl. by apply Hvalidl. }
  assert (Hd : dates_valid (VObj chat) = true).
  { unfold healthy in Hh. rewrite Forall_forall in Hh. by apply Hh. }
  assert (Hmsg : revive_message (reparse msg) = msg).
  { unfold msg, newMessage, reparse. rewrite Ht. simpl.
    by rewrite toISOString_nonempty, Date_parse_toISOString. }
  assert (Hms : map (fun m => revive_message (reparse m)) ms = ms).
  { pose proof (field_reread_messages chat) as E. rewrite Hfix in E. cbn [field] in E.
    rewrite Hm in E. unfold fmap, option_fmap, option_map in E.
    rewrite revive_messages_reparse in E. by injection E. }
  assert (Hfix3 : reread (VObj chat3) = VObj chat3).
  { unfold chat3. rewrite !reread_put, Hfix. cbn [own_props].
    change (revive_at "lastMessageTime" ?x) with (revive x).
    change (revive_at "lastMessage" ?x) with x.
    change (revive_at "messages" ?x) with (revive_messages x).
    rewrite revive_reparse_date, revive_messages_reparse, map_app, Hms.
    cbn [map]. by rewrite Hmsg. }
  assert (Hs3 : survives_reading (VObj chat3) = true).
  { unfold survives_reading in *. unfold chat3. cbn [prints_null negb andb] in *.
    rewrite !assoc_put_ne by done. rewrite assoc_put_eq.
    rewrite Hm in Hs. rewrite forallb_app, Hs. done. }
  assert (Hvalid3 : validateChat (VObj chat3) = true).
  { unfold chat3. rewrite <- Ht. by apply validateChat_with_message. }
  assert (Hd3 : dates_valid (VObj chat3) = true).
  { unfold dates_valid in *. unfold chat3.
    repeat (rewrite assoc_put_eq || rewrite assoc_put_ne by done).
    rewrite Hm in Hd. rewrite !andb_true_iff in Hd. destruct Hd as [[[H1 _] H3] H4].
    rewrite H1, H3. simpl. rewrite forallb_app, H4. simpl. by rewrite Ht. }
  destruct (records_after_stable_insert Chats st i (VObj chat3) Hh Hs3 Hfix3 Hvalid3 Hd3)
    as [E Hh'].
  exists i, (setItem st CHATS (VArr (<[i := VObj chat3]> (getChats st)))).
  split_and!; [|done|exact E|exact Hh'].
  unfold addMessage, getChat. rewrite Hget, Hm. unfold updateChat.
  rewrite !assoc_put_ne by done. rewrite Hid, Hi. simpl. by rewrite Ht.
Qed.

(** X24. On conversations without Invalid Dates, [addMessage] with a valid
    timestamp changes one conversation and nothing else: the collection
    read afterwards is the one read before with the first conversation
    that carries the identifier replaced, in place, by itself with the
    message appended and mirrored in [lastMessage] and [lastMessageTime];
    and it is again without Invalid Dates. *)
Theorem addMessage_then_getChats (id chatId : string) (md : messageData) (t : time) st
    (chat : list (string * value)) (ms : list value) :
  healthy Chats st ->
  getChat st chatId = Some (VObj chat) ->
  assoc "messages" chat = Some (VArr ms) ->
  md_timestamp md = Some t ->
  exists i st',
    addMessage id chatId md st = Ok (newMessage id chatId md, st') /\
    findIndex (fun x => strict_eq (field x "id") (Some (VStr chatId))) (getChats st) = Some i /\
    getChats st'
    = <[i := VObj (put "lastMessageTime" (VDate (Some t))
                     (put "lastMessage" (VStr (md_text md))
                        (put "messages" (VArr (ms ++ [newMessage id chatId md])) chat)))]>
        (getChats st) /\
    healthy Chats st'.
Proof. exact (addMessage_in_place id chatId md t st chat ms). Qed.

(** The tasks read after [toggleTaskCompletion], when no date is invalid. *)
Lemma toggleTaskCompletion_in_place (id : string) st
    (task : list (string * value)) (b : bool) :
  healthy Tasks st ->
  getTask st id = Some (VObj task) ->
  assoc "completed" task = Some (VBool b) ->
  exists i st',
    toggleTaskCompletion id st = Ok st' /\
    findIndex (fun x => strict_eq (field x "id") (Some (VStr id))) (getTasks st) = Some i /\
    getTasks st' = <[i := VObj (put "completed" (VBool (negb b)) task)]> (getTasks st) /\
    healthy Tasks st'.
Proof.
  intros Hh Hget Hb.
  set (task' := put "completed" (VBool (negb b)) task).
  unfold getTask in Hget. destruct (find_by_id _ _ _ Hget) as (i & Hi & Hx & Hid).
  simpl in Hid.
  destruct (records_stable_facts Tasks st Hh) as (Hsl & Hfixl & Hvalidl).
  cbn [records validator] in *.
  assert (Hin : VObj task ∈ getTasks st) by (by eapply list_elem_of_lookup_2).
  assert (Hs : survives_reading (VObj task) = true).
  { rewrite Forall_forall in Hsl. by apply Hsl. }
  assert (Hfix : reread (VObj task) = VObj task).
  { rewrite Forall_forall in Hfixl. by apply Hfixl. }
  assert (Hvalid : validateTask (VObj task) = true).
  { rewrite Forall_forall in Hvalidl. by apply Hvalidl. }
  assert (Hd : dates_valid (VObj task) = true).
  { unfold healthy in Hh. rewrite Forall_forall in Hh. by apply Hh. }
  assert (Hfix' : reread (VObj task') = VObj task').
  { unfold task'. by rewrite reread_put, Hfix. }
  assert (Hs' : survives_reading (VObj task') = true).
  { unfold task'. by rewrite survives_reading_put. }
  assert (Hvalid' : validateTask (VObj task') = true).
  { by apply validateTask_put_completed. }
  assert (Hd' : dates_valid (VObj task') = true).
  { unfold dates_valid in *. unfold task'. by rewrite !assoc_put_ne. }
  destruct (records_after_stable_insert Tasks st i (VObj task') Hh Hs' Hfix' Hvalid' Hd')
    as [E Hh'].
  exists i, (setItem st TASKS (VArr (<[i := VObj task']> (getTasks st)))).
  split_and!; [|done|exact E|exact Hh'].
  unfold toggleTaskCompletion, getTask. rewrite Hget, Hb. unfold updateTask.
  rewrite assoc_put_ne by done. rewrite Hid, Hi. by destruct b.
Qed.

(** X25. On tasks without Invalid Dates, [toggleTaskCompletion] changes
    one flag and nothing else: the collection read afterwards is the one
    read before with the first task that carries the identifier replaced,
    in place, by itself with [completed] negated; and it is again without
    Invalid Dates. *)
Theorem toggleTaskCompletion_then_getTasks (id : string) st
    (task : list (string * value)) (b : bool) :
  healthy Tasks st ->
  getTask st id = Some (VObj task) ->
  assoc "completed" task = Some (VBool b) ->
  exists i st',
    toggleTaskCompletion id st = Ok st' /\
    findIndex (fun x => strict_eq (field x "id") (Some (VStr id))) (getTasks st) = Some i /\
    getTasks st' = <[i := VObj (put "completed" (VBool (negb b)) task)]> (getTasks st) /\
    healthy Tasks st'.
Proof. exact (toggleTaskCompletion_in_place id st task b). Qed.

(** X26. On tasks without Invalid Dates, a task created from a
    conversation heads the tasks of that conversation, and is among the
    tasks of no other; a task created without one is among the tasks of
    none. *)
Theorem createTask_then_getTasksByChat (id chatId : string) (now : time) (td : taskData) st :
  healthy Tasks st ->
  getTasksByChat chatId (createTask id now td st).2
  = match td_fromChatId td with
    | Some c =>
        if String.eqb c chatId then (createTask id now td st).1 :: getTasksByChat chatId st
        else getTasksByChat chatId st
    | None => getTasksByChat chatId st
    end.
Proof.
  intros Hh.
  destruct (records_after_create id now st) as [_ Hcreate].
  destruct (Hcreate td Hh) as [E _].
  unfold getTasksByChat. rewrite E. cbn [List.filter].
  assert (Hfrom : field (createTask id now td st).1 "fromChatId" = VStr <$> td_fromChatId td).
  { by destruct td as [title [d|] flag [f|]]. }
  rewrite Hfrom. by destruct (td_fromChatId td) as [c|].
Qed.

(** ** [getMessages] *)

Lemma relative_index_zero (len : nat) : relative_index len 0%float = 0.
Proof.
  unfold relative_index. change (ToIntegerOrInfinity 0) with (Finite 0). simpl.
  rewrite Z.min_l by lia. done.
Qed.

Lemma relative_index_le (len : nat) (x : float) : relative_index len x <= len.
Proof.
  unfold relative_index. destruct (ToIntegerOrInfinity x) as [|n|]; [lia| |lia].
  destruct (Z.ltb_spec n 0); lia.
Qed.

Lemma relative_index_nat (len : nat) (x : float) (n : nat) :
  ToIntegerOrInfinity x = Finite (Z.of_nat n) -> relative_index len x = n `min` len.
Proof.
  intros Hx. unfold relative_index. rewrite Hx.
  destruct (Z.ltb_spec (Z.of_nat n) 0); lia.
Qed.

Lemma slice_prefix {A : Type} (l : list A) (x : float) :
  slice l 0%float (Some x) = take (relative_index (length l) x) l.
Proof. unfold slice. rewrite relative_index_zero, Nat.sub_0_r. done. Qed.

Lemma slice_suffix {A : Type} (l : list A) (x : float) :
  slice l x None = drop (relative_index (length l) x) l.
Proof. unfold slice. apply take_ge. rewrite length_drop. lia. Qed.

Lemma take_min {A : Type} (l : list A) (n : nat) : take (n `min` length l) l = take n l.
Proof.
  destruct (Nat.le_gt_cases n (length l)).
  - by rewrite Nat.min_l.
  - rewrite Nat.min_r by lia. rewrite !take_ge by lia. done.
Qed.

Lemma drop_min {A : Type} (l : list A) (n : nat) : drop (n `min` length l) l = drop n l.
Proof.
  destruct (Nat.le_gt_cases n (length l)).
  - by rewrite Nat.min_l.
  - rewrite Nat.min_r by lia. rewrite !drop_ge by lia. done.
Qed.

(** X10. Pagination loses nothing: for every conversation and every
    number [k], integer or not, negative, NaN or infinite, the page of the
    first [k] messages followed by the messages from offset [k] on is the
    whole list [getMessages] returns without limit and offset. *)
Theorem getMessages_pages st (chatId : string) (k : float) :
  getMessages st chatId (Some k) None ++ getMessages st chatId None (Some k)
  = getMessages st chatId None None.
Proof.
  unfold getMessages. destruct (getChat st chatId) as [chat|]; [|done].
  destruct (field chat "messages") as [[| | | | |messages|]|]; try done.
  rewrite slice_prefix, slice_suffix. apply take_drop.
Qed.

(** X11. With an offset whose integer part is [m >= 0] and a limit whose
    integer part is [n >= 0], [getMessages] returns the [n] messages that
    follow the first [m] of the conversation, or as many as there are: the
    offset is applied first, the limit to what remains. *)
Theorem getMessages_window st (chatId : string) (chat : value) (messages : list value)
    (limit offset : float) (n m : nat) :
  getChat st chatId = Some chat ->
  field chat "messages" = Some (VArr messages) ->
  ToIntegerOrInfinity limit = Finite (Z.of_nat n) ->
  ToIntegerOrInfinity offset = Finite (Z.of_nat m) ->
  getMessages st chatId (Some limit) (Some offset) = take n (drop m messages) /\
  length (getMessages st chatId (Some limit) (Some offset)) = n `min` (length messages - m).
Proof.
  intros Hget Hm Hlimit Hoffset.
  assert (E : getMessages st chatId (Some limit) (Some offset) = take n (drop m messages)).
  { unfold getMessages. rewrite Hget, Hm.
    rewrite slice_suffix, slice_prefix.
    rewrite (relative_index_nat _ offset m Hoffset), drop_min.
    by rewrite (relative_index_nat _ limit n Hlimit), take_min. }
  split; [done|]. rewrite E, length_take, length_drop. done.
Qed.

(** ** [getTasksByStatus] *)

Lemma filter_complement {A : Type} (p q : A -> bool) (l : list A) :
  Forall (fun x => q x = negb (p x)) l -> List.filter p l ++ List.filter q l ≡ₚ l.
Proof.
  induction 1 as [|x l Hx _ IH]; simpl; [done|].
  rewrite Hx. destruct (p x); simpl.
  - by constructor.
  - rewrite <- Permutation_middle. by constructor.
Qed.

(** X12. The two status lists split the collection: every task is in
    exactly one of [getTasksByStatus true] and [getTasksByStatus false],
    and their lengths are the [completed] and [pending] counts of
    [getTaskStats]. *)
Theorem getTasksByStatus_partition st :
  getTasksByStatus true st ++ getTasksByStatus false st ≡ₚ getTasks st /\
  completed (getTaskStats st) = Z.of_nat (length (getTasksByStatus true st)) /\
  pending (getTaskStats st) = Z.of_nat (length (getTasksByStatus false st)).
Proof.
  assert (Hsplit : getTasksByStatus true st ++ getTasksByStatus false st ≡ₚ getTasks st).
  { unfold getTasksByStatus. apply filter_complement.
    eapply Forall_impl; [apply getTasks_valid|]. simpl.
    intros x (fs & s & b & -> & _ & Hb)%validateTask_object. simpl. rewrite Hb.
    by destruct b. }
  split_and!; [done| |].
  - rewrite getTaskStats_unfold, completed_filter. done.
  - rewrite getTaskStats_unfold, completed_filter. cbn [pending].
    apply Permutation_length in Hsplit. rewrite length_app in Hsplit.
    unfold getTasksByStatus in *. lia.
Qed.

(** ** [searchChats] and [searchTasks] *)

Lemma prefix_refl (s : string) : String.prefix s s = true.
Proof. induction s as [|c s IH]; simpl; [done|]. by destruct (ascii_dec c c). Qed.

Lemma includes_empty (s : string) : includes s "" = true.
Proof. by destruct s. Qed.

Lemma includes_prefix (s q : string) : String.prefix q s = true -> includes s q = true.
Proof.
  intros Hp. destruct s as [|c s].
  - unfold includes. by rewrite Hp.
  - change (includes (String c s) q) with (String.prefix q (String c s) || includes s q).
    by rewrite Hp.
Qed.

Lemma includes_refl (s : string) : includes s s = true.
Proof. apply includes_prefix, prefix_refl. Qed.

Lemma lower_unit_idempotent (c : ascii) : lower_unit (lower_unit c) = lower_unit c.
Proof. by destruct c as [[] [] [] [] [] [] [] []]. Qed.

Lemma toLowerCase_idempotent (s : string) : toLowerCase (toLowerCase s) = toLowerCase s.
Proof. induction s as [|c s IH]; simpl; [done|]. by rewrite lower_unit_idempotent, IH. Qed.

Lemma filterR_pure {A : Type} (p : A -> result bool) (q : A -> bool) (l : list A) :
  Forall (fun x => p x = Ok (q x)) l -> filterR p l = Ok (List.filter q l).
Proof.
  induction 1 as [|x l Hx _ IH]; simpl; [done|]. rewrite Hx, IH. simpl. by destruct (q x).
Qed.

Lemma someR_pure {A : Type} (p : A -> result bool) (q : A -> bool) (l : list A) :
  Forall (fun x => p x = Ok (q x)) l -> someR p l = Ok (existsb q l).
Proof.
  induction 1 as [|x l Hx _ IH]; simpl; [done|]. rewrite Hx. simpl. by destruct (q x).
Qed.

Lemma validateMessage_text (m : value) :
  validateMessage m = true -> exists s, field m "text" = Some (VStr s).
Proof.
  unfold validateMessage. rewrite !andb_true_iff. intros Hv. destruct_and!.
  by apply is_type_string.
Qed.

Lemma validateChat_title (chat : value) :
  validateChat chat = true -> exists s, field chat "title" = Some (VStr s).
Proof.
  unfold validateChat. rewrite !andb_true_iff. intros Hv. destruct_and!.
  by apply is_type_string.
Qed.

Lemma validateTask_title (task : value) :
  validateTask task = true -> exists s, field task "title" = Some (VStr s).
Proof.
  unfold validateTask. rewrite !andb_true_iff. intros Hv. destruct_and!.
  by apply is_type_string.
Qed.

(** On a conversation that passed [validateChat] the callback of
    [searchChats] throws nothing. *)
Lemma chat_matches_valid (q : string) (chat : value) :
  validateChat chat = true -> chat_matches q chat = Ok (chat_contains q chat).
Proof.
  intros Hv. destruct (validateChat_title chat Hv) as [t Ht].
  destruct (validateChat_object chat Hv) as (fs & id & ms & -> & _ & Hm).
  pose proof (validateChat_messages fs ms Hv Hm) as Hms.
  unfold chat_matches, chat_contains. rewrite Ht. simpl.
  destruct (includes (toLowerCase t) q); simpl; [done|].
  rewrite Hm. apply someR_pure.
  apply Forall_forall. intros m Hin.
  apply list_elem_of_In in Hin. eapply forallb_forall in Hms; [|done].
  destruct (validateMessage_text m Hms) as [s Hs]. by rewrite Hs.
Qed.

Lemma task_matches_valid (q : string) (task : value) :
  validateTask task = true -> task_matches q task = Ok (task_contains q task).
Proof.
  intros Hv. destruct (validateTask_title task Hv) as [t Ht].
  unfold task_matches, task_contains. rewrite Ht. simpl.
  destruct (includes (toLowerCase t) q); simpl; [done|].
  assert (Hd : is_undefined (field task "description")
               || is_type TString (field task "description") = true).
  { unfold validateTask in Hv. rewrite !andb_true_iff in Hv. by destruct_and!. }
  destruct (field task "description") as [[|?|?|d|?|?|?]|]; try done.
  simpl. by destruct (nonempty d).
Qed.

Lemma searchChats_filter (query : string) st :
  searchChats query st = List.filter (chat_contains (toLowerCase query)) (getChats st).
Proof.
  unfold searchChats.
  rewrite (filterR_pure _ (chat_contains (toLowerCase query))); [done|].
  eapply Forall_impl; [apply getChats_valid|]. intros chat Hv. by apply chat_matches_valid.
Qed.

Lemma searchTasks_filter (query : string) st :
  searchTasks query st = List.filter (task_contains (toLowerCase query)) (getTasks st).
Proof.
  unfold searchTasks.
  rewrite (filterR_pure _ (task_contains (toLowerCase query))); [done|].
  eapply Forall_impl; [apply getTasks_valid|]. intros task Hv. by apply task_matches_valid.
Qed.

(** X13. [searchChats] never falls into its catch clause: it returns, in
    order, the conversations whose title or one of whose message texts
    contains the query, the case of letters ignored on both sides. So the
    empty query returns every conversation, a query and its lower-case
    form return the same, and a conversation is found by its own title. *)
Theorem searchChats_finds (query : string) st :
  searchChats query st = List.filter (chat_contains (toLowerCase query)) (getChats st) /\
  searchChats "" st = getChats st /\
  searchChats (toLowerCase query) st = searchChats query st /\
  forall chat title,
    chat ∈ getChats st -> field chat "title" = Some (VStr title) ->
    chat ∈ searchChats title st.
Proof.
  split_and!.
  - apply searchChats_filter.
  - rewrite searchChats_filter. apply filter_all.
    apply Forall_forall. intros chat _. unfold chat_contains. simpl.
    by rewrite includes_empty.
  - by rewrite !searchChats_filter, toLowerCase_idempotent.
  - intros chat title Hin Ht. rewrite searchChats_filter.
    apply list_elem_of_In, filter_In. split; [by apply list_elem_of_In|].
    unfold chat_contains. rewrite Ht. simpl. by rewrite includes_refl.
Qed.

(** X14. [searchTasks] never falls into its catch clause: it returns, in
    order, the tasks whose title or whose non-empty description contains
    the query, the case of letters ignored. The empty query returns every
    task, a query and its lower-case form return the same, and a task is
    found by its own title. *)
Theorem searchTasks_finds (query : string) st :
  searchTasks query st = List.filter (task_contains (toLowerCase query)) (getTasks st) /\
  searchTasks "" st = getTasks st /\
  searchTasks (toLowerCase query) st = searchTasks query st /\
  forall task title,
    task ∈ getTasks st -> field task "title" = Some (VStr title) ->
    task ∈ searchTasks title st.
Proof.
  split_and!.
  - apply searchTasks_filter.
  - rewrite searchTasks_filter. apply filter_all.
    apply Forall_forall. intros task _. unfold task_contains. simpl.
    by rewrite includes_empty.
  - by rewrite !searchTasks_filter, toLowerCase_idempotent.
  - intros task title Hin Ht. rewrite searchTasks_filter.
    apply list_elem_of_In, filter_In. split; [by apply list_elem_of_In|].
    unfold task_contains. rewrite Ht. simpl. by rewrite includes_refl.
Qed.

(** ** The profile *)

Lemma validateUserProfile_object (profile : value) :
  validateUserProfile profile = true ->
  exists fs prefs theme (b : bool) model,
    profile = VObj fs /\ assoc "preferences" fs = Some (VObj prefs) /\
    assoc "theme" prefs = Some (VStr theme) /\ theme_name theme = true /\
    assoc "notifications" prefs = Some (VBool b) /\
    assoc "aiModel" prefs = Some (VStr model) /\
    (is_undefined (assoc "name" fs) || is_type TString (assoc "name" fs) = true) /\
    (is_undefined (assoc "avatar" fs) || is_type TString (assoc "avatar" fs) = true).
Proof.
  unfold validateUserProfile. rewrite !andb_true_iff. intros Hv. destruct_and!.
  destruct profile as [| | | | | |fs]; try done. simpl in *.
  destruct (assoc "preferences" fs) as [[| | | | | |prefs]|] eqn:Hprefs; try done.
  simpl in *.
  match goal with Hp : _ && _ && _ = true |- _ =>
    rewrite !andb_true_iff in Hp; destruct Hp as [[Htheme Hb] Hmodel] end.
  apply is_type_boolean in Hb as [b Hb]. apply is_type_string in Hmodel as [model Hmodel].
  destruct (assoc "theme" prefs) as [[|?|?|theme|?|?|?]|] eqn:Ht; try done.
  exists fs, prefs, theme, b, model. split_and!; done.
Qed.

(** A valid profile is valid again once written and read back. *)
Lemma validateUserProfile_reparse (profile : value) :
  validateUserProfile profile = true -> validateUserProfile (reparse profile) = true.
Proof.
  intros Hv.
  destruct (validateUserProfile_object profile Hv)
    as (fs & prefs & theme & b & model & -> & Hp & Ht & Hname & Hb & Hm & Hn & Ha).
  rewrite reparse_object. unfold validateUserProfile. cbn [field].
  rewrite !(assoc_map reparse), Hp.
  change (reparse <$> Some (VObj prefs)) with (Some (reparse (VObj prefs))).
  rewrite reparse_object. cbn [field].
  rewrite !(assoc_map reparse), Ht, Hb, Hm. simpl.
  change (is_theme (Some (reparse (VStr theme)))) with (theme_name theme).
  rewrite Hname, !andb_true_r. apply andb_true_iff. split.
  - by destruct (assoc "name" fs) as [[]|].
  - by destruct (assoc "avatar" fs) as [[]|].
Qed.

Lemma validateUserProfile_truthy (profile : value) :
  validateUserProfile profile = true -> truthy (Some profile) = true.
Proof. by destruct profile. Qed.

(** [getProfile], given fuel for one call. *)
Lemma getProfile_unfold (fuel : nat) st :
  getProfile (S fuel) st
  = if profile_stored st then Some (getItem st USER_PROFILE, st) else None.
Proof.
  unfold profile_stored.
  destruct (validateUserProfile (getItem st USER_PROFILE)) eqn:Hv.
  - by apply getProfile_valid.
  - by apply getProfile_diverges.
Qed.

(** X15. [getProfile] returns exactly when the store holds a valid
    profile: it then returns that profile and leaves the store as it was.
    When the store holds none, no amount of fuel makes it return: the
    default profile is not what it falls back to. *)
Theorem getProfile_returns_stored_profile (fuel : nat) st :
  getProfile (S fuel) st
  = if profile_stored st then Some (getItem st USER_PROFILE, st) else None.
Proof. exact (getProfile_unfold fuel st). Qed.

Lemma getProfile_Some (fuel : nat) st (p : value) st' :
  getProfile fuel st = Some (p, st') ->
  st' = st /\ p = getItem st USER_PROFILE /\ profile_stored st = true.
Proof.
  destruct fuel as [|fuel]; [done|].
  rewrite getProfile_unfold.
  destruct (profile_stored st); [|done]. by intros [= <- <-].
Qed.

Lemma profile_stored_setItem st (p : value) :
  validateUserProfile p = true -> profile_stored (setItem st USER_PROFILE p) = true.
Proof.
  intros Hv. unfold profile_stored. rewrite getItem_setItem_eq.
  by apply validateUserProfile_reparse.
Qed.

Lemma profile_stored_other st (k : string) v :
  k <> USER_PROFILE -> profile_stored (setItem st k v) = profile_stored st.
Proof. intros Hk. unfold profile_stored. by rewrite getItem_setItem_ne. Qed.

(** A property can be read of every argument but [null] and
    [undefined]. *)
Lemma argument_prop_nullish (a : argument) (k : string) :
  if nullish a then argument_prop a k = Throw TypeError
  else exists p, argument_prop a k = Ok p.
Proof. destruct a as [|[]|]; simpl; try done; by eexists. Qed.

(** What a call of [updateProfile] that returns has done. *)
Lemma updateProfile_Some (fuel : nat) (u : argument) st (r : result unit) st' :
  updateProfile fuel u st = Some (r, st') ->
  profile_stored st = true /\ profile_stored st' = true /\
  match r with
  | Ok _ => nullish u = false /\ forall k, k <> USER_PROFILE -> st' !! k = st !! k
  | Throw e => e = (if nullish u then TypeError else InvalidProfile) /\ st' = st
  end.
Proof.
  unfold updateProfile, updateProfile_body.
  destruct (getProfile fuel st) as [[cur st1]|] eqn:Hget; [|done].
  apply getProfile_Some in Hget as (-> & -> & Hst).
  pose proof (argument_prop_nullish u "preferences") as Hu.
  destruct (nullish u).
  - rewrite Hu. by intros [= <- <-].
  - destruct Hu as [p ->].
    destruct (validateUserProfile _) eqn:Hv; simpl; intros [= <- <-].
    + split_and!; [done|by apply profile_stored_setItem|done|].
      intros k Hk. by apply setItem_other.
    + done.
Qed.

(** X16. [resetProfile] is the way out: whatever the store holds, after it
    [getProfile] returns the default profile, and no other key of the
    store has changed. *)
Theorem resetProfile_then_getProfile (fuel : nat) st :
  getProfile (S fuel) (resetProfile st) = Some (createDefaultUserProfile, resetProfile st) /\
  forall k, k <> USER_PROFILE -> resetProfile st !! k = st !! k.
Proof.
  split.
  - rewrite getProfile_unfold.
    unfold profile_stored, resetProfile. by rewrite getItem_setItem_eq.
  - intros k Hk. by apply setItem_other.
Qed.

(** X17. The profile operations keep a valid profile in the store,
    whatever they are given: [undefined], any value, or an object with
    properties that hold [undefined]. A call of [updateProfile] or
    [updatePreferences] that ends leaves a valid profile behind, and when
    it throws it has written nothing. [updateProfile] throws a type error
    exactly on [null] and [undefined], of which it reads a property, and
    otherwise only the invalid-profile error; [updatePreferences] throws
    only the latter. [importData] writes a profile only if it is valid;
    [resetProfile] writes a valid one. *)
Theorem stored_profile_stays_valid :
  (forall fuel u st r st',
     updateProfile fuel u st = Some (r, st') ->
     profile_stored st' = true /\
     (nullish u = true -> r = Throw TypeError) /\
     forall e, r = Throw e ->
               e = (if nullish u then TypeError else InvalidProfile) /\ st' = st) /\
  (forall fuel u st r st',
     updatePreferences fuel u st = Some (r, st') ->
     profile_stored st' = true /\ forall e, r = Throw e -> e = InvalidProfile /\ st' = st) /\
  (forall t st st',
     importData t st = Ok st' -> profile_stored st = true -> profile_stored st' = true) /\
  (forall st, profile_stored (resetProfile st) = true).
Proof.
  split_and!.
  - intros fuel u st r st' Hu.
    apply updateProfile_Some in Hu as (_ & Hst' & Hr). split_and!; [done| |].
    + intros Hn. destruct r as [[]|e]; [by destruct Hr as [? _]; congruence|].
      destruct Hr as [-> _]. by rewrite Hn.
    + intros e ->. done.
  - intros fuel u st r st'. unfold updatePreferences.
    destruct (getProfile fuel st) as [[cur st1]|] eqn:Hget; [|done].
    apply getProfile_Some in Hget as (-> & -> & _).
    intros Hu. apply updateProfile_Some in Hu as (_ & Hst' & Hr). split; [done|].
    intros e ->. done.
  - intros t st st'. unfold importData.
    destruct (JSON_parse t) as [j|]; simpl; [|done].
    destruct (prop (of_json j) "data") as [data|]; simpl; [|done].
    destruct (truthy data); simpl; [|done].
    intros [= <-] Hst.
    set (st1 := match data ≫= (fun d => field d "chats") with
                | Some (VArr l) => setItem st CHATS (VArr l)
                | _ => st
                end).
    assert (H1 : profile_stored st1 = true).
    { unfold st1. destruct (data ≫= _) as [[]|];
        rewrite ?profile_stored_other by done; done. }
    set (st2 := match data ≫= (fun d => field d "tasks") with
                | Some (VArr l) => setItem st1 TASKS (VArr l)
                | _ => st1
                end).
    assert (H2 : profile_stored st2 = true).
    { unfold st2. destruct (data ≫= (fun d => field d "tasks")) as [[]|];
        rewrite ?profile_stored_other by done; done. }
    destruct (data ≫= (fun d => field d "profile")) as [p|]; [|done].
    destruct (truthy (Some p) && validateUserProfile p) eqn:Hp; [|done].
    apply andb_true_iff in Hp as [_ Hp]. by apply profile_stored_setItem.
  - intros st. by apply profile_stored_setItem.
Qed.

(** X18. What [importData] does with a text. A text that is not JSON
    raises the syntax error of the parser; the document [null] raises a
    type error; a document without a truthy [data] raises the
    invalid-format error. Every other document is imported: only the three
    keys of the conversations, the tasks and the profile can change, and a
    collection that the document does not give as an array is left as it
    was, not cleared. *)
Theorem importData_outcomes (t : text) st :
  match t with
  | Malformed => importData t st = Throw SyntaxError
  | Text JNull => importData t st = Throw TypeError
  | Text j =>
      let data := field (of_json j) "data" in
      if truthy data then
        exists st',
          importData t st = Ok st' /\
          (forall k, k <> CHATS -> k <> TASKS -> k <> USER_PROFILE -> st' !! k = st !! k) /\
          (isArray (data ≫= fun d => field d "chats") = false -> st' !! CHATS = st !! CHATS) /\
          (isArray (data ≫= fun d => field d "tasks") = false -> st' !! TASKS = st !! TASKS)
      else importData t st = Throw InvalidFormat
  end.
Proof.
  destruct t as [j|]; [|done].
  assert (Hgen : forall data : option value,
             truthy data = true ->
             exists st',
               (let chats := data ≫= (fun d => field d "chats") in
                let tasks := data ≫= (fun d => field d "tasks") in
                let profile := data ≫= (fun d => field d "profile") in
                let st0 := match chats with
                           | Some (VArr l) => setItem st CHATS (VArr l)
                           | _ => st
                           end in
                let st0 := match tasks with
                           | Some (VArr l) => setItem st0 TASKS (VArr l)
                           | _ => st0
                           end in
                let st0 := match profile with
                           | Some p =>
                               if truthy profile && validateUserProfile p
                               then setItem st0 USER_PROFILE p else st0
                           | None => st0
                           end in
                (Ok st0 : result store)) = Ok st' /\
               (forall k, k <> CHATS -> k <> TASKS -> k <> USER_PROFILE -> st' !! k = st !! k) /\
               (isArray (data ≫= fun d => field d "chats") = false -> st' !! CHATS = st !! CHATS) /\
               (isArray (data ≫= fun d => field d "tasks") = false -> st' !! TASKS = st !! TASKS)).
  { intros data _. eexists. split; [reflexivity|].
    split_and!; intros;
      destruct (data ≫= (fun d => field d "profile")) as [p|];
      try destruct (truthy (Some p) && validateUserProfile p);
      destruct (data ≫= (fun d => field d "tasks")) as [[]|];
      destruct (data ≫= (fun d => field d "chats")) as [[]|];
      simpl in *; rewrite ?setItem_other by first [done | congruence]; done. }
  destruct j as [| b | x | s | l | fs]; [done|..]; simpl;
    try (unfold importData; simpl; reflexivity).
  destruct (truthy (assoc "data" (map (fun kv => (kv.1, of_json kv.2)) fs))) eqn:Hd.
  - unfold importData. simpl. rewrite Hd. simpl. by apply Hgen.
  - unfold importData. simpl. by rewrite Hd.
Qed.

(** *** Objects with properties that hold [undefined] *)

Lemma object_unfold (props : list (string * argument)) :
  object props
  = VObj (flat_map (fun kv =>
                      match settled kv.2 with
                      | Some v => [(kv.1, v)]
                      | None => []
                      end)
                   props).
Proof. reflexivity. Qed.

(** Reading a property of an object whose property names are distinct. *)
Lemma field_object (k : string) (props : list (string * argument)) :
  NoDup (map fst props) -> field (object props) k = assoc k props ≫= settled.
Proof.
  rewrite object_unfold. cbn [field].
  induction props as [|[k' a] props IH]; [done|].
  intros Hnd. apply NoDup_cons in Hnd as [Hk' Hnd].
  cbn [flat_map fst snd]. cbn [assoc].
  destruct (settled a) as [v|] eqn:Ha.
  - cbn [app assoc]. destruct (String.eqb k k'); [by rewrite <- Ha | by apply IH].
  - cbn [app]. destruct (String.eqb_spec k k') as [->|Hne]; [|by apply IH].
    cbn [mbind option_bind]. rewrite Ha. rewrite (IH Hnd).
    apply (assoc_None k' props) in Hk'. by rewrite Hk'.
Qed.

(** An object none of whose properties holds [undefined]. *)
Lemma object_values (fs : list (string * value)) :
  object (map (fun kv => (kv.1, Value kv.2)) fs) = VObj fs.
Proof.
  rewrite object_unfold. f_equal.
  induction fs as [|[k v] fs IH]; [done|]. simpl. by rewrite IH.
Qed.

Lemma map_spread {A B : Type} (g : A -> B) (fs gs : list (string * A)) :
  map (fun kv => (kv.1, g kv.2)) (spread fs gs)
  = spread (map (fun kv => (kv.1, g kv.2)) fs) (map (fun kv => (kv.1, g kv.2)) gs).
Proof.
  induction gs as [|kv gs IH] using rev_ind; [done|].
  rewrite map_app. cbn [map]. rewrite !spread_snoc, map_put. cbn [fst snd]. by rewrite IH.
Qed.

(** [updateProfile] on a store that holds a valid profile, for an
    argument of which the property can be read. *)
Lemma updateProfile_unfold (fuel : nat) (u preferences : argument)
    (cur prefs : list (string * value)) st :
  getItem st USER_PROFILE = VObj cur ->
  validateUserProfile (VObj cur) = true ->
  assoc "preferences" cur = Some (VObj prefs) ->
  argument_prop u "preferences" = Ok preferences ->
  let updated :=
    object (put "preferences"
              (Object (spread (map (fun kv => (kv.1, Value kv.2)) prefs)
                              (spread_props (or_empty preferences))))
              (spread (map (fun kv => (kv.1, Value kv.2)) cur) (spread_props u))) in
  updateProfile (S fuel) u st
  = if validateUserProfile updated then Some (Ok (), setItem st USER_PROFILE updated)
    else Some (Throw InvalidProfile, st).
Proof.
  intros Hcur Hv Hp Hu updated.
  unfold updateProfile, updateProfile_body.
  rewrite getProfile_unfold. unfold profile_stored. rewrite Hcur, Hv, Hu.
  cbn [field]. rewrite Hp. cbn [of_property spread_props own_props]. fold updated.
  by destruct (validateUserProfile updated).
Qed.

(** The profile read after a valid one was written. *)
Lemma getProfile_after_write (fuel : nat) (fs : list (string * value)) st :
  validateUserProfile (VObj fs) = true ->
  getProfile (S fuel) (setItem st USER_PROFILE (VObj fs))
  = Some (reparse (VObj fs), setItem st USER_PROFILE (VObj fs)).
Proof.
  intros Hv. rewrite getProfile_unfold.
  rewrite profile_stored_setItem by done. by rewrite getItem_setItem_eq.
Qed.

Lemma field_reparse (fs : list (string * value)) (k : string) :
  field (reparse (VObj fs)) k = reparse <$> assoc k fs.
Proof. rewrite reparse_object. apply assoc_map. Qed.

Lemma preference_reparse (fs prefs : list (string * value)) (k : string) :
  assoc "preferences" fs = Some (VObj prefs) ->
  preference (reparse (VObj fs)) k = reparse <$> assoc k prefs.
Proof.
  intros Hp. unfold preference. rewrite field_reparse, Hp.
  change (reparse <$> Some (VObj prefs)) with (Some (reparse (VObj prefs))).
  apply field_reparse.
Qed.

Lemma optional_string_fixed (a : option value) :
  is_undefined a || is_type TString a = true -> reparse <$> a = a.
Proof. by destruct a as [[]|]. Qed.

(** What the validator computes on an object whose preferences are an
    object and whose name and avatar are as they should be. *)
Lemma validateUserProfile_fields (fs prefs : list (string * value)) :
  assoc "preferences" fs = Some (VObj prefs) ->
  is_undefined (assoc "name" fs) || is_type TString (assoc "name" fs) = true ->
  is_undefined (assoc "avatar" fs) || is_type TString (assoc "avatar" fs) = true ->
  validateUserProfile (VObj fs)
  = is_theme (assoc "theme" prefs) &&
    is_type TBoolean (assoc "notifications" prefs) &&
    is_type TString (assoc "aiModel" prefs).
Proof.
  intros Hp Hn Ha. unfold validateUserProfile. cbn [field].
  rewrite Hp. cbn [field]. by rewrite Hn, Ha.
Qed.

Lemma is_theme_name (s : string) : is_theme (Some (VStr s)) = theme_name s.
Proof. reflexivity. Qed.

Ltac put_lookup := repeat (rewrite assoc_put_eq || rewrite assoc_put_ne by done).

(** The property [k] after the literal of an update was spread over the
    properties [fs]. *)
Lemma assoc_spread_entry {A : Type} (k : string) (f : A -> value) (p : optional_property A)
    (fs before after : list (string * argument)) :
  k ∉ map fst before -> k ∉ map fst after ->
  assoc k (spread fs (before ++ entry k f p ++ after))
  = match p with
    | Absent => assoc k fs
    | Undef => Some Undefined
    | Present a => Some (Value (f a))
    end.
Proof.
  intros Hb Ha. rewrite assoc_spread, !rev_app_distr, !assoc_app.
  assert (Hra : assoc k (rev after) = None).
  { apply assoc_None. by rewrite map_rev, list_elem_of_In, <- in_rev, <- list_elem_of_In. }
  assert (Hrb : assoc k (rev before) = None).
  { apply assoc_None. by rewrite map_rev, list_elem_of_In, <- in_rev, <- list_elem_of_In. }
  rewrite Hra, Hrb. destruct p; simpl; rewrite ?String.eqb_refl; done.
Qed.

(** The same without distinct names, when no property holds
    [undefined]. *)
Lemma field_object_defined (k : string) (props : list (string * argument)) :
  Forall (fun kv => settled kv.2 <> None) props ->
  field (object props) k = assoc k props ≫= settled.
Proof.
  rewrite object_unfold. cbn [field].
  induction props as [|[k' a] props IH]; [done|].
  intros Hd. apply Forall_cons in Hd as [Ha Hd]. cbn [fst snd] in Ha.
  cbn [flat_map fst snd]. cbn [assoc].
  destruct (settled a) as [v|] eqn:Hv; [|done].
  cbn [app assoc]. destruct (String.eqb k k'); [by rewrite <- Hv | by apply IH].
Qed.

Lemma keys_entry {A : Type} (k k' : string) (f : A -> value) (p : optional_property A) :
  k' <> k -> k' ∉ map fst (entry k f p).
Proof.
  intros Hne. destruct p; simpl; [apply not_elem_of_nil|..];
    apply not_elem_of_cons; (split; [done|apply not_elem_of_nil]).
Qed.

(** X19. [updateProfile] on a store that holds a valid profile, with an
    update of the declared type, each of whose properties is left out,
    holds [undefined] or holds a value. If the update carries preferences
    whose theme is none of the three, the call throws the invalid-profile
    error and writes nothing. Otherwise it succeeds, and [getProfile] then
    returns a profile in which a name or an avatar that the update gives
    has the update's value, one that it gives as [undefined] is gone, and
    one that it leaves out has kept its own; the preferences are those of
    the update where it gives preferences, and have kept their own where
    it leaves them out or gives [undefined]. The property names of the
    stored profile are distinct, as those of an object are. *)
Theorem updateProfile_merges (fuel : nat) (u : profileUpdates) st
    (fs : list (string * value)) :
  profile_stored st = true ->
  getItem st USER_PROFILE = VObj fs ->
  NoDup (map fst fs) ->
  let cur := getItem st USER_PROFILE in
  let given := given_preference u in
  if theme_ok (given_theme u) then
    exists st' p',
      updateProfile (S fuel) (profileUpdates_object u) st = Some (Ok (), st') /\
      getProfile (S fuel) st' = Some (p', st') /\
      field p' "name" = assigned VStr (pu_name u) (field cur "name") /\
      field p' "avatar" = assigned VStr (pu_avatar u) (field cur "avatar") /\
      preference p' "theme" = or_else (given "theme") (preference cur "theme") /\
      preference p' "notifications"
      = or_else (given "notifications") (preference cur "notifications") /\
      preference p' "aiModel" = or_else (given "aiModel") (preference cur "aiModel")
  else updateProfile (S fuel) (profileUpdates_object u) st = Some (Throw InvalidProfile, st).
Proof.
  intros Hst Hcur Hnd cur given.
  assert (Hv : validateUserProfile (VObj fs) = true).
  { unfold profile_stored in Hst. by rewrite Hcur in Hst. }
  destruct (validateUserProfile_object (VObj fs) Hv)
    as (fs0 & prefs & theme & b & model & [= <-] & Hp & Ht & Hname & Hb & Hm & Hn & Ha).
  set (preferences := match pu_preferences u with
                      | Present q => Value (preferences_object q)
                      | _ => Undefined
                      end).
  assert (Hread : argument_prop (profileUpdates_object u) "preferences" = Ok preferences).
  { unfold preferences, profileUpdates_object. by destruct u as [[] [] []]. }
  rewrite (updateProfile_unfold fuel _ _ fs prefs st Hcur Hv Hp Hread).
  set (given_props := match pu_preferences u with
                      | Present q => own_props (Some (preferences_object q))
                      | _ => []
                      end).
  assert (Hprefs' : Object (spread (map (fun kv => (kv.1, Value kv.2)) prefs)
                              (spread_props (or_empty preferences)))
                    = Object (map (fun kv => (kv.1, Value kv.2)) (spread prefs given_props))).
  { f_equal. rewrite map_spread. unfold preferences, given_props.
    by destruct (pu_preferences u). }
  rewrite Hprefs'.
  set (top := spread _ (spread_props (profileUpdates_object u))).
  assert (Hndt : NoDup (map fst (put "preferences"
                                   (Object (map (fun kv => (kv.1, Value kv.2))
                                              (spread prefs given_props))) top))).
  { apply NoDup_put, NoDup_spread. by rewrite map_map. }
  set (updated := put "preferences" _ top) in *.
  assert (Hfield : forall k, field (object updated) k = assoc k updated ≫= settled).
  { intros k. by apply field_object. }
  assert (Hpreferences : field (object updated) "preferences"
                         = Some (VObj (spread prefs given_props))).
  { rewrite Hfield. unfold updated. rewrite assoc_put_eq. cbn [mbind option_bind].
    change (settled (Object ?x)) with (Some (object x)). by rewrite object_values. }
  assert (Hname' : field (object updated) "name"
                   = assigned VStr (pu_name u) (assoc "name" fs)).
  { rewrite Hfield. unfold updated. rewrite assoc_put_ne by done.
    unfold top, profileUpdates_object. cbn [spread_props].
    change (entry "name" VStr (pu_name u) ++ ?r)
      with ([] ++ entry "name" VStr (pu_name u) ++ r).
    rewrite assoc_spread_entry.
    - destruct (pu_name u); simpl; [|done..].
      rewrite (assoc_map Value). by destruct (assoc "name" fs).
    - apply not_elem_of_nil.
    - rewrite map_app. apply not_elem_of_app. split; by apply keys_entry. }
  assert (Havatar' : field (object updated) "avatar"
                     = assigned VStr (pu_avatar u) (assoc "avatar" fs)).
  { rewrite Hfield. unfold updated. rewrite assoc_put_ne by done.
    unfold top, profileUpdates_object. cbn [spread_props].
    rewrite assoc_spread_entry.
    - destruct (pu_avatar u); simpl; [|done..].
      rewrite (assoc_map Value). by destruct (assoc "avatar" fs).
    - by apply keys_entry.
    - by apply keys_entry. }
  assert (Hgiven : forall k,
             k = "theme" \/ k = "notifications" \/ k = "aiModel" ->
             assoc k (spread prefs given_props) = or_else (given k) (assoc k prefs)).
  { intros k Hk. unfold given, given_preference, given_props.
    destruct (pu_preferences u) as [| |[t nb m]]; [done..|].
    destruct Hk as [->|[->| ->]]; simpl; put_lookup; done. }
  pose proof (object_unfold updated) as Hobj.
  set (ups := flat_map _ updated) in Hobj.
  rewrite Hobj in Hpreferences, Hname', Havatar' |- *.
  cbn [field] in Hpreferences, Hname', Havatar'.
  assert (Hvalid : validateUserProfile (VObj ups) = theme_ok (given_theme u)).
  { rewrite (validateUserProfile_fields ups (spread prefs given_props) Hpreferences).
    - rewrite !Hgiven by tauto. rewrite Ht, Hb, Hm.
      unfold given, given_preference, given_theme.
      destruct (pu_preferences u) as [| |[t nb m]]; simpl; rewrite ?andb_true_r; try done.
      all: by rewrite is_theme_name.
    - rewrite Hname'. destruct (pu_name u); simpl; done.
    - rewrite Havatar'. destruct (pu_avatar u); simpl; done. }
  rewrite Hvalid. destruct (theme_ok (given_theme u)); [|done].
  eexists _, _. split; [reflexivity|].
  split; [by apply getProfile_after_write|].
  rewrite !field_reparse, !(preference_reparse _ _ _ Hpreferences).
  rewrite Hname', Havatar', !Hgiven by tauto.
  unfold cur. rewrite Hcur. unfold preference. cbn [field]. rewrite Hp.
  cbn [mbind option_bind field]. rewrite Ht, Hb, Hm.
  split_and!.
  - destruct (pu_name u); simpl; [by apply optional_string_fixed|done..].
  - destruct (pu_avatar u); simpl; [by apply optional_string_fixed|done..].
  - unfold given, given_preference. by destruct (pu_preferences u) as [| |[t nb m]].
  - unfold given, given_preference. by destruct (pu_preferences u) as [| |[t nb m]].
  - unfold given, given_preference. by destruct (pu_preferences u) as [| |[t nb m]].
Qed.

Lemma assoc_spread_twice {A : Type} (k : string) (fs gs : list (string * A)) :
  NoDup (map fst fs) -> assoc k (spread fs (spread fs gs)) = assoc k (spread fs gs).
Proof.
  intros Hfs. rewrite (assoc_spread k fs (spread fs gs)).
  rewrite assoc_rev by (by apply NoDup_spread).
  destruct (assoc k (spread fs gs)) as [v|] eqn:E; [done|].
  rewrite assoc_spread in E. by destruct (assoc k (rev gs)).
Qed.

Lemma Forall_put {A : Type} (P : string * A -> Prop) (k : string) (a : A)
    (fs : list (string * A)) :
  P (k, a) -> Forall P fs -> Forall P (put k a fs).
Proof.
  intros Ha Hfs. induction Hfs as [|[k' a'] fs Hkv Hfs IH]; simpl; [by constructor|].
  destruct (String.eqb k k'); by constructor.
Qed.

(** X20. [updatePreferences] on a store that holds a valid profile, with
    an update of the declared type, each of whose properties is left out,
    holds [undefined] or holds a value. If the update carries a theme that
    is none of the three, or gives one of the three preferences as
    [undefined], the call throws the invalid-profile error and writes
    nothing. Otherwise it succeeds, and [getProfile] then returns a
    profile in which each preference the update gives has the update's
    value, each other preference has kept its own, and so have the name
    and the avatar. The property names of the stored preferences are
    distinct, as those of an object are. *)
Theorem updatePreferences_merges (fuel : nat) (u : preferencesUpdates) st
    (prefs : list (string * value)) :
  profile_stored st = true ->
  field (getItem st USER_PROFILE) "preferences" = Some (VObj prefs) ->
  NoDup (map fst prefs) ->
  let cur := getItem st USER_PROFILE in
  if preferences_ok u then
    exists st' p',
      updatePreferences (S fuel) (preferencesUpdates_object u) st = Some (Ok (), st') /\
      getProfile (S fuel) st' = Some (p', st') /\
      field p' "name" = field cur "name" /\
      field p' "avatar" = field cur "avatar" /\
      preference p' "theme" = assigned VStr (pp_theme u) (preference cur "theme") /\
      preference p' "notifications"
      = assigned VBool (pp_notifications u) (preference cur "notifications") /\
      preference p' "aiModel" = assigned VStr (pp_aiModel u) (preference cur "aiModel")
  else
    updatePreferences (S fuel) (preferencesUpdates_object u) st
    = Some (Throw InvalidProfile, st).
Proof.
  intros Hst Hprefs Hnd cur.
  destruct (validateUserProfile_object cur Hst)
    as (fs & prefs0 & theme & b & model & Hcur & Hp & Ht & Hname & Hb & Hm & Hn & Ha).
  assert (Hv : validateUserProfile (VObj fs) = true) by (by rewrite <- Hcur).
  fold cur in Hprefs. rewrite Hcur in Hprefs. cbn [field] in Hprefs.
  rewrite Hp in Hprefs. injection Hprefs as ->.
  unfold updatePreferences.
  rewrite getProfile_unfold, Hst. fold cur. rewrite Hcur.
  cbn [field]. rewrite Hp. cbn [of_property spread_props own_props].
  set (values := map (fun kv => (kv.1, Value kv.2))).
  set (m1 := spread (values prefs) _).
  rewrite (updateProfile_unfold fuel (Object [("preferences", Object m1)]) (Object m1)
             fs prefs st Hcur Hv Hp eq_refl).
  fold values.
  change (spread_props (or_empty (Object m1))) with m1.
  change (spread (values fs) (spread_props (Object [("preferences", Object m1)])))
    with (put "preferences" (Object m1) (values fs)).
  set (updated := put "preferences" (Object (spread (values prefs) m1)) _).
  assert (Hndv : NoDup (map fst (values prefs))).
  { unfold values. by rewrite map_map. }
  assert (Hfield : forall k, field (object updated) k = assoc k updated ≫= settled).
  { intros k. apply field_object_defined. unfold updated.
    do 2 (apply Forall_put; [done|]). unfold values.
    apply Forall_forall. intros kv (kv' & -> & _)%list_elem_of_fmap. done. }
  assert (Hupdated : forall k,
             k <> "preferences" -> field (object updated) k = assoc k fs).
  { intros k Hk. rewrite Hfield. unfold updated. rewrite !assoc_put_ne by done.
    unfold values. rewrite (assoc_map Value). by destruct (assoc k fs). }
  assert (Hpreferences : field (object updated) "preferences"
                         = Some (object (spread (values prefs) m1))).
  { rewrite Hfield. unfold updated. by rewrite assoc_put_eq. }
  assert (Hm1 : forall k, field (object (spread (values prefs) m1)) k
                          = assoc k m1 ≫= settled).
  { intros k. rewrite field_object by (by apply NoDup_spread).
    unfold m1. by rewrite assoc_spread_twice. }
  assert (Htheme : field (object (spread (values prefs) m1)) "theme"
                   = assigned VStr (pp_theme u) (Some (VStr theme))).
  { rewrite Hm1. unfold m1, preferencesUpdates_object. cbn [spread_props].
    change (entry "theme" VStr (pp_theme u) ++ ?r)
      with ([] ++ entry "theme" VStr (pp_theme u) ++ r).
    rewrite assoc_spread_entry.
    - unfold values. rewrite (assoc_map Value), Ht. by destruct (pp_theme u).
    - apply not_elem_of_nil.
    - rewrite map_app. apply not_elem_of_app. split; by apply keys_entry. }
  assert (Hnotif : field (object (spread (values prefs) m1)) "notifications"
                   = assigned VBool (pp_notifications u) (Some (VBool b))).
  { rewrite Hm1. unfold m1, preferencesUpdates_object. cbn [spread_props].
    rewrite assoc_spread_entry.
    - unfold values. rewrite (assoc_map Value), Hb. by destruct (pp_notifications u).
    - by apply keys_entry.
    - by apply keys_entry. }
  assert (Hmodel : field (object (spread (values prefs) m1)) "aiModel"
                   = assigned VStr (pp_aiModel u) (Some (VStr model))).
  { rewrite Hm1. unfold m1, preferencesUpdates_object. cbn [spread_props].
    rewrite app_assoc, <- (app_nil_r (entry "aiModel" VStr (pp_aiModel u))).
    rewrite assoc_spread_entry.
    - unfold values. rewrite (assoc_map Value), Hm. by destruct (pp_aiModel u).
    - rewrite map_app. apply not_elem_of_app. split; by apply keys_entry.
    - apply not_elem_of_nil. }
  pose proof (object_unfold updated) as Hobj.
  set (ups := flat_map _ updated) in Hobj.
  pose proof (object_unfold (spread (values prefs) m1)) as Hobj'.
  set (pps := flat_map _ (spread (values prefs) m1)) in Hobj'.
  rewrite Hobj' in Hpreferences, Htheme, Hnotif, Hmodel.
  rewrite Hobj in Hpreferences, Hupdated |- *.
  cbn [field] in Hpreferences, Htheme, Hnotif, Hmodel, Hupdated.
  assert (Hvalid : validateUserProfile (VObj ups) = preferences_ok u).
  { rewrite (validateUserProfile_fields ups pps Hpreferences).
    - rewrite Htheme, Hnotif, Hmodel. unfold preferences_ok.
      destruct (pp_theme u), (pp_notifications u), (pp_aiModel u); simpl;
        rewrite ?andb_true_r, ?andb_false_r, ?is_theme_name, ?Hname; done.
    - by rewrite Hupdated.
    - by rewrite Hupdated. }
  rewrite Hvalid. destruct (preferences_ok u); [|done].
  eexists _, _. split; [reflexivity|].
  split; [by apply getProfile_after_write|].
  rewrite !field_reparse, !(preference_reparse _ _ _ Hpreferences).
  rewrite !Hupdated by done. rewrite Htheme, Hnotif, Hmodel.
  unfold preference. cbn [field]. rewrite Hp. cbn [mbind option_bind field].
  rewrite Ht, Hb, Hm.
  split_and!.
  - by apply optional_string_fixed.
  - by apply optional_string_fixed.
  - by destruct (pp_theme u).
  - by destruct (pp_notifications u).
  - by destruct (pp_aiModel u).
Qed.

End Services.

(** * The providers and the store *)

Section Contexts.
Context `{JSDate}.

Implicit Types (st : store) (v : value).

Lemma prop_object (fs : list (string * value)) (k : string) :
  prop (VObj fs) k = Ok (assoc k fs).
Proof. done. Qed.

Lemma records_objects (c : collection) st :
  Forall (fun x => exists fs s, x = VObj fs /\ assoc "id" fs = Some (VStr s)) (records c st).
Proof.
  eapply Forall_impl; [apply records_valid|]. intros x Hx. destruct c; simpl in Hx.
  - destruct (validateChat_object x Hx) as (fs & s & ms & -> & Hid & _). by exists fs, s.
  - destruct (validateTask_object x Hx) as (fs & s & b & -> & Hid & _). by exists fs, s.
Qed.

(** The filter of the two reducers, on records that are objects. *)
Lemma filterR_by_id (l : list value) (id : string) :
  Forall (fun x => exists fs s, x = VObj fs /\ assoc "id" fs = Some (VStr s)) l ->
  filterR (fun x => i ← prop x "id"; Ok (negb (strict_eq i (Some (VStr id))))) l
  = Ok (List.filter (fun x => negb (strict_eq (field x "id") (Some (VStr id)))) l).
Proof.
  intros Hl. apply filterR_pure.
  eapply Forall_impl; [done|]. by intros x (fs & s & -> & _).
Qed.

Lemma ids_insert (l : list value) (i : nat) (x y : value) :
  l !! i = Some x -> field y "id" = field x "id" -> ids (<[i := y]> l) = ids l.
Proof.
  intros Hx Hy. unfold ids.
  change (map (fun z => field z "id") ?l0) with ((fun z => field z "id") <$> l0).
  rewrite list_fmap_insert, Hy. apply list_insert_id. by rewrite list_lookup_fmap, Hx.
Qed.

Lemma NoDup_ids_filter (p : value -> bool) (l : list value) :
  NoDup (ids l) -> NoDup (ids (List.filter p l)).
Proof.
  induction l as [|x l IH]; simpl; [done|].
  intros [Hx Hl]%NoDup_cons. destruct (p x); simpl; [|by apply IH].
  apply NoDup_cons. split; [|by apply IH].
  intros Hin. apply Hx. unfold ids in *.
  apply list_elem_of_In, in_map_iff in Hin as (y & Hy & Hin).
  apply filter_In in Hin as [Hin _].
  apply list_elem_of_In, in_map_iff. by exists y.
Qed.

(** With distinct identifiers, the map of the reducers that rewrites
    the records carrying an identifier rewrites one record, where
    [findIndex] finds it. *)
Lemma mapR_by_id (g : value -> result value) (l : list value) (id : string)
    (i : nat) (x x' : value) :
  Forall (fun y => exists fs s, y = VObj fs /\ assoc "id" fs = Some (VStr s)) l ->
  NoDup (ids l) ->
  findIndex (fun y => strict_eq (field y "id") (Some (VStr id))) l = Some i ->
  l !! i = Some x ->
  g x = Ok x' ->
  mapR (fun y => j ← prop y "id"; if strict_eq j (Some (VStr id)) then g y else Ok y) l
  = Ok (<[i := x']> l).
Proof.
  intros Hl. revert i. induction Hl as [|y l (fs & s & -> & Hs) Hl IH]; intros i; [done|].
  intros [Hy Hnd]%NoDup_cons Hi Hx Hg.
  cbn [findIndex field] in Hi. cbn [mapR]. rewrite prop_object. cbn [mbind result_bind].
  destruct (strict_eq (assoc "id" fs) (Some (VStr id))) eqn:E.
  - injection Hi as <-. simpl in Hx. injection Hx as <-. rewrite Hg. cbn [mbind result_bind].
    assert (Hrest : mapR (fun y => j ← prop y "id";
                                   if strict_eq j (Some (VStr id)) then g y else Ok y) l
                    = Ok l).
    { apply strict_eq_string in E.
      clear IH Hg. induction Hl as [|z l (gs & u & -> & Hu) _ IHl]; [done|].
      cbn [mapR]. rewrite prop_object. cbn [mbind result_bind].
      assert (Hne : strict_eq (assoc "id" gs) (Some (VStr id)) = false).
      { destruct (strict_eq _ _) eqn:E'; [|done]. apply strict_eq_string in E'.
        destruct Hy. simpl. rewrite E, <- E'. apply list_elem_of_here. }
      rewrite Hne. cbn [mbind result_bind]. rewrite IHl; [done| |].
      - intros Hin. apply Hy. simpl. by apply list_elem_of_further.
      - simpl in Hnd. by apply NoDup_cons in Hnd as [_ ?]. }
    by rewrite Hrest.
  - cbn [mbind result_bind].
    destruct (findIndex _ l) as [i'|] eqn:Hi'; [|done]. simpl in Hi. injection Hi as <-.
    simpl in Hx. rewrite (IH i' Hnd eq_refl Hx Hg). done.
Qed.

Lemma with_message_newMessage (chat : list (string * value)) (ms : list value)
    (id chatId : string) (md : messageData) :
  assoc "messages" chat = Some (VArr ms) ->
  ChatContext.with_message (VObj chat) (newMessage id chatId md)
  = Ok (VObj (put "lastMessageTime" (VDate (md_timestamp md))
                (put "lastMessage" (VStr (md_text md))
                   (put "messages" (VArr (ms ++ [newMessage id chatId md])) chat)))).
Proof. intros Hm. unfold ChatContext.with_message. cbn [field]. by rewrite Hm. Qed.

(** ** ChatProvider *)

Lemma ChatProvider_loadChats st (state : ChatContext.ChatState) :
  healthy Chats st -> NoDup (ids (getChats st)) ->
  ChatContext.currentChat state = VNull
  \/ validateChat (ChatContext.currentChat state) = true ->
  exists state',
    ChatContext.loadChats st state = Ok state' /\
    chats_in_sync st state' /\ ChatContext.loading state' = false.
Proof. intros Hh Hnd Hcur. eexists. split; [reflexivity|]. by split. Qed.

Lemma ChatProvider_createChat (id : string) (now : time) (title : string) st
    (state : ChatContext.ChatState) :
  chats_in_sync st state ->
  Some (VStr id) ∉ ids (getChats st) ->
  exists chat st' state',
    ChatContext.createChat id now title st state = Ok (chat, st', state') /\
    chats_in_sync st' state' /\
    ChatContext.currentChat state' = chat /\ ChatContext.loading state' = true.
Proof.
  intros (Hsync & Hh & Hnd & Hcur) Hfresh.
  destruct (records_after_create id now st) as [Hcreate _].
  destruct (Hcreate title Hh) as [E Hh'].
  destruct (reread_new_chat id title now st) as (_ & _ & Hvalid).
  exists (createChat id now title st).1, (createChat id now title st).2,
    {| ChatContext.chats := (createChat id now title st).1 :: ChatContext.chats state;
       ChatContext.currentChat := (createChat id now title st).1;
       ChatContext.loading := true;
       ChatContext.error := ChatContext.error state |}.
  split; [reflexivity|]. split; [|done].
  unfold chats_in_sync. cbn [ChatContext.chats ChatContext.currentChat].
  rewrite E, Hsync. split_and!; [done..| |by right].
  apply NoDup_cons. by split.
Qed.

Lemma ChatProvider_deleteChat (chatId : string) st (state : ChatContext.ChatState) :
  chats_in_sync st state ->
  exists st' state',
    ChatContext.deleteChat chatId st state = Ok (st', state') /\
    chats_in_sync st' state' /\ getChat st' chatId = None.
Proof.
  intros (Hsync & Hh & Hnd & Hcur).
  destruct (records_after_delete Chats chatId st Hh) as [E Hh']. cbn [records delete_by_id] in *.
  pose proof (records_objects Chats st) as Hobj. cbn [records] in Hobj.
  unfold ChatContext.deleteChat, ChatContext.chatReducer.
  rewrite Hsync, (filterR_by_id _ chatId Hobj).
  cbn [mbind result_bind]. eexists _, _. split; [reflexivity|].
  split; [|apply lookup_after_delete].
  split_and!; [by rewrite E|done| |].
  - rewrite E. by apply NoDup_ids_filter.
  - cbn. destruct (strict_eq _ _); [by left|done].
Qed.

Lemma ChatProvider_addMessage (id chatId : string) (md : messageData) (t : time) st
    (state : ChatContext.ChatState) :
  chats_in_sync st state ->
  md_timestamp md = Some t ->
  exists st' state' outcome,
    ChatContext.addMessage id chatId md st state = Ok (st', state', outcome) /\
    chats_in_sync st' state' /\
    outcome = match getChat st chatId with
              | Some _ => Ok (newMessage id chatId md)
              | None => Throw (NotFound "Chat" chatId)
              end /\
    (getChat st chatId = None ->
     st' = st /\ ChatContext.chats state' = ChatContext.chats state /\
     ChatContext.error state' = Some "Failed to send message").
Proof.
  intros (Hsync & Hh & Hnd & Hcur) Ht.
  destruct (getChat st chatId) as [chat|] eqn:Hget.
  - destruct (getChat_object st chatId chat Hget) as (fs & ms & -> & Hm).
    destruct (addMessage_in_place id chatId md t st fs ms Hh Hget Hm Ht)
      as (i & st' & Hadd & Hi & E & Hh').
    unfold getChat in Hget. destruct (find_by_id _ _ _ Hget) as (i' & Hi' & Hx & Hid).
    rewrite Hi in Hi'. injection Hi' as <-.
    unfold ChatContext.addMessage. rewrite Hadd.
    pose proof (records_objects Chats st) as Hobj. cbn [records] in Hobj.
    unfold ChatContext.chatReducer. rewrite Hsync.
    rewrite (mapR_by_id _ _ chatId i (VObj fs) _ Hobj Hnd Hi Hx
               (with_message_newMessage fs ms id chatId md Hm)).
    cbn [mbind result_bind]. rewrite Ht.
    assert (Hcur' : exists cur',
               (if strict_eq (ChatContext.optional_id (ChatContext.currentChat state))
                     (Some (VStr chatId))
                then ChatContext.with_message (ChatContext.currentChat state)
                       (newMessage id chatId md)
                else Ok (ChatContext.currentChat state)) = Ok cur' /\
               (cur' = VNull \/ validateChat cur' = true)).
    { destruct (strict_eq _ _) eqn:Eid; [|by eexists].
      destruct Hcur as [Hnull|Hvalid].
      - by rewrite Hnull in Eid.
      - destruct (validateChat_object _ Hvalid) as (cfs & cid & cms & Hc & _ & Hcm).
        rewrite Hc in *. rewrite (with_message_newMessage cfs cms id chatId md Hcm).
        eexists. split; [done|]. right. by apply validateChat_with_message. }
    destruct Hcur' as (cur' & -> & Hcur').
    cbn [mbind result_bind]. eexists _, _, _. split; [reflexivity|]. split; [|by split].
    split_and!; [by rewrite E|done| |done].
    rewrite E, (ids_insert _ i (VObj fs)); [done|done|].
    cbn [field]. by rewrite !assoc_put_ne.
  - pose proof (addMessage_cases id chatId md st) as Hthrow.
    unfold getChat in Hget, Hthrow. rewrite Hget in Hthrow.
    unfold ChatContext.addMessage. rewrite Hthrow. cbn.
    eexists _, _, _. split; [reflexivity|]. split; [done|]. split; [done|].
    intros _. by split_and!.
Qed.

(** X27. The conversation provider keeps its copy equal to the persisted
    collection. From a state in which the copy is the collection
    [getChats] reads, no conversation carries an Invalid Date, identifiers
    are distinct and the selected conversation is valid, each of
    [createChat] (with a fresh identifier), [deleteChat] and [addMessage]
    (with a valid timestamp) returns, and leaves a state of the same kind
    for the store it leaves: the reducer has done to the copy what the
    service has done to the store. [addMessage] on an identifier that is
    absent rethrows, records the failure and changes neither. After [createChat]
    the [loading] flag is left set, since the reducer case that adds the
    conversation does not clear it. *)
Theorem ChatProvider_stays_in_sync st (state : ChatContext.ChatState) :
  chats_in_sync st state ->
  (exists state',
     ChatContext.loadChats st state = Ok state' /\
     chats_in_sync st state' /\ ChatContext.loading state' = false) /\
  (forall id now title,
     Some (VStr id) ∉ ids (getChats st) ->
     exists chat st' state',
       ChatContext.createChat id now title st state = Ok (chat, st', state') /\
       chats_in_sync st' state' /\
       ChatContext.currentChat state' = chat /\ ChatContext.loading state' = true) /\
  (forall chatId,
     exists st' state',
       ChatContext.deleteChat chatId st state = Ok (st', state') /\
       chats_in_sync st' state' /\ getChat st' chatId = None) /\
  (forall id chatId md t,
     md_timestamp md = Some t ->
     exists st' state' outcome,
       ChatContext.addMessage id chatId md st state = Ok (st', state', outcome) /\
       chats_in_sync st' state' /\
       outcome = match getChat st chatId with
                 | Some _ => Ok (newMessage id chatId md)
                 | None => Throw (NotFound "Chat" chatId)
                 end /\
       (getChat st chatId = None ->
        st' = st /\ ChatContext.chats state' = ChatContext.chats state /\
        ChatContext.error state' = Some "Failed to send message")).
Proof.
  intros Hsync. split_and!.
  - destruct Hsync as (_ & Hh & Hnd & Hcur). by apply ChatProvider_loadChats.
  - intros id now title Hfresh. by apply ChatProvider_createChat.
  - intros chatId. by apply ChatProvider_deleteChat.
  - intros id chatId md t Ht. by eapply ChatProvider_addMessage.
Qed.

(** ** TaskProvider *)

Lemma mapR_ext {A B : Type} (f g : A -> result B) (l : list A) :
  (forall x, f x = g x) -> mapR f l = mapR g l.
Proof. intros Hfg. induction l as [|x l IH]; simpl; [done|]. by rewrite Hfg, IH. Qed.

(** The map of [UPDATE_TASK] and [UPDATE_CHAT], when the record given
    carries a string identifier. *)
Lemma mapR_update (payload : list (string * value)) (l : list value) (id : string) (i : nat)
    (x : value) :
  Forall (fun y => exists fs s, y = VObj fs /\ assoc "id" fs = Some (VStr s)) l ->
  NoDup (ids l) ->
  assoc "id" payload = Some (VStr id) ->
  findIndex (fun y => strict_eq (field y "id") (Some (VStr id))) l = Some i ->
  l !! i = Some x ->
  mapR (fun y => j ← prop y "id"; j' ← prop (VObj payload) "id";
                 Ok (if strict_eq j j' then VObj payload else y)) l
  = Ok (<[i := VObj payload]> l).
Proof.
  intros Hl Hnd Hid Hi Hx.
  rewrite <- (mapR_by_id (fun _ => Ok (VObj payload)) l id i x (VObj payload) Hl Hnd Hi Hx eq_refl).
  apply mapR_ext. intros y. rewrite prop_object, Hid.
  destruct (prop y "id") as [j|]; simpl; [|done]. by destruct (strict_eq j _).
Qed.

Lemma find_insert (l : list value) (id : string) (i : nat) (y : value) :
  findIndex (fun z => strict_eq (field z "id") (Some (VStr id))) l = Some i ->
  field y "id" = Some (VStr id) ->
  List.find (fun z => strict_eq (field z "id") (Some (VStr id))) (<[i := y]> l) = Some y.
Proof.
  intros Hi Hy. rewrite find_findIndex.
  rewrite (findIndex_insert _ l i y Hi).
  - simpl. apply list_lookup_insert_eq.
    apply findIndex_Some in Hi as (x & Hx & _). by eapply lookup_lt_Some.
  - rewrite Hy. simpl. apply String.eqb_refl.
Qed.

Lemma TaskProvider_createTask (id : string) (now : time) (td : taskData) st
    (state : TaskContext.TaskState) :
  tasks_in_sync st state ->
  Some (VStr id) ∉ ids (getTasks st) ->
  exists task st' state',
    TaskContext.createTask id now td st state = Ok (task, st', state') /\
    tasks_in_sync st' state' /\ TaskContext.loading state' = true.
Proof.
  intros (Hsync & Hh & Hnd) Hfresh.
  destruct (records_after_create id now st) as [_ Hcreate].
  destruct (Hcreate td Hh) as [E Hh'].
  exists (createTask id now td st).1, (createTask id now td st).2,
    {| TaskContext.tasks := (createTask id now td st).1 :: TaskContext.tasks state;
       TaskContext.loading := true;
       TaskContext.error := TaskContext.error state;
       TaskContext.filter := TaskContext.filter state |}.
  split; [reflexivity|]. split; [|done].
  unfold tasks_in_sync. cbn [TaskContext.tasks].
  rewrite E, Hsync. split_and!; [done..|].
  assert (Hid : field (createTask id now td st).1 "id" = Some (VStr id)).
  { by destruct td as [title [d|] flag [f|]]. }
  cbn [ids map]. rewrite Hid. apply NoDup_cons. by split.
Qed.

Lemma TaskProvider_deleteTask (taskId : string) st (state : TaskContext.TaskState) :
  tasks_in_sync st state ->
  exists st' state',
    TaskContext.deleteTask taskId st state = Ok (st', state') /\
    tasks_in_sync st' state' /\ getTask st' taskId = None.
Proof.
  intros (Hsync & Hh & Hnd).
  destruct (records_after_delete Tasks taskId st Hh) as [E Hh']. cbn [records delete_by_id] in *.
  pose proof (records_objects Tasks st) as Hobj. cbn [records] in Hobj.
  unfold TaskContext.deleteTask, TaskContext.taskReducer.
  rewrite Hsync, (filterR_by_id _ taskId Hobj).
  cbn [mbind result_bind]. eexists _, _. split; [reflexivity|].
  split; [|apply lookup_after_delete].
  split_and!; [by rewrite E|done|].
  rewrite E. by apply NoDup_ids_filter.
Qed.

Lemma TaskProvider_toggleTaskCompletion (taskId : string) st (state : TaskContext.TaskState) :
  tasks_in_sync st state ->
  exists st' state',
    TaskContext.toggleTaskCompletion taskId st state = Ok (st', state') /\
    tasks_in_sync st' state' /\
    match getTask st taskId with
    | Some task =>
        exists task',
          getTask st' taskId = Some task' /\
          field task' "completed" = Some (VBool (negb (truthy (field task "completed"))))
    | None =>
        st' = st /\
        TaskContext.error state' = Some "Failed to toggle task completion"
    end.
Proof.
  intros (Hsync & Hh & Hnd).
  destruct (getTask st taskId) as [task|] eqn:Hget.
  - assert (Hvalid : validateTask task = true).
    { unfold getTask in Hget. apply find_some in Hget as [Hin _].
      pose proof (getTasks_valid st) as Hall. rewrite Forall_forall in Hall.
      by apply Hall, list_elem_of_In. }
    destruct (validateTask_object task Hvalid) as (fs & s & b & -> & _ & Hb).
    destruct (toggleTaskCompletion_in_place taskId st fs b Hh Hget Hb)
      as (i & st' & Htoggle & Hi & E & Hh').
    unfold getTask in Hget. destruct (find_by_id _ _ _ Hget) as (i' & Hi' & Hx & Hid).
    rewrite Hi in Hi'. injection Hi' as <-. cbn [field] in Hid.
    set (task' := put "completed" (VBool (negb b)) fs) in *.
    assert (Hid' : assoc "id" task' = Some (VStr taskId)).
    { unfold task'. by rewrite assoc_put_ne. }
    assert (Hget' : getTask st' taskId = Some (VObj task')).
    { unfold getTask. rewrite E. by apply find_insert. }
    pose proof (records_objects Tasks st) as Hobj. cbn [records] in Hobj.
    unfold TaskContext.toggleTaskCompletion. rewrite Htoggle, Hget'.
    unfold TaskContext.taskReducer. rewrite Hsync.
    rewrite (mapR_update task' _ taskId i (VObj fs) Hobj Hnd Hid' Hi Hx).
    cbn [mbind result_bind]. eexists _, _. split; [reflexivity|]. split.
    + split_and!; [by rewrite E|done|].
      rewrite E, (ids_insert _ i (VObj fs)); [done|done|]. cbn [field]. by rewrite Hid, Hid'.
    + exists (VObj task'). split; [done|]. cbn [field]. rewrite Hb. unfold task'.
      by rewrite assoc_put_eq.
  - pose proof (toggleTaskCompletion_cases taskId st) as Hthrow.
    unfold getTask in Hget, Hthrow. rewrite Hget in Hthrow.
    unfold TaskContext.toggleTaskCompletion. rewrite Hthrow. cbn.
    eexists _, _. split; [reflexivity|]. by split.
Qed.

Lemma TaskProvider_filteredTasks st (state : TaskContext.TaskState) :
  tasks_in_sync st state ->
  TaskContext.filteredTasks state
  = Ok match TaskContext.filter state with
       | TaskContext.Completed => getTasksByStatus true st
       | TaskContext.Pending => getTasksByStatus false st
       | TaskContext.All => getTasks st
       end.
Proof.
  intros (Hsync & _ & _). unfold TaskContext.filteredTasks, getTasksByStatus.
  rewrite Hsync. destruct (TaskContext.filter state); [done|..]; apply filterR_pure.
  - eapply Forall_impl; [apply getTasks_valid|]. simpl.
    intros x (fs & s & b & -> & _ & Hb)%validateTask_object. simpl. rewrite Hb. by destruct b.
  - eapply Forall_impl; [apply getTasks_valid|]. simpl.
    intros x (fs & s & b & -> & _ & Hb)%validateTask_object. simpl. rewrite Hb. by destruct b.
Qed.

(** X28. The task provider keeps its copy equal to the persisted
    collection. From a state in which the copy is the collection
    [getTasks] reads, no task carries an Invalid Date and identifiers are
    distinct, each of [createTask] (with a fresh identifier), [deleteTask]
    and [toggleTaskCompletion] returns and leaves a state of the same
    kind for the store it leaves. A toggle negates the flag of the task
    found, and on an identifier that is absent it records the failure and
    changes neither store nor copy. The filtered list the provider shows
    is the list [getTasksByStatus] returns for the filter. After
    [createTask] the [loading] flag is left set. *)
Theorem TaskProvider_stays_in_sync st (state : TaskContext.TaskState) :
  tasks_in_sync st state ->
  (exists state',
     TaskContext.loadTasks st state = Ok state' /\
     tasks_in_sync st state' /\ TaskContext.loading state' = false) /\
  (forall id now td,
     Some (VStr id) ∉ ids (getTasks st) ->
     exists task st' state',
       TaskContext.createTask id now td st state = Ok (task, st', state') /\
       tasks_in_sync st' state' /\ TaskContext.loading state' = true) /\
  (forall taskId,
     exists st' state',
       TaskContext.deleteTask taskId st state = Ok (st', state') /\
       tasks_in_sync st' state' /\ getTask st' taskId = None) /\
  (forall taskId,
     exists st' state',
       TaskContext.toggleTaskCompletion taskId st state = Ok (st', state') /\
       tasks_in_sync st' state' /\
       match getTask st taskId with
       | Some task =>
           exists task',
             getTask st' taskId = Some task' /\
             field task' "completed" = Some (VBool (negb (truthy (field task "completed"))))
       | None =>
           st' = st /\
           TaskContext.error state' = Some "Failed to toggle task completion"
       end) /\
  TaskContext.filteredTasks state
  = Ok match TaskContext.filter state with
       | TaskContext.Completed => getTasksByStatus true st
       | TaskContext.Pending => getTasksByStatus false st
       | TaskContext.All => getTasks st
       end.
Proof.
  intros Hsync. split_and!.
  - destruct Hsync as (_ & Hh & Hnd). eexists. split; [reflexivity|]. by split.
  - intros id now td Hfresh. by apply TaskProvider_createTask.
  - intros taskId. by apply TaskProvider_deleteTask.
  - intros taskId. by apply TaskProvider_toggleTaskCompletion.
  - by apply TaskProvider_filteredTasks.
Qed.

End Contexts.

(** * The properties at concrete stores

    The stores below use the decimal date codec: a date is persisted as the
    decimal numeral of its time, and a string that is not a numeral, such as
    "garbage", makes the Invalid Date, as it does in the language itself. *)

Definition sample_chat : json :=
  JObj [("id", JStr "c1"); ("title", JStr "Hello"); ("lastMessage", JStr "");
        ("lastMessageTime", JStr "1000"); ("messages", JArr [])].

Definition sample_task (id : string) (flag : bool) (createdAt : string) : json :=
  JObj [("id", JStr id); ("title", JStr "Buy milk"); ("completed", JBool flag);
        ("createdAt", JStr createdAt)].

Definition sample_profile : json :=
  JObj [("preferences",
         JObj [("theme", JStr "dark"); ("notifications", JBool false);
               ("aiModel", JStr "gpt-4")])].

Definition sample_store : store :=
  <[USER_PROFILE := Text sample_profile]>
    (<[TASKS := Text (JArr [sample_task "t1" false "2000"])]>
       (<[CHATS := Text (JArr [sample_chat])]> ∅)).

Definition hello : messageData :=
  {| md_text := "Hello, world!"; md_isUser := true; md_timestamp := Some 3000%Z |}.

Definition reply : messageData :=
  {| md_text := "Hi!"; md_isUser := false; md_timestamp := Some 4000%Z |}.

(** The store after two messages were added to the sample conversation. *)
Definition sample_store_after_messages : store :=
  match addMessages "c1" [("m1", hello); ("m2", reply)] sample_store with
  | Ok st => st
  | Throw _ => ∅
  end.

Lemma addMessage_mirrors_last_message_witness :
  addMessages "c1" ([("m1", hello)] ++ [("m2", reply)]) sample_store
  = Ok sample_store_after_messages /\
  exists chat messages message,
    stored_chat sample_store_after_messages "c1" = Some (JObj chat) /\
    assoc "messages" chat = Some (JArr (messages ++ [JObj message])) /\
    assoc "id" message = Some (JStr "m2") /\
    assoc "text" message = Some (JStr (md_text reply)) /\
    assoc "timestamp" message = Some (toJSON (VDate (md_timestamp reply))) /\
    assoc "lastMessage" chat = assoc "text" message /\
    assoc "lastMessageTime" chat = assoc "timestamp" message.
Proof.
  assert (Hrun : addMessages "c1" ([("m1", hello)] ++ [("m2", reply)]) sample_store
                 = Ok sample_store_after_messages) by (vm_compute; reflexivity).
  split; [exact Hrun|].
  exact (addMessage_mirrors_last_message "c1" [("m1", hello)] "m2" reply
           sample_store sample_store_after_messages Hrun).
Defined.

(** The sample conversation as [getChat] returns it. *)
Definition sample_chat_read : value :=
  VObj [("id", VStr "c1"); ("title", VStr "Hello"); ("lastMessage", VStr "");
        ("lastMessageTime", VDate (Some 1000%Z)); ("messages", VArr [])].

Lemma addMessages_then_getChat_witness :
  getChat sample_store "c1" = Some sample_chat_read /\
  md_timestamp reply = Some 4000%Z /\
  exists st' chat' ms,
    addMessages "c1" ([("m1", hello)] ++ [("m2", reply)]) sample_store = Ok st' /\
    getChat st' "c1" = Some chat' /\
    field chat' "messages" = Some (VArr (ms ++ [newMessage "m2" "c1" reply])) /\
    field chat' "lastMessage" = Some (VStr (md_text reply)) /\
    field chat' "lastMessageTime" = Some (VDate (Some 4000%Z)) /\
    message_count chat' = message_count sample_chat_read + length [("m1", hello)] + 1.
Proof.
  assert (Hget : getChat sample_store "c1" = Some sample_chat_read)
    by (vm_compute; reflexivity).
  assert (Hd : forall ms, field sample_chat_read "messages" = Some (VArr ms) ->
                          messages_dates_ok ms = true).
  { intros ms Hms. injection Hms as <-. reflexivity. }
  assert (Hcalls : Forall (fun call : string * messageData => md_timestamp call.2 <> None)
                     [("m1", hello)]).
  { constructor; [discriminate|constructor]. }
  split_and!; [exact Hget | reflexivity |].
  exact (addMessages_then_getChat "c1" [("m1", hello)] "m2" reply 4000%Z
           sample_store sample_chat_read Hget Hd Hcalls eq_refl).
Defined.

(** A store whose persisted profile has no preferences. *)
Definition invalid_profile_store : store := <[USER_PROFILE := Text (JObj [])]> ∅.

Lemma no_valid_profile_no_return_witness :
  validateUserProfile (getItem invalid_profile_store USER_PROFILE) = false /\
  getProfile 100 invalid_profile_store = None /\
  updateProfile 100 (Value createDefaultUserProfile) invalid_profile_store = None /\
  exportData 100 5000%Z invalid_profile_store = None.
Proof.
  assert (Hinvalid : validateUserProfile (getItem invalid_profile_store USER_PROFILE) = false)
    by (vm_compute; reflexivity).
  split; [exact Hinvalid|].
  exact (no_valid_profile_no_return 100 (Value createDefaultUserProfile) 5000%Z
           invalid_profile_store Hinvalid).
Defined.

(** An array with a conversation, a string and a task, sanitized as
    conversations: the conversation alone is kept, its date revived. *)
Definition mixed_items : list value :=
  [of_json sample_chat; VStr "note"; of_json (sample_task "t1" false "2000")].

Lemma sanitizeStorageData_filters_witness :
  Forall (fun item => rehydrate_throws item = false) mixed_items /\
  sanitizeStorageData (VArr mixed_items) validateChat
  = Ok (List.filter validateChat (map rehydrate_pure mixed_items)) /\
  List.filter validateChat (map rehydrate_pure mixed_items) = [sample_chat_read].
Proof.
  assert (Hitems : Forall (fun item => rehydrate_throws item = false) mixed_items).
  { unfold mixed_items. repeat (constructor; [reflexivity|]). constructor. }
  split_and!; [exact Hitems | | vm_compute; reflexivity].
  exact (sanitizeStorageData_filters validateChat mixed_items Hitems).
Defined.

Definition new_task (title : string) (flag : bool) : taskData :=
  {| td_title := title; td_description := None; td_completed := flag;
     td_fromChatId := None |}.

Lemma getTaskStats_after_three_createTask_witness :
  getTasks ∅ = [] /\
  getTaskStats
    (createTask "t3" 3%Z (new_task "Task 3" true)
       (createTask "t2" 2%Z (new_task "Task 2" true)
          (createTask "t1" 1%Z (new_task "Task 1" false) ∅).2).2).2
  = {| total := 3; completed := 2; pending := 1;
       completionRate := (Number 6667 / 100)%float |}.
Proof.
  split; [reflexivity|].
  exact (getTaskStats_after_three_createTask "t1" "t2" "t3" 1%Z 2%Z 3%Z
           (new_task "Task 1" false) (new_task "Task 2" true) (new_task "Task 3" true)
           ∅ eq_refl eq_refl eq_refl eq_refl).
Defined.

(** Two conversations and two tasks, every date valid. *)
Definition second_chat : json :=
  JObj [("id", JStr "c2"); ("title", JStr "Plans"); ("lastMessage", JStr "");
        ("lastMessageTime", JStr "1500"); ("messages", JArr [])].

Definition two_records_store : store :=
  <[TASKS := Text (JArr [sample_task "t1" false "2000"; sample_task "t2" true "2500"])]>
    (<[CHATS := Text (JArr [sample_chat; second_chat])]> ∅).

Lemma two_records_store_healthy (c : collection) : healthy c two_records_store.
Proof. destruct c; apply Forall_forallb; vm_compute; reflexivity. Defined.

(** The second conversation with a new title. *)
Definition renamed_chat : list (string * value) :=
  [("id", VStr "c2"); ("title", VStr "Renamed"); ("lastMessage", VStr "");
   ("lastMessageTime", VDate (Some 1500%Z)); ("messages", VArr [])].

Lemma renamed_chat_present :
  assoc "id" renamed_chat ∈ ids (records Chats two_records_store).
Proof.
  assert (E : ids (records Chats two_records_store) = [Some (VStr "c1"); Some (VStr "c2")])
    by (vm_compute; reflexivity).
  rewrite E. apply list_elem_of_further, list_elem_of_here.
Defined.

Lemma update_fails_iff_id_absent_witness :
  assoc "id" renamed_chat ∈ ids (records Chats two_records_store) /\
  exists i x st',
    records Chats two_records_store !! i = Some x /\
    field x "id" = assoc "id" renamed_chat /\
    (forall j y, j < i -> records Chats two_records_store !! j = Some y ->
                 field y "id" <> assoc "id" renamed_chat) /\
    update_by_id Chats renamed_chat two_records_store = Ok st' /\
    st' !! key Chats
    = Some (JSON_stringify
              (VArr (<[i := VObj renamed_chat]> (records Chats two_records_store)))) /\
    length (stored_records st' (key Chats)) = length (records Chats two_records_store) /\
    stored_records st' (key Chats) !! i = Some (toJSON (VObj renamed_chat)) /\
    (forall j, j <> i ->
               stored_records st' (key Chats) !! j
               = toJSON <$> (records Chats two_records_store !! j)) /\
    (forall k, k <> key Chats -> st' !! k = two_records_store !! k).
Proof.
  split; [exact renamed_chat_present|].
  exact (proj2 (proj2 (update_fails_iff_id_absent Chats renamed_chat two_records_store))
           renamed_chat_present).
Defined.

Lemma update_replaces_exactly_one_witness :
  healthy Chats two_records_store /\
  findIndex (fun x => strict_eq (field x "id") (assoc "id" renamed_chat))
    (records Chats two_records_store) = Some 1 /\
  survives_reading (VObj renamed_chat) = true /\
  validator Chats (reread (VObj renamed_chat)) = true /\
  exists x st',
    records Chats two_records_store !! 1 = Some x /\
    field x "id" = assoc "id" renamed_chat /\
    update_by_id Chats renamed_chat two_records_store = Ok st' /\
    records Chats st' = <[1 := reread (VObj renamed_chat)]> (records Chats two_records_store) /\
    length (records Chats st') = length (records Chats two_records_store) /\
    records Chats st' !! 1 = Some (reread (VObj renamed_chat)) /\
    (forall j, j <> 1 -> records Chats st' !! j = records Chats two_records_store !! j) /\
    (forall k, k <> key Chats -> st' !! k = two_records_store !! k).
Proof.
  assert (Hi : findIndex (fun x => strict_eq (field x "id") (assoc "id" renamed_chat))
                 (records Chats two_records_store) = Some 1)
    by (vm_compute; reflexivity).
  assert (Hr : survives_reading (VObj renamed_chat) = true) by reflexivity.
  assert (Hv : validator Chats (reread (VObj renamed_chat)) = true)
    by (vm_compute; reflexivity).
  split_and!; [exact (two_records_store_healthy Chats) | exact Hi | exact Hr | exact Hv |].
  exact (update_replaces_exactly_one Chats renamed_chat two_records_store 1
           (two_records_store_healthy Chats) Hi Hr Hv).
Defined.

Lemma delete_idempotent_witness :
  healthy Chats two_records_store /\
  (Some (VStr "zz") ∉ ids (records Chats two_records_store)) /\
  length (records Chats two_records_store) = 2 /\
  records Chats (delete_by_id Chats "zz" two_records_store) = records Chats two_records_store.
Proof.
  assert (E : ids (records Chats two_records_store) = [Some (VStr "c1"); Some (VStr "c2")])
    by (vm_compute; reflexivity).
  assert (Hid : Some (VStr "zz") ∉ ids (records Chats two_records_store)).
  { rewrite E. apply not_elem_of_cons. split; [discriminate|].
    apply not_elem_of_cons. split; [discriminate|]. apply not_elem_of_nil. }
  split_and!; [exact (two_records_store_healthy Chats) | exact Hid | reflexivity |].
  exact (proj1 (proj2 (delete_idempotent Chats "zz" two_records_store))
           (two_records_store_healthy Chats) Hid).
Defined.

(** The sample task as [getTask] returns it. *)
Definition sample_task_read : value :=
  VObj [("id", VStr "t1"); ("title", VStr "Buy milk"); ("completed", VBool false);
        ("createdAt", VDate (Some 2000%Z))].

(** The store a toggle leaves. *)
Definition toggled (id : string) (st : store) : store :=
  match toggleTaskCompletion id st with
  | Ok st' => st'
  | Throw _ => st
  end.

Lemma toggle_twice_restores_completed_witness :
  NoDup (ids (getTasks two_records_store)) /\
  getTask two_records_store "t1" = Some sample_task_read /\
  toggleTaskCompletion "t1" two_records_store = Ok (toggled "t1" two_records_store) /\
  toggleTaskCompletion "t1" (toggled "t1" two_records_store)
  = Ok (toggled "t1" (toggled "t1" two_records_store)) /\
  exists task2,
    getTask (toggled "t1" (toggled "t1" two_records_store)) "t1" = Some task2 /\
    field task2 "completed" = field sample_task_read "completed".
Proof.
  assert (Hnd : NoDup (ids (getTasks two_records_store))).
  { assert (E : ids (getTasks two_records_store) = [Some (VStr "t1"); Some (VStr "t2")])
      by (vm_compute; reflexivity).
    rewrite E. apply NoDup_cons. split; [|apply NoDup_singleton].
    apply not_elem_of_cons. split; [discriminate|]. apply not_elem_of_nil. }
  assert (Hget : getTask two_records_store "t1" = Some sample_task_read)
    by (vm_compute; reflexivity).
  assert (H1 : toggleTaskCompletion "t1" two_records_store
               = Ok (toggled "t1" two_records_store)) by (vm_compute; reflexivity).
  assert (H2 : toggleTaskCompletion "t1" (toggled "t1" two_records_store)
               = Ok (toggled "t1" (toggled "t1" two_records_store)))
    by (vm_compute; reflexivity).
  split_and!; [exact Hnd | exact Hget | exact H1 | exact H2 |].
  exact (toggle_twice_restores_completed "t1" two_records_store Hnd
           sample_task_read _ _ Hget H1 H2).
Defined.

Lemma export_clear_import_restores_counts_witness :
  validateUserProfile (getItem sample_store USER_PROFILE) = true /\
  Forall (fun chat => chat_dates_ok chat = true) (getChats sample_store) /\
  Forall (fun task => task_dates_ok task = true) (getTasks sample_store) /\
  exists exported st',
    exportData 1 5000%Z sample_store = Some (exported, sample_store) /\
    getChats (clearData sample_store) = [] /\ getTasks (clearData sample_store) = [] /\
    importData exported (clearData sample_store) = Ok st' /\
    length (getChats st') = length (getChats sample_store) /\
    length (getTasks st') = length (getTasks sample_store) /\
    map message_count (getChats st') = map message_count (getChats sample_store).
Proof.
  assert (Hp : validateUserProfile (getItem sample_store USER_PROFILE) = true)
    by (vm_compute; reflexivity).
  assert (Hc : Forall (fun chat => chat_dates_ok chat = true) (getChats sample_store)).
  { apply Forall_forallb. vm_compute. reflexivity. }
  assert (Ht : Forall (fun task => task_dates_ok task = true) (getTasks sample_store)).
  { apply Forall_forallb. vm_compute. reflexivity. }
  split_and!; [exact Hp | exact Hc | exact Ht |].
  exact (export_clear_import_restores_counts 0 5000%Z sample_store Hp Hc Ht).
Defined.

(** ** Where properties fail as the specification words them *)

(** Two tasks under one identifier, the first with a creation time that
    does not parse. *)
Definition duplicate_id_store : store :=
  <[TASKS := Text (JArr [sample_task "x" false "garbage"; sample_task "x" false "2000"])]> ∅.

(** What the first toggle leaves: the first task completed, its Invalid
    Date printed as [null]. *)
Definition duplicate_id_store_1 : store :=
  <[TASKS := Text (JArr [JObj [("id", JStr "x"); ("title", JStr "Buy milk");
                               ("completed", JBool true); ("createdAt", JNull)];
                         sample_task "x" false "2000"])]> duplicate_id_store.

(** What the second toggle leaves: the first task is gone, the second is
    completed. *)
Definition duplicate_id_store_2 : store :=
  <[TASKS := Text (JArr [sample_task "x" true "2000"])]> duplicate_id_store_1.

(** Why the involution needs distinct identifiers. On [duplicate_id_store] the first
    toggle writes the first task with its Invalid Date printed as [null];
    read back, that task is dropped as invalid, so the second toggle
    succeeds on the second task, and the task then found under the
    identifier is completed while the one found at the start was not. *)
Lemma toggle_twice_needs_distinct_ids : ~ toggle_is_involution duplicate_id_store "x".
Proof.
  intros Hclaim.
  assert (E0 : getTask duplicate_id_store "x"
               = Some (VObj [("id", VStr "x"); ("title", VStr "Buy milk");
                             ("completed", VBool false); ("createdAt", VDate None)]))
    by reflexivity.
  assert (E1 : toggleTaskCompletion "x" duplicate_id_store = Ok duplicate_id_store_1)
    by reflexivity.
  assert (E2 : toggleTaskCompletion "x" duplicate_id_store_1 = Ok duplicate_id_store_2)
    by reflexivity.
  assert (E3 : getTask duplicate_id_store_2 "x"
               = Some (VObj [("id", VStr "x"); ("title", VStr "Buy milk");
                             ("completed", VBool true); ("createdAt", VDate (Some 2000%Z))]))
    by reflexivity.
  destruct (Hclaim _ _ _ E0 E1 E2) as (task2 & Hget & Hflag).
  rewrite E3 in Hget. injection Hget as <-. discriminate Hflag.
Qed.

(** Two conversations, the second with a last-message time that does not
    parse: the validator accepts it, since the Invalid Date is a date. *)
Definition stale_date_store : store :=
  <[CHATS := Text (JArr [sample_chat;
                         JObj [("id", JStr "c2"); ("title", JStr "Plans");
                               ("lastMessage", JStr "");
                               ("lastMessageTime", JStr "garbage");
                               ("messages", JArr [])]])]> ∅.

(** C6, as stated, fails on [stale_date_store]: no conversation carries
    the identifier, yet the deletion writes the second conversation with
    its Invalid Date printed as [null], and the collection read afterwards
    has lost it. *)
Lemma delete_absent_counterexample :
  length (records Chats stale_date_store) = 2%nat /\
  (Some (VStr "zz") ∉ ids (records Chats stale_date_store)) /\
  length (records Chats (delete_by_id Chats "zz" stale_date_store)) = 1%nat /\
  ~ delete_absent_is_noop Chats "zz" stale_date_store.
Proof.
  assert (Hbefore : length (records Chats stale_date_store) = 2%nat) by reflexivity.
  assert (Hafter : length (records Chats (delete_by_id Chats "zz" stale_date_store)) = 1%nat)
    by reflexivity.
  assert (Hid : Some (VStr "zz") ∉ ids (records Chats stale_date_store)).
  { assert (E : ids (records Chats stale_date_store) = [Some (VStr "c1"); Some (VStr "c2")])
      by reflexivity.
    rewrite E. apply not_elem_of_cons. split; [discriminate|].
    apply not_elem_of_cons. split; [discriminate|]. apply not_elem_of_nil. }
  split_and!; [exact Hbefore | exact Hid | exact Hafter |].
  intros Hclaim. specialize (Hclaim Hid).
  rewrite Hclaim, Hbefore in Hafter. discriminate Hafter.
Qed.

(** The first conversation with a new title. *)
Definition retitled_chat : list (string * value) :=
  [("id", VStr "c1"); ("title", VStr "Renamed"); ("lastMessage", VStr "");
   ("lastMessageTime", VDate (Some 1000%Z)); ("messages", VArr [])].

(** The second conversation with a last-message time that is the Invalid
    Date. *)
Definition undated_chat : list (string * value) :=
  [("id", VStr "c2"); ("title", VStr "Plans"); ("lastMessage", VStr "");
   ("lastMessageTime", VDate None); ("messages", VArr [])].

(** The second task with a [messages] property that holds [null]. *)
Definition task_with_null_message : list (string * value) :=
  [("id", VStr "t2"); ("title", VStr "Buy milk"); ("completed", VBool true);
   ("createdAt", VDate (Some 2500%Z)); ("messages", VArr [VNull])].

(** The store an update leaves. *)
Definition updated (c : collection) (r : list (string * value)) (st : store) : store :=
  match update_by_id c r st with
  | Ok st' => st'
  | Throw _ => st
  end.

(** C10, as stated, fails in three ways, one for each condition of the
    amended statement. On [stale_date_store] the update of the first
    conversation succeeds, and the second, written with its Invalid Date
    printed as [null], is missing from the collection read afterwards. On
    the store of two conversations and two tasks with valid dates, the
    update of the second conversation with a record that the validator
    accepts, but whose date is the Invalid Date, succeeds, and that record
    is missing from the collection read afterwards. On the same store, the
    update of the second task with a record that the validator accepts,
    also once read back, but which has a [messages] property holding
    [null], succeeds, and the collection then reads as empty, the first
    task being lost with it. *)
Lemma update_drops_record_counterexample :
  (length (records Chats stale_date_store) = 2%nat /\
   update_by_id Chats retitled_chat stale_date_store
   = Ok (updated Chats retitled_chat stale_date_store) /\
   length (records Chats (updated Chats retitled_chat stale_date_store)) = 1%nat /\
   ~ update_is_local Chats retitled_chat stale_date_store) /\
  (length (records Chats two_records_store) = 2%nat /\
   healthy Chats two_records_store /\
   validator Chats (VObj undated_chat) = true /\
   survives_reading (VObj undated_chat) = true /\
   validator Chats (reread (VObj undated_chat)) = false /\
   update_by_id Chats undated_chat two_records_store
   = Ok (updated Chats undated_chat two_records_store) /\
   length (records Chats (updated Chats undated_chat two_records_store)) = 1%nat /\
   ~ update_is_local Chats undated_chat two_records_store) /\
  (length (records Tasks two_records_store) = 2%nat /\
   healthy Tasks two_records_store /\
   validator Tasks (VObj task_with_null_message) = true /\
   validator Tasks (reread (VObj task_with_null_message)) = true /\
   survives_reading (VObj task_with_null_message) = false /\
   update_by_id Tasks task_with_null_message two_records_store
   = Ok (updated Tasks task_with_null_message two_records_store) /\
   records Tasks (updated Tasks task_with_null_message two_records_store) = [] /\
   ~ update_is_local Tasks task_with_null_message two_records_store).
Proof.
  assert (Hstale : length (records Chats stale_date_store) = 2%nat) by reflexivity.
  assert (Hchats : length (records Chats two_records_store) = 2%nat) by reflexivity.
  assert (Htasks : length (records Tasks two_records_store) = 2%nat) by reflexivity.
  split_and!; try reflexivity; try apply two_records_store_healthy.
  - intros Hclaim.
    destruct (Hclaim 0%nat _ eq_refl eq_refl) as [Hlen _].
    rewrite Hstale in Hlen. discriminate Hlen.
  - intros Hclaim.
    destruct (Hclaim 1%nat _ eq_refl eq_refl) as [Hlen _].
    rewrite Hchats in Hlen. discriminate Hlen.
  - intros Hclaim.
    destruct (Hclaim 1%nat _ eq_refl eq_refl) as [Hlen _].
    rewrite Htasks in Hlen. discriminate Hlen.
Qed.

(** A valid profile, and one conversation whose last-message time does not
    parse. *)
Definition invalid_date_store : store :=
  <[USER_PROFILE := Text sample_profile]>
    (<[CHATS := Text (JArr [JObj [("id", JStr "c1"); ("title", JStr "Hello");
                                  ("lastMessage", JStr "");
                                  ("lastMessageTime", JStr "garbage");
                                  ("messages", JArr [])]])]> ∅).

(** The number of conversations read after the round trip, when every
    step returns. *)
Definition chats_after_roundtrip (fuel : nat) (now : Z) (st : store) : option nat :=
  match exportData fuel now st with
  | Some (exported, st1) =>
      match importData exported (clearData st1) with
      | Ok st' => Some (length (getChats st'))
      | Throw _ => None
      end
  | None => None
  end.

(** C3, as stated, fails on [invalid_date_store], which holds one
    conversation that passes the validator: the export prints the Invalid
    Date as [null], and the conversation imported with it is dropped when
    the collection is read. *)
Lemma export_import_counterexample :
  length (getChats invalid_date_store) = 1%nat /\
  ~ roundtrip_restores_counts 5000%Z invalid_date_store.
Proof.
  assert (Hbefore : length (getChats invalid_date_store) = 1%nat) by reflexivity.
  split; [exact Hbefore|].
  intros (fuel & exported & st1 & st' & Hexport & Himport & Hchats & _).
  destruct fuel as [|fuel]; [discriminate Hexport|].
  assert (Hafter : chats_after_roundtrip (S fuel) 5000%Z invalid_date_store = Some 0%nat).
  { unfold chats_after_roundtrip, exportData.
    rewrite (getProfile_valid fuel invalid_date_store) by reflexivity.
    reflexivity. }
  unfold chats_after_roundtrip in Hafter. rewrite Hexport, Himport in Hafter.
  injection Hafter as Hafter. rewrite Hafter, Hbefore in Hchats. discriminate Hchats.
Qed.



(** * The further properties at concrete stores *)

Definition sample_chat_props : list (string * value) :=
  [("id", VStr "c1"); ("title", VStr "Hello"); ("lastMessage", VStr "");
   ("lastMessageTime", VDate (Some 1000%Z)); ("messages", VArr [])].

Definition sample_task_props : list (string * value) :=
  [("id", VStr "t1"); ("title", VStr "Buy milk"); ("completed", VBool false);
   ("createdAt", VDate (Some 2000%Z))].

Definition second_chat_props : list (string * value) :=
  [("id", VStr "c2"); ("title", VStr "Plans"); ("lastMessage", VStr "");
   ("lastMessageTime", VDate (Some 1500%Z)); ("messages", VArr [])].

Definition second_task_props : list (string * value) :=
  [("id", VStr "t2"); ("title", VStr "Buy milk"); ("completed", VBool true);
   ("createdAt", VDate (Some 2500%Z))].

Definition sample_preferences : list (string * value) :=
  [("theme", VStr "dark"); ("notifications", VBool false); ("aiModel", VStr "gpt-4")].

Lemma sample_store_healthy (c : collection) : healthy c sample_store.
Proof. destruct c; apply Forall_forallb; vm_compute; reflexivity. Defined.

(** The sample conversation after the two messages. *)
Definition sample_chat_after_messages : value :=
  VObj [("id", VStr "c1"); ("title", VStr "Hello"); ("lastMessage", VStr "Hi!");
        ("lastMessageTime", VDate (Some 4000%Z));
        ("messages", VArr [newMessage "m1" "c1" hello; newMessage "m2" "c1" reply])].

Lemma getMessages_window_witness :
  getChat sample_store_after_messages "c1" = Some sample_chat_after_messages /\
  getMessages sample_store_after_messages "c1" (Some 1%float) (Some 1%float)
  = take 1 (drop 1 [newMessage "m1" "c1" hello; newMessage "m2" "c1" reply]) /\
  length (getMessages sample_store_after_messages "c1" (Some 1%float) (Some 1%float))
  = 1 `min` (length [newMessage "m1" "c1" hello; newMessage "m2" "c1" reply] - 1).
Proof.
  assert (Hget : getChat sample_store_after_messages "c1" = Some sample_chat_after_messages)
    by (vm_compute; reflexivity).
  split; [exact Hget|].
  exact (getMessages_window sample_store_after_messages "c1" sample_chat_after_messages
           [newMessage "m1" "c1" hello; newMessage "m2" "c1" reply] 1%float 1%float 1 1
           Hget eq_refl eq_refl eq_refl).
Defined.

(** A store whose profile has a name and an avatar. *)
Definition named_profile : list (string * value) :=
  [("name", VStr "Bob"); ("avatar", VStr "bob.png");
   ("preferences", VObj sample_preferences)].

Definition named_profile_store : store :=
  setItem sample_store USER_PROFILE (VObj named_profile).

(** [{ name: undefined, preferences: {...} }] *)
Definition sample_update : profileUpdates :=
  {| pu_name := Undef; pu_avatar := Absent;
     pu_preferences := Present {| pd_theme := "light"; pd_notifications := true;
                                  pd_aiModel := "gpt-4o" |} |}.

Lemma updateProfile_merges_witness :
  profile_stored named_profile_store = true /\
  getItem named_profile_store USER_PROFILE = VObj named_profile /\
  NoDup (map fst named_profile) /\
  exists st' p',
    updateProfile 1 (profileUpdates_object sample_update) named_profile_store
    = Some (Ok (), st') /\
    getProfile 1 st' = Some (p', st') /\
    field p' "name" = None /\
    field p' "avatar" = Some (VStr "bob.png") /\
    preference p' "theme" = Some (VStr "light") /\
    preference p' "notifications" = Some (VBool true) /\
    preference p' "aiModel" = Some (VStr "gpt-4o").
Proof.
  assert (Hst : profile_stored named_profile_store = true) by (vm_compute; reflexivity).
  assert (Hcur : getItem named_profile_store USER_PROFILE = VObj named_profile)
    by (vm_compute; reflexivity).
  assert (Hnd : NoDup (map fst named_profile)).
  { apply (bool_decide_unpack (NoDup (map fst named_profile))). vm_compute. exact I. }
  split_and!; [exact Hst | exact Hcur | exact Hnd |].
  exact (updateProfile_merges 0 sample_update named_profile_store named_profile
           Hst Hcur Hnd).
Defined.

(** [{ theme: 'auto' }] and [{ theme: undefined, notifications: true }] *)
Definition sample_preferences_update : preferencesUpdates :=
  {| pp_theme := Present "auto"; pp_notifications := Absent; pp_aiModel := Absent |}.

Definition undefined_theme_update : preferencesUpdates :=
  {| pp_theme := Undef; pp_notifications := Present true; pp_aiModel := Absent |}.

Lemma updatePreferences_merges_witness :
  profile_stored sample_store = true /\
  field (getItem sample_store USER_PROFILE) "preferences" = Some (VObj sample_preferences) /\
  NoDup (map fst sample_preferences) /\
  (exists st' p',
     updatePreferences 1 (preferencesUpdates_object sample_preferences_update) sample_store
     = Some (Ok (), st') /\
     getProfile 1 st' = Some (p', st') /\
     field p' "name" = None /\
     field p' "avatar" = None /\
     preference p' "theme" = Some (VStr "auto") /\
     preference p' "notifications" = Some (VBool false) /\
     preference p' "aiModel" = Some (VStr "gpt-4")) /\
  updatePreferences 1 (preferencesUpdates_object undefined_theme_update) sample_store
  = Some (Throw InvalidProfile, sample_store).
Proof.
  assert (Hst : profile_stored sample_store = true) by (vm_compute; reflexivity).
  assert (Hp : field (getItem sample_store USER_PROFILE) "preferences"
               = Some (VObj sample_preferences)) by (vm_compute; reflexivity).
  assert (Hnd : NoDup (map fst sample_preferences)).
  { apply (bool_decide_unpack (NoDup (map fst sample_preferences))). vm_compute. exact I. }
  split_and!; [exact Hst | exact Hp | exact Hnd | |].
  - exact (updatePreferences_merges 0 sample_preferences_update sample_store
             sample_preferences Hst Hp Hnd).
  - exact (updatePreferences_merges 0 undefined_theme_update sample_store
             sample_preferences Hst Hp Hnd).
Defined.

Lemma delete_removes_exactly_witness :
  healthy Chats two_records_store /\
  records Chats (delete_by_id Chats "c2" two_records_store)
  = List.filter (fun x => negb (strict_eq (field x "id") (Some (VStr "c2"))))
      (records Chats two_records_store) /\
  healthy Chats (delete_by_id Chats "c2" two_records_store).
Proof.
  split; [exact (two_records_store_healthy Chats)|].
  exact (delete_removes_exactly Chats "c2" two_records_store
           (two_records_store_healthy Chats)).
Defined.

Lemma create_puts_in_front_witness :
  healthy Chats two_records_store /\ healthy Tasks two_records_store /\
  getChats (createChat "c3" 5000%Z "Trip" two_records_store).2
  = (createChat "c3" 5000%Z "Trip" two_records_store).1 :: getChats two_records_store /\
  getTasks (createTask "t3" 5000%Z (new_task "Call" false) two_records_store).2
  = (createTask "t3" 5000%Z (new_task "Call" false) two_records_store).1
    :: getTasks two_records_store.
Proof.
  split_and!; [exact (two_records_store_healthy Chats)
               | exact (two_records_store_healthy Tasks) | |].
  - exact (proj1 (proj1 (create_puts_in_front "c3" 5000%Z two_records_store) "Trip"
                    (two_records_store_healthy Chats))).
  - exact (proj1 (proj2 (create_puts_in_front "t3" 5000%Z two_records_store)
                    (new_task "Call" false) (two_records_store_healthy Tasks))).
Defined.

Lemma update_then_records_witness :
  healthy Chats two_records_store /\
  findIndex (fun x => strict_eq (field x "id") (Some (VStr "c2")))
    (records Chats two_records_store) = Some 1 /\
  survives_reading (VObj renamed_chat) = true /\
  survives_reading (VObj undated_chat) = true /\
  (exists st',
     update_by_id Chats renamed_chat two_records_store = Ok st' /\
     records Chats st'
     = if validator Chats (reread (VObj renamed_chat))
       then <[1 := reread (VObj renamed_chat)]> (records Chats two_records_store)
       else take 1 (records Chats two_records_store)
            ++ drop 2 (records Chats two_records_store)) /\
  (exists st',
     update_by_id Chats undated_chat two_records_store = Ok st' /\
     records Chats st'
     = if validator Chats (reread (VObj undated_chat))
       then <[1 := reread (VObj undated_chat)]> (records Chats two_records_store)
       else take 1 (records Chats two_records_store)
            ++ drop 2 (records Chats two_records_store)).
Proof.
  assert (Hi : findIndex (fun x => strict_eq (field x "id") (Some (VStr "c2")))
                 (records Chats two_records_store) = Some 1) by (vm_compute; reflexivity).
  assert (Hs : survives_reading (VObj renamed_chat) = true) by reflexivity.
  assert (Hs' : survives_reading (VObj undated_chat) = true) by reflexivity.
  split_and!; [exact (two_records_store_healthy Chats) | exact Hi | exact Hs | exact Hs' | |].
  - exact (update_then_records Chats renamed_chat two_records_store 1
             (two_records_store_healthy Chats) Hi Hs).
  - exact (update_then_records Chats undated_chat two_records_store 1
             (two_records_store_healthy Chats) Hi Hs').
Defined.

Lemma addMessage_then_getChats_witness :
  healthy Chats two_records_store /\
  getChat two_records_store "c2" = Some (VObj second_chat_props) /\
  exists i st',
    addMessage "m1" "c2" hello two_records_store = Ok (newMessage "m1" "c2" hello, st') /\
    findIndex (fun x => strict_eq (field x "id") (Some (VStr "c2")))
      (getChats two_records_store)
    = Some i /\
    getChats st'
    = <[i := VObj (put "lastMessageTime" (VDate (Some 3000%Z))
                     (put "lastMessage" (VStr (md_text hello))
                        (put "messages" (VArr ([] ++ [newMessage "m1" "c2" hello]))
                           second_chat_props)))]>
        (getChats two_records_store) /\
    healthy Chats st'.
Proof.
  assert (Hget : getChat two_records_store "c2" = Some (VObj second_chat_props))
    by (vm_compute; reflexivity).
  split_and!; [exact (two_records_store_healthy Chats) | exact Hget |].
  exact (addMessage_then_getChats "m1" "c2" hello 3000%Z two_records_store
           second_chat_props [] (two_records_store_healthy Chats) Hget eq_refl eq_refl).
Defined.

Lemma toggleTaskCompletion_then_getTasks_witness :
  healthy Tasks two_records_store /\
  getTask two_records_store "t2" = Some (VObj second_task_props) /\
  exists i st',
    toggleTaskCompletion "t2" two_records_store = Ok st' /\
    findIndex (fun x => strict_eq (field x "id") (Some (VStr "t2")))
      (getTasks two_records_store)
    = Some i /\
    getTasks st'
    = <[i := VObj (put "completed" (VBool (negb true)) second_task_props)]>
        (getTasks two_records_store) /\
    healthy Tasks st'.
Proof.
  assert (Hget : getTask two_records_store "t2" = Some (VObj second_task_props))
    by (vm_compute; reflexivity).
  split_and!; [exact (two_records_store_healthy Tasks) | exact Hget |].
  exact (toggleTaskCompletion_then_getTasks "t2" two_records_store second_task_props true
           (two_records_store_healthy Tasks) Hget eq_refl).
Defined.

Definition task_from_chat : taskData :=
  {| td_title := "Reply to Ann"; td_description := None; td_completed := false;
     td_fromChatId := Some "c1" |}.

Lemma createTask_then_getTasksByChat_witness :
  healthy Tasks sample_store /\
  getTasksByChat "c1" (createTask "t2" 5000%Z task_from_chat sample_store).2
  = (createTask "t2" 5000%Z task_from_chat sample_store).1 :: getTasksByChat "c1" sample_store.
Proof.
  split; [exact (sample_store_healthy Tasks)|].
  exact (createTask_then_getTasksByChat "t2" "c1" 5000%Z task_from_chat sample_store
           (sample_store_healthy Tasks)).
Defined.

(** The states of the two providers once they have loaded the store of
    two conversations and two tasks. *)
Definition sample_chat_state : ChatContext.ChatState :=
  {| ChatContext.chats := getChats two_records_store; ChatContext.currentChat := VNull;
     ChatContext.loading := false; ChatContext.error := None |}.

Definition sample_task_state : TaskContext.TaskState :=
  {| TaskContext.tasks := getTasks two_records_store; TaskContext.loading := false;
     TaskContext.error := None; TaskContext.filter := TaskContext.Pending |}.

Lemma two_chats_distinct : NoDup (ids (getChats two_records_store)).
Proof.
  assert (E : ids (getChats two_records_store) = [Some (VStr "c1"); Some (VStr "c2")])
    by (vm_compute; reflexivity).
  rewrite E. apply NoDup_cons. split; [|apply NoDup_singleton].
  apply not_elem_of_cons. split; [discriminate | apply not_elem_of_nil].
Defined.

Lemma two_tasks_distinct : NoDup (ids (getTasks two_records_store)).
Proof.
  assert (E : ids (getTasks two_records_store) = [Some (VStr "t1"); Some (VStr "t2")])
    by (vm_compute; reflexivity).
  rewrite E. apply NoDup_cons. split; [|apply NoDup_singleton].
  apply not_elem_of_cons. split; [discriminate | apply not_elem_of_nil].
Defined.

Lemma sample_chats_in_sync : chats_in_sync two_records_store sample_chat_state.
Proof.
  split_and!; [reflexivity | exact (two_records_store_healthy Chats)
               | exact two_chats_distinct | by left].
Defined.

Lemma sample_tasks_in_sync : tasks_in_sync two_records_store sample_task_state.
Proof.
  split_and!; [reflexivity | exact (two_records_store_healthy Tasks)
               | exact two_tasks_distinct].
Defined.

Lemma ChatProvider_stays_in_sync_witness :
  chats_in_sync two_records_store sample_chat_state /\
  (exists st' state' outcome,
     ChatContext.addMessage "m1" "c2" hello two_records_store sample_chat_state
     = Ok (st', state', outcome) /\
     chats_in_sync st' state' /\
     outcome = match getChat two_records_store "c2" with
               | Some _ => Ok (newMessage "m1" "c2" hello)
               | None => Throw (NotFound "Chat" "c2")
               end /\
     (getChat two_records_store "c2" = None ->
      st' = two_records_store /\
      ChatContext.chats state' = ChatContext.chats sample_chat_state /\
      ChatContext.error state' = Some "Failed to send message")) /\
  (exists st' state',
     ChatContext.deleteChat "c2" two_records_store sample_chat_state = Ok (st', state') /\
     chats_in_sync st' state' /\ getChat st' "c2" = None).
Proof.
  split; [exact sample_chats_in_sync|].
  pose proof (ChatProvider_stays_in_sync two_records_store sample_chat_state
                sample_chats_in_sync) as (_ & _ & Hdelete & Hadd).
  split; [exact (Hadd "m1" "c2" hello 3000%Z eq_refl) | exact (Hdelete "c2")].
Defined.

Lemma TaskProvider_stays_in_sync_witness :
  tasks_in_sync two_records_store sample_task_state /\
  (exists st' state',
     TaskContext.toggleTaskCompletion "t2" two_records_store sample_task_state
     = Ok (st', state') /\
     tasks_in_sync st' state' /\
     match getTask two_records_store "t2" with
     | Some task =>
         exists task',
           getTask st' "t2" = Some task' /\
           field task' "completed" = Some (VBool (negb (truthy (field task "completed"))))
     | None =>
         st' = two_records_store /\
         TaskContext.error state' = Some "Failed to toggle task completion"
     end) /\
  TaskContext.filteredTasks sample_task_state
  = Ok (getTasksByStatus false two_records_store).
Proof.
  split; [exact sample_tasks_in_sync|].
  pose proof (TaskProvider_stays_in_sync two_records_store sample_task_state
                sample_tasks_in_sync) as (_ & _ & _ & Htoggle & Hfiltered).
  split; [exact (Htoggle "t2") | exact Hfiltered].
Defined.

Lemma searchChats_finds_witness :
  VObj sample_chat_props ∈ getChats sample_store /\
  VObj sample_chat_props ∈ searchChats "Hello" sample_store.
Proof.
  assert (Hin : VObj sample_chat_props ∈ getChats sample_store).
  { assert (E : getChats sample_store = [VObj sample_chat_props]) by (vm_compute; reflexivity).
    rewrite E. apply list_elem_of_here. }
  split; [exact Hin|].
  exact (proj2 (proj2 (proj2 (searchChats_finds "Hello" sample_store)))
           (VObj sample_chat_props) "Hello" Hin eq_refl).
Defined.

Lemma searchTasks_finds_witness :
  VObj sample_task_props ∈ getTasks sample_store /\
  VObj sample_task_props ∈ searchTasks "Buy milk" sample_store.
Proof.
  assert (Hin : VObj sample_task_props ∈ getTasks sample_store).
  { assert (E : getTasks sample_store = [VObj sample_task_props]) by (vm_compute; reflexivity).
    rewrite E. apply list_elem_of_here. }
  split; [exact Hin|].
  exact (proj2 (proj2 (proj2 (searchTasks_finds "Buy milk" sample_store)))
           (VObj sample_task_props) "Buy milk" Hin eq_refl).
Defined.

Lemma stored_profile_stays_valid_witness :
  (exists r st',
     updateProfile 1 (profileUpdates_object sample_update) sample_store = Some (r, st') /\
     profile_stored st' = true) /\
  (exists r st',
     updateProfile 1 (Value VNull) sample_store = Some (r, st') /\
     profile_stored st' = true /\ r = Throw TypeError /\ st' = sample_store).
Proof.
  split.
  - destruct (updateProfile 1 (profileUpdates_object sample_update) sample_store)
      as [[r st']|] eqn:E.
    + exists r, st'. split; [reflexivity|].
      exact (proj1 (proj1 stored_profile_stays_valid 1 _ _ r st' E)).
    + vm_compute in E. discriminate E.
  - destruct (updateProfile 1 (Value VNull) sample_store) as [[r st']|] eqn:E.
    + exists r, st'. split; [reflexivity|].
      destruct (proj1 stored_profile_stays_valid 1 _ _ r st' E) as (Hst & Hnull & Hthrow).
      pose proof (Hnull eq_refl) as Hr.
      split_and!; [exact Hst | exact Hr | exact (proj2 (Hthrow TypeError Hr))].
    + vm_compute in E. discriminate E.
Defined.

(** A document that gives the tasks but not the conversations. *)
Definition tasks_only_document : text :=
  Text (JObj [("data", JObj [("tasks", JArr [])])]).

Lemma importData_outcomes_witness :
  exists st',
    importData tasks_only_document sample_store = Ok st' /\
    st' !! CHATS = sample_store !! CHATS.
Proof.
  assert (Ho : exists st',
             importData tasks_only_document sample_store = Ok st' /\
             (forall k, k <> CHATS -> k <> TASKS -> k <> USER_PROFILE ->
                        st' !! k = sample_store !! k) /\
             (false = false -> st' !! CHATS = sample_store !! CHATS) /\
             (true = false -> st' !! TASKS = sample_store !! TASKS))
    by exact (importData_outcomes tasks_only_document sample_store).
  destruct Ho as (st' & E & _ & Hchats & _).
  exists st'. split; [exact E | exact (Hchats eq_refl)].
Defined.
